(** * Stealth-address wallet core: a shallow embedding of [lib/crypto] and of
    the announcement scan of [commands/receive].

    The embedding follows the JavaScript source: keys, addresses, view tags
    and metadata are hex strings ([0x] followed by hex digits), handled with
    [slice], [toLowerCase] and [padStart]; byte arrays are lists of bytes;
    [BigInt] values are integers; a [throw] is an error result; a string
    that is not a hex string is held as its UTF-8 text.  The secp256k1 and
    Keccak primitives of [@noble/secp256k1] and [viem] and the PBKDF2 /
    AES-GCM primitives of the platform are external to the repository: they
    are the fields of the classes [Secp256k1] and [Cipher], with the
    algebraic facts the proofs use stated in [Secp256k1Laws], [CipherLaws]
    and [CipherAuthenticity]. *)

From Stdlib Require Import ZArith NArith PArith List String Ascii Bool Lia.
From Stdlib.Strings Require Import Byte HexString.
From Stdlib Require Import Zmod.
From Bignums Require Import BigZ.BigZ.
Import ListNotations.

Local Open Scope Z_scope.
Local Open Scope string_scope.

(* ================================================================== *)
(** * Errors and results *)

(** The exceptions the code can raise.  [InvalidMetaAddressLength] is
    [Error('Invalid stealth meta-address length')] and [DecryptionFailed] is
    [Error('Decryption failed. Wrong password?')]; the other constructors
    are the exceptions of the libraries. *)
Inductive error : Type :=
| InvalidMetaAddressLength
| DecryptionFailed
| InvalidByteSequence      (* viem hexToBytes / noble h2b *)
| InvalidPrivateKey        (* noble toPriv *)
| InvalidPoint             (* noble Point.fromHex *)
| PointAtInfinity          (* noble toRawBytes of the point at infinity *)
| SyntaxError.             (* BigInt(string) *)

Inductive result (A : Type) : Type :=
| Ok (a : A)
| Err (e : error).
Arguments Ok {A} a.
Arguments Err {A} e.

Definition of_option {A} (e : error) (o : option A) : result A :=
  match o with Some a => Ok a | None => Err e end.

Definition rbind {A B} (r : result A) (f : A -> result B) : result B :=
  match r with Ok a => f a | Err e => Err e end.

(** Calls into the curve and hash libraries, recorded in execution order. *)
Inductive op : Type :=
| OpGetPublicKey
| OpGetSharedSecret
| OpKeccak256
| OpFromHex
| OpFromPrivateKey
| OpPointAdd
| OpPublicKeyToAddress.

(** A computation: the library calls it performed, and its outcome.  After
    an exception nothing more is performed. *)
Definition M (A : Type) : Type := (list op * result A)%type.

Definition ret {A} (a : A) : M A := ([], Ok a).
Definition throw {A} (e : error) : M A := ([], Err e).
Definition lift {A} (r : result A) : M A := ([], r).
Definition call {A} (o : op) (r : result A) : M A := ([o], r).
Definition bind {A B} (m : M A) (f : A -> M B) : M B :=
  match m with
  | (t, Ok a) => let (t', r) := f a in ((t ++ t')%list, r)
  | (t, Err e) => (t, Err e)
  end.
Definition trace {A} (m : M A) : list op := fst m.
Definition outcome {A} (m : M A) : result A := snd m.

Declare Scope m_scope.
Delimit Scope m_scope with m.
Notation "x <- m ;; k" := (bind m (fun x => k))
  (at level 61, m at next level, right associativity) : m_scope.

(* ================================================================== *)
(** * JavaScript string primitives *)

Module Js.

(** [s.slice(n)] for [0 <= n]. *)
Fixpoint drop (n : nat) (s : string) : string :=
  match n, s with
  | O, _ => s
  | S _, EmptyString => EmptyString
  | S n', String _ s' => drop n' s'
  end.

Fixpoint take (n : nat) (s : string) : string :=
  match n, s with
  | O, _ => EmptyString
  | S _, EmptyString => EmptyString
  | S n', String c s' => String c (take n' s')
  end.

(** [s.slice(a, b)] for [0 <= a] and [0 <= b]. *)
Definition slice (a b : nat) (s : string) : string := take (b - a) (drop a s).

Definition lower_ascii (c : ascii) : ascii :=
  let n := nat_of_ascii c in
  if (Nat.leb 65 n && Nat.leb n 90)%bool then ascii_of_nat (n + 32) else c.

(** [s.toLowerCase()] on the ASCII strings the wallet handles (hex strings
    and addresses). *)
Fixpoint toLowerCase (s : string) : string :=
  match s with
  | EmptyString => EmptyString
  | String c s' => String (lower_ascii c) (toLowerCase s')
  end.

Fixpoint repeat_char (c : ascii) (n : nat) : string :=
  match n with O => EmptyString | S n' => String c (repeat_char c n') end.

(** [s.padStart(n, c)] with a one-character pad. *)
Definition padStart (n : nat) (c : ascii) (s : string) : string :=
  repeat_char c (n - String.length s) ++ s.

(** [s.startsWith(p)]. *)
Definition startsWith (p s : string) : bool := String.prefix p s.

End Js.

(* ================================================================== *)
(** * Bytes, hex strings and integers *)

Definition bytes : Type := list byte.

Definition hexchar (d : N) : ascii :=
  match d with
  | 0 => "0" | 1 => "1" | 2 => "2" | 3 => "3" | 4 => "4" | 5 => "5"
  | 6 => "6" | 7 => "7" | 8 => "8" | 9 => "9" | 10 => "a" | 11 => "b"
  | 12 => "c" | 13 => "d" | 14 => "e" | _ => "f"
  end%N%char.

(** Value of a hex digit, either case ([charCodeToBase16]). *)
Definition hexval (c : ascii) : option N := HexString.ascii_to_digit c.

Definition byte_of_N (n : N) : byte :=
  match Byte.of_N n with Some b => b | None => x00 end.

Definition hex_of_byte (b : byte) : string :=
  String (hexchar (Byte.to_N b / 16)) (String (hexchar (Byte.to_N b mod 16)) "").

Fixpoint hex_of_bytes (bs : bytes) : string :=
  match bs with
  | [] => ""
  | b :: bs' => hex_of_byte b ++ hex_of_bytes bs'
  end.

(** viem [bytesToHex]: [0x] and two lowercase digits per byte. *)
Definition bytesToHex (bs : bytes) : string := "0x" ++ hex_of_bytes bs.

(** Decoding of an even number of hex digits; [None] on a character that is
    no hex digit or on an odd length. *)
Fixpoint bytes_of_hex (s : string) : option bytes :=
  match s with
  | EmptyString => Some []
  | String _ EmptyString => None
  | String a (String b s') =>
      match hexval a, hexval b, bytes_of_hex s' with
      | Some x, Some y, Some bs => Some (byte_of_N (16 * x + y) :: bs)
      | _, _, _ => None
      end
  end.

(** viem [hexToBytes]: drops the first two characters, pads an odd number of
    digits with a leading [0], and throws on a character that is no hex
    digit. *)
Definition hexToBytes (hex : string) : result bytes :=
  let hexString := Js.drop 2 hex in
  let hexString :=
    if Nat.odd (String.length hexString) then String "0" hexString else hexString in
  of_option InvalidByteSequence (bytes_of_hex hexString).

(** noble [h2b], applied by [Point.fromHex] to a string argument: no
    prefix, an even number of hex digits. *)
Definition h2b (hex : string) : result bytes :=
  of_option InvalidByteSequence (bytes_of_hex hex).

(** Big-endian value of a byte array (noble [b2n]). *)
Definition b2n (bs : bytes) : Z :=
  fold_left (fun acc b => acc * 256 + Z.of_N (Byte.to_N b)) bs 0.

(** The [k] big-endian bytes of [z]. *)
Fixpoint n2b (k : nat) (z : Z) : bytes :=
  match k with
  | O => []
  | S k' => (n2b k' (z / 256) ++ [byte_of_N (Z.to_N (z mod 256))])%list
  end.

(** Value of a numeral in a radix up to 16. *)
Fixpoint parse_radix (radix : Z) (s : string) (acc : Z) : option Z :=
  match s with
  | EmptyString => Some acc
  | String c s' =>
      match hexval c with
      | Some v =>
          if (Z.of_N v <? radix)%Z then parse_radix radix s' (radix * acc + Z.of_N v)
          else None
      | None => None
      end
  end.

Definition parse_digits (radix : Z) (digits : string) : option Z :=
  if String.eqb digits "" then None else parse_radix radix digits 0.

(** ** [BigInt(string)] and [toString(16)] *)

(** The ASCII white space: TAB, LF, VT, FF, CR and the space. *)
Definition isWhiteSpace (c : ascii) : bool :=
  let n := nat_of_ascii c in
  ((Nat.leb 9 n && Nat.leb n 13) || Nat.eqb n 32)%bool.

(** The number of bytes of the white-space character a text begins with,
    0 when it begins with none.  Besides the ASCII ones the white-space
    characters are U+00A0, U+1680, U+2000 to U+200A, U+2028, U+2029,
    U+202F, U+205F, U+3000 and U+FEFF, of two or three bytes in UTF-8. *)
Definition whiteSpaceLength (s : string) : nat :=
  match s with
  | EmptyString => 0
  | String c0 s0 =>
      if isWhiteSpace c0 then 1
      else
        match s0 with
        | EmptyString => 0
        | String c1 s1 =>
            let n0 := N_of_ascii c0 in
            let n1 := N_of_ascii c1 in
            if ((n0 =? 0xC2) && (n1 =? 0xA0))%N%bool then 2
            else
              match s1 with
              | EmptyString => 0
              | String c2 _ =>
                  let n2 := N_of_ascii c2 in
                  if (((n0 =? 0xE1) && (n1 =? 0x9A) && (n2 =? 0x80))
                      || ((n0 =? 0xE2) && (n1 =? 0x80) &&
                          (((0x80 <=? n2) && (n2 <=? 0x8A)) || (n2 =? 0xA8) || (n2 =? 0xA9)
                           || (n2 =? 0xAF)))
                      || ((n0 =? 0xE2) && (n1 =? 0x81) && (n2 =? 0x9F))
                      || ((n0 =? 0xE3) && (n1 =? 0x80) && (n2 =? 0x80))
                      || ((n0 =? 0xEF) && (n1 =? 0xBB) && (n2 =? 0xBF)))%N%bool
                  then 3 else 0
              end
        end
  end.

(** [s.trimStart()], with [fuel] bounding the number of characters
    dropped. *)
Fixpoint trimStartFrom (fuel : nat) (s : string) : string :=
  match fuel with
  | O => s
  | S fuel' =>
      match whiteSpaceLength s with
      | O => s
      | n => trimStartFrom fuel' (Js.drop n s)
      end
  end.

Definition trimStart (s : string) : string := trimStartFrom (String.length s) s.

(** [s.trimEnd()]: the text is cut where what is left is white space
    only. *)
Fixpoint trimEnd (s : string) : string :=
  match s with
  | EmptyString => EmptyString
  | String c s' =>
      if String.eqb (trimStart s) "" then EmptyString else String c (trimEnd s')
  end.

Definition trim (s : string) : string := trimEnd (trimStart s).

(** [StringToBigInt]: white space is trimmed; the empty string is [0n]; a
    decimal numeral may carry a sign; a numeral with the prefix [0x], [0o]
    or [0b] may not. *)
Definition StringToBigInt (s : string) : option Z :=
  match trim s with
  | EmptyString => Some 0
  | String "0" (String x digits) as t =>
      if (Ascii.eqb x "x" || Ascii.eqb x "X")%bool then parse_digits 16 digits
      else if (Ascii.eqb x "o" || Ascii.eqb x "O")%bool then parse_digits 8 digits
      else if (Ascii.eqb x "b" || Ascii.eqb x "B")%bool then parse_digits 2 digits
      else parse_digits 10 t
  | String "+" digits => parse_digits 10 digits
  | String "-" digits => option_map Z.opp (parse_digits 10 digits)
  | t => parse_digits 10 t
  end.

(** [BigInt(s)] on a string: the value of the numeral, or a
    [SyntaxError]. *)
Definition BigInt (s : string) : result Z := of_option SyntaxError (StringToBigInt s).

(** Hex digits of a non-negative integer, most significant first, with
    [fuel] bounding the number of digits. *)
Fixpoint hex_digits (fuel : nat) (z : Z) (acc : string) : string :=
  match fuel with
  | O => acc
  | S fuel' =>
      let acc' := String (hexchar (Z.to_N (z mod 16))) acc in
      if (z <? 16)%Z then acc' else hex_digits fuel' (z / 16) acc'
  end.

(** [z.toString(16)] of a BigInt: the hex digits, after a minus sign for a
    negative integer. *)
Definition toString16 (z : Z) : string :=
  if (z <? 0)%Z then String "-" (hex_digits (S (Z.to_nat (Z.log2 (- z)))) (- z) "")
  else hex_digits (S (Z.to_nat (Z.log2 z))) z "".

(* ================================================================== *)
(** * [lib/types]: records *)

Record StealthKeys : Type := {
  spendingPrivateKey : string;
  spendingPublicKey : string;
  viewingPrivateKey : string;
  viewingPublicKey : string
}.

(** The object returned by [parseStealthMetaAddress]. *)
Record MetaAddressKeys : Type := {
  meta_spendingPublicKey : string;
  meta_viewingPublicKey : string
}.

Record StealthAddressInfo : Type := {
  stealthAddress : string;
  ephemeralPublicKey : string;
  viewTag : string
}.

Record AnnouncementData : Type := {
  ann_schemeId : Z;
  ann_stealthAddress : string;
  ann_caller : string;
  ann_ephemeralPubKey : string;
  ann_metadata : string;
  ann_blockNumber : Z;
  ann_transactionHash : string
}.

Record OwnedStealthAddress : Type := {
  owned_address : string;
  owned_privateKey : string;
  owned_balance : Z;
  owned_announcement : AnnouncementData
}.

(* ================================================================== *)
(** * [lib/crypto]: meta-address codec and announcement metadata *)

Definition CURVE_ORDER : Z :=
  0xfffffffffffffffffffffffffffffffebaaedce6af48a03bbfd25e8cd0364141.

Definition createStealthMetaAddress (keys : StealthKeys) : string :=
  let spending := Js.drop 2 (spendingPublicKey keys) in
  let viewing := Js.drop 2 (viewingPublicKey keys) in
  "0x" ++ spending ++ viewing.

Definition parseStealthMetaAddress (metaAddress : string) : result MetaAddressKeys :=
  let cleaned := Js.drop 2 metaAddress in
  if (String.length cleaned =? 66)%nat then
    Ok {| meta_spendingPublicKey := "0x" ++ cleaned;
          meta_viewingPublicKey := "0x" ++ cleaned |}
  else if negb (String.length cleaned =? 132)%nat then
    Err InvalidMetaAddressLength
  else
    Ok {| meta_spendingPublicKey := "0x" ++ Js.slice 0 66 cleaned;
          meta_viewingPublicKey := "0x" ++ Js.drop 66 cleaned |}.

(** [extraData] is optional; an absent or empty string is falsy. *)
Definition createAnnouncementMetadata (viewTag : string) (extraData : option string) : string :=
  let viewTagByte := Js.slice 2 4 viewTag in
  let extra :=
    match extraData with
    | Some e => if String.eqb e "" then "" else Js.drop 2 e
    | None => ""
    end in
  "0x" ++ viewTagByte ++ extra.

Definition extractViewTag (metadata : string) : string :=
  "0x" ++ Js.slice 2 4 metadata.

(* ================================================================== *)
(** * The curve, hash and address primitives *)

(** What the code uses of [@noble/secp256k1] ([ProjectivePoint]) and of
    [viem/utils] ([keccak256], [publicKeyToAddress]). *)
Class Secp256k1 : Type := {
  point : Type;
  ZERO : point;
  BASE : point;
  point_add : point -> point -> point;
  (** [p.toRawBytes(isCompressed)]; [None] when it throws, which it does
      on the point at infinity *)
  toRawBytes : bool -> point -> option bytes;
  (** [ProjectivePoint.fromHex(bytes)]; [None] when it throws *)
  fromHex : bytes -> option point;
  (** Keccak-256 of a byte array, 32 bytes *)
  keccak_256 : bytes -> bytes;
  (** viem [publicKeyToAddress] on an uncompressed public key in hex *)
  address_of_publicKey : string -> string
}.

Section Noble.
Context {L : Secp256k1}.

(** [p.multiply(k)]: [k] times [p], by the double-and-add of [Pos.iter_op]. *)
Definition multiply (p : point) (k : Z) : point :=
  match k with
  | Zpos n => Pos.iter_op point_add n p
  | _ => ZERO
  end.

(** noble [utils.isValidPrivateKey] on a byte array: 32 bytes whose value
    lies strictly between 0 and the curve order. *)
Definition isValidPrivateKey (k : bytes) : bool :=
  ((List.length k =? 32)%nat && (0 <? b2n k)%Z && (b2n k <? CURVE_ORDER)%Z)%bool.

(** noble [toPriv]: the scalar of a private key, or an exception. *)
Definition toPriv (k : bytes) : result Z :=
  if isValidPrivateKey k then Ok (b2n k) else Err InvalidPrivateKey.

(** [getPublicKey(privKey, isCompressed)]:
    [Point.fromPrivateKey(privKey).toRawBytes(isCompressed)]. *)
Definition getPublicKey (privKey : bytes) (isCompressed : bool) : M bytes :=
  call OpGetPublicKey
    (rbind (toPriv privKey) (fun k =>
     of_option PointAtInfinity (toRawBytes isCompressed (multiply BASE k)))).

(** [getSharedSecret(privA, pubB)]:
    [Point.fromHex(pubB).mul(toPriv(privA)).toRawBytes(true)]. *)
Definition getSharedSecret (privA pubB : bytes) : M bytes :=
  call OpGetSharedSecret
    (rbind (of_option InvalidPoint (fromHex pubB)) (fun p =>
     rbind (toPriv privA) (fun k =>
     of_option PointAtInfinity (toRawBytes true (multiply p k))))).

(** viem [keccak256] of a byte array, as a hex string. *)
Definition keccak256 (value : bytes) : M string :=
  call OpKeccak256 (Ok (bytesToHex (keccak_256 value))).

(** [ProjectivePoint.fromHex(hex)] on a string without prefix. *)
Definition ProjectivePoint_fromHex (hex : string) : M point :=
  call OpFromHex (rbind (h2b hex) (fun b => of_option InvalidPoint (fromHex b))).

(** [ProjectivePoint.fromPrivateKey(k)] *)
Definition ProjectivePoint_fromPrivateKey (k : bytes) : M point :=
  call OpFromPrivateKey (rbind (toPriv k) (fun n => Ok (multiply BASE n))).

(** [p.add(q)] *)
Definition ProjectivePoint_add (p q : point) : M point :=
  call OpPointAdd (Ok (point_add p q)).

(** viem [publicKeyToAddress] *)
Definition publicKeyToAddress (publicKey : string) : M string :=
  call OpPublicKeyToAddress (Ok (address_of_publicKey publicKey)).

(* ================================================================== *)
(** * [lib/crypto]: the stealth-address engine *)

Local Open Scope m_scope.

(** [randomPrivateKey] is the value [utils.randomPrivateKey()] yields when
    no ephemeral key is passed. *)
Definition generateStealthAddress (recipientMetaAddress : string)
    (ephemeralPrivateKey : option bytes) (randomPrivateKey : bytes) : M StealthAddressInfo :=
  parsed <- lift (parseStealthMetaAddress recipientMetaAddress) ;;
  let ephPrivKey :=
    match ephemeralPrivateKey with Some k => k | None => randomPrivateKey end in
  ephPubKey <- getPublicKey ephPrivKey true ;;
  viewingBytes <- lift (hexToBytes (meta_viewingPublicKey parsed)) ;;
  sharedSecret <- getSharedSecret ephPrivKey viewingBytes ;;
  hashedSecret <- keccak256 sharedSecret ;;
  let viewTag := "0x" ++ Js.slice 2 4 hashedSecret in
  spendingPoint <- ProjectivePoint_fromHex (Js.drop 2 (meta_spendingPublicKey parsed)) ;;
  hashedBytes <- lift (hexToBytes hashedSecret) ;;
  hashedSecretPoint <- ProjectivePoint_fromPrivateKey hashedBytes ;;
  stealthPoint <- ProjectivePoint_add spendingPoint hashedSecretPoint ;;
  stealthPublicKey <- lift (of_option PointAtInfinity (toRawBytes false stealthPoint)) ;;
  stealthAddress <- publicKeyToAddress (bytesToHex stealthPublicKey) ;;
  ret {| stealthAddress := stealthAddress;
         ephemeralPublicKey := bytesToHex ephPubKey;
         viewTag := viewTag |}.

Definition checkStealthAddress (ephemeralPublicKey spendingPublicKey viewingPrivateKey
    announcedAddress announcedViewTag : string) : M bool :=
  viewingBytes <- lift (hexToBytes viewingPrivateKey) ;;
  ephemeralBytes <- lift (hexToBytes ephemeralPublicKey) ;;
  sharedSecret <- getSharedSecret viewingBytes ephemeralBytes ;;
  hashedSecret <- keccak256 sharedSecret ;;
  let computedViewTag := "0x" ++ Js.slice 2 4 hashedSecret in
  if negb (String.eqb (Js.toLowerCase computedViewTag) (Js.toLowerCase announcedViewTag))
  then ret false
  else
    spendingPoint <- ProjectivePoint_fromHex (Js.drop 2 spendingPublicKey) ;;
    hashedBytes <- lift (hexToBytes hashedSecret) ;;
    hashedSecretPoint <- ProjectivePoint_fromPrivateKey hashedBytes ;;
    stealthPoint <- ProjectivePoint_add spendingPoint hashedSecretPoint ;;
    stealthPublicKey <- lift (of_option PointAtInfinity (toRawBytes false stealthPoint)) ;;
    computedAddress <- publicKeyToAddress (bytesToHex stealthPublicKey) ;;
    ret (String.eqb (Js.toLowerCase computedAddress) (Js.toLowerCase announcedAddress)).

(** The BigInt remainder [%] truncates towards zero. *)
Definition computeStealthPrivateKey (ephemeralPublicKey spendingPrivateKey
    viewingPrivateKey : string) : M string :=
  viewingBytes <- lift (hexToBytes viewingPrivateKey) ;;
  ephemeralBytes <- lift (hexToBytes ephemeralPublicKey) ;;
  sharedSecret <- getSharedSecret viewingBytes ephemeralBytes ;;
  hashedSecret <- keccak256 sharedSecret ;;
  spendingBigInt <- lift (BigInt spendingPrivateKey) ;;
  hashedBigInt <- lift (BigInt hashedSecret) ;;
  let stealthPrivateKeyBigInt := Z.rem (spendingBigInt + hashedBigInt) CURVE_ORDER in
  ret ("0x" ++ Js.padStart 64 "0" (toString16 stealthPrivateKeyBigInt)).

(** What the tests and [privateKeyToAccount] do with a recovered key: derive
    the uncompressed public key and convert it to an address. *)
Definition privateKeyToAddress (privateKey : string) : M string :=
  keyBytes <- lift (hexToBytes privateKey) ;;
  publicKey <- getPublicKey keyBytes false ;;
  publicKeyToAddress (bytesToHex publicKey).

(* ================================================================== *)
(** * [commands/receive]: the scan loop of [receiveCommand] *)

(** One iteration of [for (const announcement of announcements)]; the array
    [ownedAddresses] is threaded through, [push] appends at its end. *)
Definition scanStep (keys : StealthKeys) (ownedAddresses : list OwnedStealthAddress)
    (announcement : AnnouncementData) : M (list OwnedStealthAddress) :=
  let viewTag := extractViewTag (ann_metadata announcement) in
  isOurs <- checkStealthAddress (ann_ephemeralPubKey announcement)
              (spendingPublicKey keys) (viewingPrivateKey keys)
              (ann_stealthAddress announcement) viewTag ;;
  if isOurs then
    privateKey <- computeStealthPrivateKey (ann_ephemeralPubKey announcement)
                    (spendingPrivateKey keys) (viewingPrivateKey keys) ;;
    ret (ownedAddresses ++
         [ {| owned_address := ann_stealthAddress announcement;
              owned_privateKey := privateKey;
              owned_balance := 0;
              owned_announcement := announcement |} ])%list
  else ret ownedAddresses.

Fixpoint scanFrom (keys : StealthKeys) (ownedAddresses : list OwnedStealthAddress)
    (announcements : list AnnouncementData) : M (list OwnedStealthAddress) :=
  match announcements with
  | [] => ret ownedAddresses
  | announcement :: rest =>
      owned <- scanStep keys ownedAddresses announcement ;;
      scanFrom keys owned rest
  end.

(** The loop, started with [ownedAddresses = []]. *)
Definition scanAnnouncements (keys : StealthKeys)
    (announcements : list AnnouncementData) : M (list OwnedStealthAddress) :=
  scanFrom keys [] announcements.

End Noble.

(* ================================================================== *)
(** * [lib/crypto]: encryption of the wallet file *)

(** What the code uses of [@noble/hashes] ([pbkdf2] with SHA-256) and of
    WebCrypto ([crypto.subtle] with AES-GCM; the ciphertext carries the
    authentication tag, and decryption rejects when the tag does not
    verify). *)
Class Cipher : Type := {
  (** [pbkdf2(sha256, password, salt, {c, dkLen})] *)
  pbkdf2_sha256 : bytes -> bytes -> Z -> nat -> bytes;
  (** [crypto.subtle.encrypt({name: 'AES-GCM', iv}, key, data)] *)
  aes_gcm_encrypt : bytes -> bytes -> bytes -> bytes;
  (** [crypto.subtle.decrypt({name: 'AES-GCM', iv}, key, data)]; [None] when
      the promise rejects *)
  aes_gcm_decrypt : bytes -> bytes -> bytes -> option bytes
}.

(** The process-wide random source: an unbounded tape of bytes, consumed
    from the front. *)
Definition entropy : Type := nat -> byte.

(** [randomBytes(n)] *)
Definition randomBytes (n : nat) (e : entropy) : bytes * entropy :=
  (List.map e (List.seq 0 n), fun i => e (n + i)%nat).

(** ** UTF-8 text *)

(** A JavaScript string is held as its UTF-8 text: the bytes
    [new TextEncoder().encode(s)] gives for it.  Every string without a
    lone surrogate has such a text, and [isWellFormed] tells the texts from
    the other byte strings, after the table of well-formed UTF-8 byte
    sequences of the Unicode standard. *)
Definition inRange (lower upper : N) (b : byte) : bool :=
  ((lower <=? Byte.to_N b) && (Byte.to_N b <=? upper))%N%bool.

(** The bounds on the byte that follows the lead byte [b]: [E0] and [F0]
    exclude the overlong forms, [ED] the surrogates, [F4] the code points
    above [10FFFF]. *)
Definition secondLower (b : byte) : N :=
  if Byte.eqb b xe0 then 0xA0%N else if Byte.eqb b xf0 then 0x90%N else 0x80%N.

Definition secondUpper (b : byte) : N :=
  if Byte.eqb b xed then 0x9F%N else if Byte.eqb b xf4 then 0x8F%N else 0xBF%N.

(** The number of bytes of the sequence a lead byte opens; 0 for a byte
    that opens none. *)
Definition sequenceLength (b : byte) : nat :=
  if inRange 0x00 0x7F b then 1
  else if inRange 0xC2 0xDF b then 2
  else if inRange 0xE0 0xEF b then 3
  else if inRange 0xF0 0xF4 b then 4
  else 0.

Fixpoint utf8_valid (bs : bytes) : bool :=
  match bs with
  | [] => true
  | b0 :: r0 =>
      match sequenceLength b0, r0 with
      | 1%nat, _ => utf8_valid r0
      | 2%nat, b1 :: r1 =>
          (inRange (secondLower b0) (secondUpper b0) b1 && utf8_valid r1)%bool
      | 3%nat, b1 :: b2 :: r2 =>
          (inRange (secondLower b0) (secondUpper b0) b1 && inRange 0x80 0xBF b2
           && utf8_valid r2)%bool
      | 4%nat, b1 :: b2 :: b3 :: r3 =>
          (inRange (secondLower b0) (secondUpper b0) b1 && inRange 0x80 0xBF b2
           && inRange 0x80 0xBF b3 && utf8_valid r3)%bool
      | _, _ => false
      end
  end.

(** The text of U+FFFD, the replacement character, and of U+FEFF, the byte
    order mark. *)
Definition REPLACEMENT : bytes := [xef; xbf; xbd].
Definition BOM : bytes := [xef; xbb; xbf].

(** The UTF-8 decoder of the Encoding standard, which [TextDecoder] runs:
    inside a sequence it holds the bytes read so far, the number of bytes
    still needed and the bounds on the next byte. *)
Record utf8_state : Type := {
  utf8_seen : bytes;
  utf8_needed : nat;
  utf8_lower : N;
  utf8_upper : N
}.

(** A byte read outside a sequence: what is emitted, and the sequence it
    opens. *)
Definition utf8_lead (b : byte) : bytes * option utf8_state :=
  match sequenceLength b with
  | 1%nat => ([b], None)
  | O => (REPLACEMENT, None)
  | S (S n) =>
      ([], Some {| utf8_seen := [b]; utf8_needed := S n;
                   utf8_lower := secondLower b; utf8_upper := secondUpper b |})
  end.

(** A byte out of the bounds ends the sequence with a replacement
    character and is read again outside it; so does the end of the input
    inside a sequence. *)
Fixpoint utf8_decode (state : option utf8_state) (bs : bytes) : bytes :=
  match bs with
  | [] => match state with Some _ => REPLACEMENT | None => [] end
  | b :: rest =>
      match state with
      | None => let (out, state') := utf8_lead b in (out ++ utf8_decode state' rest)%list
      | Some s =>
          if inRange (utf8_lower s) (utf8_upper s) b then
            match utf8_needed s with
            | S (S n) =>
                utf8_decode (Some {| utf8_seen := (utf8_seen s ++ [b])%list;
                                     utf8_needed := S n;
                                     utf8_lower := 0x80; utf8_upper := 0xBF |}) rest
            | _ => ((utf8_seen s ++ [b]) ++ utf8_decode None rest)%list
            end
          else
            let (out, state') := utf8_lead b in
            (REPLACEMENT ++ out ++ utf8_decode state' rest)%list
      end
  end.

Definition stripBOM (bs : bytes) : bytes :=
  match bs with
  | b0 :: b1 :: b2 :: rest =>
      if (Byte.eqb b0 xef && Byte.eqb b1 xbb && Byte.eqb b2 xbf)%bool then rest else bs
  | _ => bs
  end.

(** [new TextEncoder().encode(s)]: the text of the string. *)
Definition TextEncoder_encode (s : string) : bytes := list_byte_of_string s.

(** [new TextDecoder().decode(b)]: the decoder is not fatal, so every
    malformed sequence becomes U+FFFD, and it does not ignore the byte
    order mark, so a leading U+FEFF is dropped. *)
Definition TextDecoder_decode (b : bytes) : string :=
  string_of_list_byte (stripBOM (utf8_decode None b)).

(** [s.isWellFormed()]: the string has no lone surrogate, that is, it has
    a UTF-8 text. *)
Definition isWellFormed (s : string) : bool := utf8_valid (list_byte_of_string s).

(** The string begins with U+FEFF. *)
Definition startsWithBOM (s : string) : bool :=
  match list_byte_of_string s with
  | b0 :: b1 :: b2 :: _ => (Byte.eqb b0 xef && Byte.eqb b1 xbb && Byte.eqb b2 xbf)%bool
  | _ => false
  end.

(** The text of U+FEFF as a string. *)
Definition BOM_text : string := string_of_list_byte BOM.

Definition isAscii (c : ascii) : bool := (N_of_ascii c <? 128)%N.

Fixpoint allAscii (s : string) : bool :=
  match s with
  | EmptyString => true
  | String c s' => (isAscii c && allAscii s')%bool
  end.

Record EncryptedData : Type := {
  encrypted : string;
  salt : string;
  iv : string
}.

Definition PBKDF2_ITERATIONS : Z := 100000.
Definition SALT_LENGTH : nat := 32.
Definition IV_LENGTH : nat := 12.

Section WalletCipher.
Context {C : Cipher}.

Definition deriveEncryptionKey (password : string) (salt : bytes) : bytes :=
  pbkdf2_sha256 (TextEncoder_encode password) salt PBKDF2_ITERATIONS 32.

(** The promise of [encryptData] always resolves; the entropy left after
    the two draws is returned with its value. *)
Definition encryptData (data password : string) (e : entropy) : EncryptedData * entropy :=
  let (salt, e1) := randomBytes SALT_LENGTH e in
  let (iv, e2) := randomBytes IV_LENGTH e1 in
  let key := deriveEncryptionKey password salt in
  let encrypted := aes_gcm_encrypt key iv (TextEncoder_encode data) in
  ({| encrypted := bytesToHex encrypted;
      salt := bytesToHex salt;
      iv := bytesToHex iv |}, e2).

(** A rejected promise is an error result.  The three [hexToBytes] calls
    stand before the [try]; whatever [crypto.subtle.decrypt] throws is
    caught and replaced by the one error. *)
Definition decryptData (encryptedHex password saltHex ivHex : string) : result string :=
  rbind (hexToBytes saltHex) (fun salt =>
  rbind (hexToBytes ivHex) (fun iv =>
  rbind (hexToBytes encryptedHex) (fun encrypted =>
  let key := deriveEncryptionKey password salt in
  match aes_gcm_decrypt key iv encrypted with
  | Some decrypted => Ok (TextDecoder_decode decrypted)
  | None => Err DecryptionFailed
  end))).

End WalletCipher.

(* ================================================================== *)
(** * A reference instance of the primitives *)

(** The cyclic group of order [CURVE_ORDER], written as the residues of the
    discrete logarithm: the point [k * G] is the residue [k].  Encodings
    have the lengths and prefixes of the SEC1 encodings, the hash keeps the
    32-byte length.  It serves to run the embedding on concrete inputs. *)
Module Cyclic.

Definition pt : Type := Zmod.Zmod CURVE_ORDER.

Definition sec1 (isCompressed : bool) (p : pt) : bytes :=
  let x := n2b 32 (Zmod.to_Z p) in
  if isCompressed then x02 :: x else (x04 :: x ++ x)%list.

(** The residue 0, the neutral element, has no encoding. *)
Definition encode (isCompressed : bool) (p : pt) : option bytes :=
  if (Zmod.to_Z p =? 0)%Z then None else Some (sec1 isCompressed p).

Definition decode (b : bytes) : option pt :=
  match b with
  | [] => None
  | h :: t =>
      let x := b2n (firstn 32 t) in
      let wellFormed :=
        (((Byte.eqb h x02 || Byte.eqb h x03) && (List.length t =? 32)%nat)
         || (Byte.eqb h x04 && (List.length t =? 64)%nat
             && (b2n (skipn 32 t) =? x)%Z))%bool in
      if (wellFormed && (0 <? x)%Z && (x <? CURVE_ORDER)%Z)%bool
      then Some (Zmod.of_Z CURVE_ORDER x) else None
  end.

(** A 32-byte digest: the last byte of the input, 32 times. *)
Definition digest (b : bytes) : bytes := List.repeat (List.last b x00) 32.

(** An address: the last 20 bytes of the x-coordinate. *)
Definition address (publicKey : string) : string := "0x" ++ Js.slice 28 68 publicKey.

Definition lib : Secp256k1 := {|
  point := pt;
  ZERO := Zmod.zero;
  BASE := Zmod.one;
  point_add := Zmod.add;
  toRawBytes := encode;
  fromHex := decode;
  keccak_256 := digest;
  address_of_publicKey := address
|}.

(** The key pair [generateRandomKeys] builds from two private scalars. *)
Definition keysOf (s v : Z) : StealthKeys :=
  {| spendingPrivateKey := bytesToHex (n2b 32 s);
     spendingPublicKey := bytesToHex (sec1 true (Zmod.of_Z _ s));
     viewingPrivateKey := bytesToHex (n2b 32 v);
     viewingPublicKey := bytesToHex (sec1 true (Zmod.of_Z _ v)) |}.

(** A key derivation that keeps the first [dkLen] bytes of password and
    salt, and an authenticated encryption whose tag is the key and the
    nonce. *)
Definition kdf (password salt : bytes) (c : Z) (dkLen : nat) : bytes :=
  firstn dkLen (password ++ salt ++ List.repeat x00 dkLen)%list.

Definition bytes_eqb (a b : bytes) : bool :=
  if list_eq_dec Byte.byte_eq_dec a b then true else false.

Definition seal (key iv data : bytes) : bytes := (data ++ key ++ iv)%list.

Definition open (key iv data : bytes) : option bytes :=
  let n := (List.length data - (List.length key + List.length iv))%nat in
  if bytes_eqb (skipn n data) (key ++ iv)%list then Some (firstn n data) else None.

Definition cipher : Cipher := {|
  pbkdf2_sha256 := kdf;
  aes_gcm_encrypt := seal;
  aes_gcm_decrypt := open
|}.

End Cyclic.

(* ================================================================== *)
(** * The primitives themselves *)

(** Keccak-256 and the secp256k1 group as the libraries compute them, to
    run the embedding on the inputs the program receives.  The digest of
    the empty input, the multiples of the base point and the address of
    the private key 1 are checked against their published values below;
    no law of [Secp256k1Laws] is proved for this instance. *)
Module Concrete.

(** ** Keccak-f[1600] and Keccak-256 *)

Definition mask64 : Z := 2 ^ 64 - 1.

Definition rotl64 (w : Z) (r : Z) : Z :=
  Z.land (Z.lor (Z.shiftl w r) (Z.shiftr w (64 - r))) mask64.

Definition lane (st : list Z) (x y : nat) : Z := nth (x mod 5 + 5 * (y mod 5)) st 0.

Definition rotation_offsets : list Z :=
  [ 0;  1; 62; 28; 27;
   36; 44;  6; 55; 20;
    3; 10; 43; 25; 39;
   41; 45; 15; 21;  8;
   18;  2; 61; 56; 14].

Definition round_constants : list Z :=
  [0x0000000000000001; 0x0000000000008082; 0x800000000000808A; 0x8000000080008000;
   0x000000000000808B; 0x0000000080000001; 0x8000000080008081; 0x8000000000008009;
   0x000000000000008A; 0x0000000000000088; 0x0000000080008009; 0x000000008000000A;
   0x000000008000808B; 0x800000000000008B; 0x8000000000008089; 0x8000000000008003;
   0x8000000000008002; 0x8000000000000080; 0x000000000000800A; 0x800000008000000A;
   0x8000000080008081; 0x8000000000008080; 0x0000000080000001; 0x8000000080008008].

Definition coords : list (nat * nat) :=
  flat_map (fun y => map (fun x => (x, y)) (seq 0 5)) (seq 0 5).

Definition theta (st : list Z) : list Z :=
  let c := map (fun x => fold_left Z.lxor (map (fun y => lane st x y) (seq 0 5)) 0) (seq 0 5) in
  let d := map (fun x => Z.lxor (nth ((x + 4) mod 5) c 0) (rotl64 (nth ((x + 1) mod 5) c 0) 1))
               (seq 0 5) in
  map (fun '(x, y) => Z.lxor (lane st x y) (nth x d 0)) coords.

(** B[y, 2x+3y] = rot(A[x,y], r[x,y]); read backwards: the lane at (X, Y)
    comes from x = (X + 3 Y) mod 5, y = X. *)
Definition rho_pi (st : list Z) : list Z :=
  map (fun '(X, Y) =>
         let x := ((X + 3 * Y) mod 5)%nat in
         let y := X in
         rotl64 (lane st x y) (nth (x + 5 * y) rotation_offsets 0)) coords.

Definition chi (st : list Z) : list Z :=
  map (fun '(x, y) =>
         Z.lxor (lane st x y)
                (Z.land (Z.lxor (lane st (x + 1) y) mask64) (lane st (x + 2) y))) coords.

Definition iota (rc : Z) (st : list Z) : list Z :=
  match st with
  | [] => []
  | a :: rest => Z.lxor a rc :: rest
  end.

Definition round (st : list Z) (rc : Z) : list Z := iota rc (chi (rho_pi (theta st))).

Definition keccak_f (st : list Z) : list Z := fold_left round round_constants st.

(** Little-endian value of up to 8 bytes. *)
Definition le_lane (bs : list byte) : Z :=
  fold_right (fun b acc => Z.of_N (Byte.to_N b) + 256 * acc) 0 bs.

Fixpoint lanes_of (n : nat) (bs : list byte) : list Z :=
  match n with
  | O => []
  | S n' => le_lane (firstn 8 bs) :: lanes_of n' (skipn 8 bs)
  end.

Definition byte_of_Z (z : Z) : byte := byte_of_N (Z.to_N z).

Definition lane_bytes (w : Z) : list byte :=
  map (fun i => byte_of_Z (Z.land (Z.shiftr w (8 * Z.of_nat i)) 255)) (seq 0 8).

Definition rate : nat := 136.

(** Absorb one block of [rate] bytes. *)
Definition absorb (st : list Z) (block : list byte) : list Z :=
  let ls := lanes_of 17 block in
  keccak_f (map (fun i => Z.lxor (nth i st 0) (nth i ls 0)) (seq 0 25)).

(** The pad10*1 padding of Keccak (domain byte 0x01). *)
Definition pad (msg : list byte) : list byte :=
  let q := (rate - (List.length msg mod rate))%nat in
  if (q =? 1)%nat then (msg ++ [x81])%list
  else (msg ++ [x01] ++ repeat x00 (q - 2) ++ [x80])%list.

Fixpoint absorb_all (fuel : nat) (st : list Z) (bs : list byte) : list Z :=
  match fuel with
  | O => st
  | S fuel' =>
      match bs with
      | [] => st
      | _ => absorb_all fuel' (absorb st (firstn rate bs)) (skipn rate bs)
      end
  end.

Definition keccak (msg : list byte) : list byte :=
  let padded := pad msg in
  let st := absorb_all (S (List.length padded / rate)) (repeat 0 25) padded in
  firstn 32 (flat_map lane_bytes (firstn 4 st)).

(** ** secp256k1 in Jacobian coordinates over the prime field *)

Definition P : bigZ := Eval vm_compute in (2 ^ 256 - 2 ^ 32 - 977)%bigZ.
Definition Gx : bigZ :=
  BigZ.of_Z 0x79BE667EF9DCBBAC55A06295CE870B07029BFCDB2DCE28D959F2815B16F81798.
Definition Gy : bigZ :=
  BigZ.of_Z 0x483ADA7726A3C4655DA4FBFC0E1108A8FD17B448A68554199C47D08FFB10D4B8.

(** A point [(X, Y, Z)] stands for the affine point [(X / Z^2, Y / Z^3)];
    [Z = 0] is the point at infinity. *)
Record pt : Type := Jacobian { pX : bigZ; pY : bigZ; pZ : bigZ }.

Definition fmul (a b : bigZ) : bigZ := ((a * b) mod P)%bigZ.
Definition fadd (a b : bigZ) : bigZ := ((a + b) mod P)%bigZ.
Definition fsub (a b : bigZ) : bigZ := ((a - b) mod P)%bigZ.
Definition fzero (a : bigZ) : bool := (a mod P =? 0)%bigZ.

Fixpoint fpow_pos (b : bigZ) (e : positive) : bigZ :=
  match e with
  | xH => (b mod P)%bigZ
  | xO e' => let t := fpow_pos b e' in fmul t t
  | xI e' => let t := fpow_pos b e' in fmul (fmul t t) b
  end.

Definition fpow (b : bigZ) (e : Z) : bigZ :=
  match e with Zpos p => fpow_pos b p | _ => 1%bigZ end.

Definition finv (a : bigZ) : bigZ := fpow a (BigZ.to_Z P - 2).

Definition infinity : pt := Jacobian 1 1 0.

Definition double (p : pt) : pt :=
  let '(Jacobian x y z) := p in
  if (fzero z || fzero y)%bool then infinity
  else
    let a := fmul x x in
    let b := fmul y y in
    let c := fmul b b in
    let xb := fadd x b in
    let d := fmul 2 (fsub (fsub (fmul xb xb) a) c) in
    let e := fmul 3 a in
    let f := fmul e e in
    let x3 := fsub f (fmul 2 d) in
    Jacobian x3 (fsub (fmul e (fsub d x3)) (fmul 8 c)) (fmul 2 (fmul y z)).

Definition padd (p q : pt) : pt :=
  let '(Jacobian x1 y1 z1) := p in
  let '(Jacobian x2 y2 z2) := q in
  if fzero z1 then q
  else if fzero z2 then p
  else
    let z1z1 := fmul z1 z1 in
    let z2z2 := fmul z2 z2 in
    let u1 := fmul x1 z2z2 in
    let u2 := fmul x2 z1z1 in
    let s1 := fmul y1 (fmul z2 z2z2) in
    let s2 := fmul y2 (fmul z1 z1z1) in
    if fzero (fsub u1 u2) then
      if fzero (fsub s1 s2) then double p else infinity
    else
      let h := fsub u2 u1 in
      let r := fsub s2 s1 in
      let h2 := fmul h h in
      let h3 := fmul h h2 in
      let v := fmul u1 h2 in
      let x3 := fsub (fsub (fmul r r) h3) (fmul 2 v) in
      Jacobian x3 (fsub (fmul r (fsub v x3)) (fmul s1 h3)) (fmul (fmul z1 z2) h).

(** [toAffine]: the point at infinity is [(0, 0)], as in the library. *)
Definition affine (p : pt) : Z * Z :=
  let '(Jacobian x y z) := p in
  if fzero z then (0, 0)
  else
    let zi := finv z in
    let zi2 := fmul zi zi in
    (BigZ.to_Z (fmul x zi2), BigZ.to_Z (fmul y (fmul zi zi2))).

Definition onCurve (x y : Z) : bool :=
  ((0 <? x)%Z && (x <? BigZ.to_Z P)%Z && (0 <? y)%Z && (y <? BigZ.to_Z P)%Z
   && fzero (fsub (fmul (BigZ.of_Z y) (BigZ.of_Z y))
                  (fadd (fmul (BigZ.of_Z x) (fmul (BigZ.of_Z x) (BigZ.of_Z x))) 7)))%bool.

Definition isInfinity (p : pt) : bool :=
  let '(Jacobian _ _ z) := p in fzero z.

(** [toRawBytes]: the library refuses to encode the point at infinity. *)
Definition encode (isCompressed : bool) (p : pt) : option bytes :=
  if isInfinity p then None
  else
    let '(x, y) := affine p in
    Some (if isCompressed then (if Z.even y then x02 else x03) :: n2b 32 x
          else (x04 :: n2b 32 x ++ n2b 32 y)%list).

Definition decode (b : bytes) : option pt :=
  match b with
  | [] => None
  | h :: t =>
      let x := b2n (firstn 32 t) in
      if ((List.length t =? 32)%nat && (Byte.eqb h x02 || Byte.eqb h x03))%bool then
        let bx := BigZ.of_Z x in
        let r := BigZ.to_Z (fpow (fadd (fmul bx (fmul bx bx)) 7) ((BigZ.to_Z P + 1) / 4)) in
        let y := if Bool.eqb (Z.odd r) (Byte.eqb h x03) then r else ((BigZ.to_Z P - r) mod BigZ.to_Z P)%Z in
        if onCurve x y then Some (Jacobian bx (BigZ.of_Z y) 1) else None
      else if ((List.length t =? 64)%nat && Byte.eqb h x04)%bool then
        let y := b2n (skipn 32 t) in
        if onCurve x y then Some (Jacobian (BigZ.of_Z x) (BigZ.of_Z y) 1) else None
      else None
  end.

Definition upper_ascii (c : ascii) : ascii :=
  let n := nat_of_ascii c in
  if (Nat.leb 97 n && Nat.leb n 122)%bool then ascii_of_nat (n - 32) else c.

Fixpoint checksum (digits : string) (nibbles : list Z) : string :=
  match digits, nibbles with
  | String c s, n :: ns => String (if (8 <=? n)%Z then upper_ascii c else c) (checksum s ns)
  | _, _ => digits
  end.

Definition nibbles (b : bytes) : list Z :=
  flat_map (fun x => let v := Z.of_N (Byte.to_N x) in [v / 16; v mod 16]) b.

(** viem [publicKeyToAddress] with [checksumAddress]. *)
Definition address (publicKey : string) : string :=
  match bytes_of_hex (Js.drop 4 publicKey) with
  | Some key =>
      let hexAddress := Js.drop 24 (hex_of_bytes (keccak key)) in
      "0x" ++ checksum hexAddress (nibbles (keccak (list_byte_of_string hexAddress)))
  | None => ""
  end.

Definition lib : Secp256k1 := {|
  point := pt;
  ZERO := infinity;
  BASE := Jacobian Gx Gy 1;
  point_add := padd;
  toRawBytes := encode;
  fromHex := decode;
  keccak_256 := keccak;
  address_of_publicKey := address
|}.

End Concrete.

(** The body of [generateRandomKeys], from the two private keys that
    [utils.randomPrivateKey()] returned. *)
Definition generateRandomKeys {L : Secp256k1} (spendingPrivateKey viewingPrivateKey : bytes)
    : M StealthKeys :=
  (spendingPublicKey <- getPublicKey spendingPrivateKey true ;;
   viewingPublicKey <- getPublicKey viewingPrivateKey true ;;
   ret {| spendingPrivateKey := bytesToHex spendingPrivateKey;
          spendingPublicKey := bytesToHex spendingPublicKey;
          viewingPrivateKey := bytesToHex viewingPrivateKey;
          viewingPublicKey := bytesToHex viewingPublicKey |})%m.

(* ================================================================== *)
(** * Vocabulary of the statements *)

(** The facts about the primitives that the proofs use: the points form a
    monoid under addition in which the base point has order [CURVE_ORDER],
    every point but the point at infinity has an encoding, compressed
    encodings are 33 bytes long and decode to the point they encode,
    decodable inputs have one of the two SEC1 lengths, and the digest is 32
    bytes long. *)
Class Secp256k1Laws (L : Secp256k1) : Prop := {
  point_add_assoc : forall p q r : point,
    point_add p (point_add q r) = point_add (point_add p q) r;
  point_add_ZERO_r : forall p : point, point_add p ZERO = p;
  BASE_order : multiply BASE CURVE_ORDER = ZERO;
  BASE_multiple_nonzero : forall k, 0 < k < CURVE_ORDER -> multiply BASE k <> ZERO;
  toRawBytes_ZERO : forall isCompressed, toRawBytes isCompressed ZERO = None;
  toRawBytes_nonzero : forall isCompressed (p : point),
    p <> ZERO -> toRawBytes isCompressed p <> None;
  fromHex_toRawBytes : forall (p : point) b, toRawBytes true p = Some b -> fromHex b = Some p;
  length_toRawBytes : forall (p : point) b,
    toRawBytes true p = Some b -> List.length b = 33%nat;
  length_fromHex : forall b p, fromHex b = Some p ->
    List.length b = 33%nat \/ List.length b = 65%nat;
  length_keccak_256 : forall b, List.length (keccak_256 b) = 32%nat
}.

(** The facts about the primitives that the proofs use: decrypting a
    ciphertext with the key and nonce it was made with returns the
    plaintext, and the derived key has the requested length. *)
Class CipherLaws (C : Cipher) : Prop := {
  decrypt_encrypt : forall key iv data,
    aes_gcm_decrypt key iv (aes_gcm_encrypt key iv data) = Some data;
  length_pbkdf2 : forall password salt c dkLen,
    List.length (pbkdf2_sha256 password salt c dkLen) = dkLen
}.

(** AES-GCM encryption is a function of key, nonce and plaintext, and
    decryption recomputes it: a ciphertext that decryption accepts is the
    encryption, under that key and nonce, of the plaintext it returns. *)
Class CipherAuthenticity (C : Cipher) : Prop := {
  encrypt_decrypt : forall key iv data plaintext,
    aes_gcm_decrypt key iv data = Some plaintext ->
    aes_gcm_encrypt key iv plaintext = data
}.

(** The encoding of a point other than the point at infinity. *)
Definition encoding {L : Secp256k1} (isCompressed : bool) (p : point) : bytes :=
  match toRawBytes isCompressed p with Some b => b | None => [] end.

(** [b2n] continued from an accumulated value. *)
Definition b2n_from (acc : Z) (bs : bytes) : Z :=
  fold_left (fun acc b => acc * 256 + Z.of_N (Byte.to_N b)) bs acc.

(** The last [n] hex digits of [z], zero-padded. *)
Fixpoint hexn (n : nat) (z : Z) : string :=
  match n with
  | O => ""
  | S n' => hexn n' (z / 16) ++ String (hexchar (Z.to_N (z mod 16))) ""
  end.

(** A public key as the wallet holds it: [0x] and the 66 hex digits of a
    33-byte compressed key. *)
Definition isPublicKeyHex (k : string) : Prop :=
  Js.take 2 k = "0x" /\ String.length k = 68%nat.

(** A string of ASCII characters other than white space, which [BigInt]
    reads as it stands. *)
Fixpoint noWhiteSpace (s : string) : bool :=
  match s with
  | EmptyString => true
  | String c s' => (isAscii c && negb (isWhiteSpace c) && noWhiteSpace s')%bool
  end.

(** [checkStealthAddress] as the loop calls it on an announcement. *)
Definition recognized {L : Secp256k1} (keys : StealthKeys) (a : AnnouncementData) : result bool :=
  outcome (checkStealthAddress (ann_ephemeralPubKey a) (spendingPublicKey keys)
             (viewingPrivateKey keys) (ann_stealthAddress a)
             (extractViewTag (ann_metadata a))).

(** [computeStealthPrivateKey] as the loop calls it on an announcement. *)
Definition recovered {L : Secp256k1} (keys : StealthKeys) (a : AnnouncementData) : result string :=
  outcome (computeStealthPrivateKey (ann_ephemeralPubKey a) (spendingPrivateKey keys)
             (viewingPrivateKey keys)).

Definition isOurs {L : Secp256k1} (keys : StealthKeys) (a : AnnouncementData) : bool :=
  match recognized keys a with Ok true => true | _ => false end.

(** The entry the loop pushes for a recognised announcement. *)
Definition ownedOf {L : Secp256k1} (keys : StealthKeys) (a : AnnouncementData) : OwnedStealthAddress :=
  {| owned_address := ann_stealthAddress a;
     owned_privateKey := match recovered keys a with Ok k => k | Err _ => "" end;
     owned_balance := 0;
     owned_announcement := a |}.

(** An announcement the loop gets through: the check returns, and when
    it returns [true] the key recovery returns too. *)
Definition scannable {L : Secp256k1} (keys : StealthKeys) (a : AnnouncementData) : Prop :=
  recognized keys a = Ok false \/
  (recognized keys a = Ok true /\ exists k, recovered keys a = Ok k).

(** ** Concrete inputs *)

(** The shared secret of the viewing scalar 5 and the ephemeral scalar 51
    in the reference instance: the point 255, whose digest is [0xff..ff]. *)
Definition secret255 : bytes := Cyclic.sec1 true (Zmod.of_Z _ 255).

(** Two announcements for the scan of the key pair [Cyclic.keysOf 3 5] in
    the reference instance: a payment to it made with the ephemeral scalar
    7, and a payment to someone else. *)
Definition cyclicOurs : AnnouncementData :=
  {| ann_schemeId := 1;
     ann_stealthAddress := "0x2323232323232323232323232323232323232326";
     ann_caller := "0x00000000000000000000000000000000000000aa";
     ann_ephemeralPubKey :=
       "0x020000000000000000000000000000000000000000000000000000000000000007";
     ann_metadata := "0x23";
     ann_blockNumber := 100;
     ann_transactionHash := "0x01" |}.

Definition cyclicOther : AnnouncementData :=
  {| ann_schemeId := 1;
     ann_stealthAddress := "0x1111111111111111111111111111111111111111";
     ann_caller := "0x00000000000000000000000000000000000000bb";
     ann_ephemeralPubKey :=
       "0x020000000000000000000000000000000000000000000000000000000000000009";
     ann_metadata := "0x11";
     ann_blockNumber := 99;
     ann_transactionHash := "0x02" |}.

(** On secp256k1: the wallet of the private scalars 11 (spending) and 13
    (viewing), the announcement of a payment to it made with the ephemeral
    scalar 17, and an announcement whose ephemeral public key is empty. *)
Definition walletKeys : StealthKeys :=
  {| spendingPrivateKey :=
       "0x000000000000000000000000000000000000000000000000000000000000000b";
     spendingPublicKey :=
       "0x03774ae7f858a9411e5ef4246b70c65aac5649980be5c17891bbec17895da008cb";
     viewingPrivateKey :=
       "0x000000000000000000000000000000000000000000000000000000000000000d";
     viewingPublicKey :=
       "0x03f28773c2d975288bc7d1d205c3748651b075fbc6610e58cddeeddf8f19405aa8" |}.

Definition announcedPayment : AnnouncementData :=
  {| ann_schemeId := 1;
     ann_stealthAddress := "0xA8b84265e0CB71789E4b57b826423e30D987d350";
     ann_caller := "0x00000000000000000000000000000000000000aa";
     ann_ephemeralPubKey :=
       "0x03defdea4cdb677750a420fee807eacf21eb9898ae79b9768766e4faa04a2d4a34";
     ann_metadata := "0x31";
     ann_blockNumber := 100;
     ann_transactionHash := "0x01" |}.

Definition announcedMalformed : AnnouncementData :=
  {| ann_schemeId := 1;
     ann_stealthAddress := "0x2222222222222222222222222222222222222222";
     ann_caller := "0x00000000000000000000000000000000000000cc";
     ann_ephemeralPubKey := "0x";
     ann_metadata := "0x22";
     ann_blockNumber := 101;
     ann_transactionHash := "0x03" |}.

(** On secp256k1: a wallet whose spending scalar is the curve order minus
    the Keccak digest of the shared secret of the viewing scalar 2 and the
    ephemeral scalar 3, so that spending scalar and digest add up to the
    curve order. *)
Definition cancellingSpendingKey : Z :=
  0x32c94aa2d9e6903f469ced4fe22687025c76d05bb09d5690dd4e6dc265b4f14d.

Definition cancellingKeys : StealthKeys :=
  {| spendingPrivateKey :=
       "0x32c94aa2d9e6903f469ced4fe22687025c76d05bb09d5690dd4e6dc265b4f14d";
     spendingPublicKey :=
       "0x0312263705a54e50266743e6d8a67f679aedc56e3545d474f7ef55bc250c7e44bc";
     viewingPrivateKey :=
       "0x0000000000000000000000000000000000000000000000000000000000000002";
     viewingPublicKey :=
       "0x02c6047f9441ed7d6d3045406e95c07cd85c778e4b8cef3ca7abac09b95c709ee5" |}.

(** The compressed public key of the ephemeral scalar 3. *)
Definition ephemeral3 : string :=
  "0x02f9308a019258c31049344f85f89d5229b531c845836f99b08601f113bce036f9".

(** Evaluation of the monad operations, leaving the primitives folded. *)
Ltac run := cbn [bind call lift ret throw rbind of_option].

(* ================================================================== *)
(** * [lib/crypto]: key validation, main address and keys from a signature *)

(** The exceptions of the functions below, of [lib/storage] and of
    [lib/network].  [Thrown e] is an exception of the functions embedded
    above and of their libraries; the next three are the errors of
    [deriveKeysFromSignature]. *)
Inductive exn : Type :=
| Thrown (e : error)
| InvalidSignatureLength       (* 'Invalid signature length. Expected 65 bytes.' *)
| DerivedSpendingKeyInvalid    (* 'Derived spending key is invalid' *)
| DerivedViewingKeyInvalid     (* 'Derived viewing key is invalid' *)
| NoWalletFound                (* 'No wallet found. Run `init` first.' *)
| UnsupportedWalletVersion     (* 'Unsupported wallet version: ...' *)
| WalletIntegrityCheckFailed   (* 'Wallet integrity check failed' *)
| NoWalletToDelete             (* 'No wallet to delete' *)
| NoWalletToExport             (* 'No wallet to export' *)
| InvalidWalletBackupFormat    (* 'Invalid wallet backup format' *)
| UnknownNetwork               (* 'Unknown network: ...' *)
| TypeError                    (* property access on null, call of a non-function *)
| JSONSyntaxError              (* JSON.parse *)
| BigIntSyntaxError            (* BigInt(value) *)
| ENOENT                       (* a file or directory that does not exist *)
| UrlRequired                  (* viem: a transport without a URL *)
| IntegerOutOfRange            (* viem: a negative number as a quantity *)
| RpcError.                    (* a rejected request to the node *)

Inductive completion (A : Type) : Type :=
| Returns (a : A)
| Throws (e : exn).
Arguments Returns {A} a.
Arguments Throws {A} e.

Definition of_result {A} (r : result A) : completion A :=
  match r with Ok a => Returns a | Err e => Throws (Thrown e) end.

(** Computations that record the library calls, with the larger set of
    exceptions. *)
Definition T (A : Type) : Type := (list op * completion A)%type.

Definition tret {A} (a : A) : T A := ([], Returns a).
Definition tthrow {A} (e : exn) : T A := ([], Throws e).
Definition tcall {A} (m : M A) : T A := (trace m, of_result (outcome m)).
Definition tbind {A B} (m : T A) (f : A -> T B) : T B :=
  match m with
  | (t, Returns a) => let (t', r) := f a in ((t ++ t')%list, r)
  | (t, Throws e) => (t, Throws e)
  end.

Declare Scope t_scope.
Delimit Scope t_scope with t.
Notation "x <~ m ;; k" := (tbind m (fun x => k))
  (at level 61, m at next level, right associativity) : t_scope.

(** viem [isHex(value)] in its strict form: the pattern
    [/^0x[0-9a-fA-F]*$/]. *)
Fixpoint allHexDigits (s : string) : bool :=
  match s with
  | EmptyString => true
  | String c s' =>
      match hexval c with Some _ => allHexDigits s' | None => false end
  end.

Definition isHex (value : string) : bool :=
  (Js.startsWith "0x" value && allHexDigits (Js.drop 2 value))%bool.

Section CryptoKeys.
Context {L : Secp256k1}.
Local Open Scope m_scope.

(** viem [keccak256(value)] of a string: [toBytes] decodes a string that
    [isHex] accepts as hex and encodes any other string as UTF-8 text. *)
Definition keccak256_of_string (value : string) : M string :=
  call OpKeccak256
    (rbind (if isHex value then hexToBytes value else Ok (TextEncoder_encode value))
       (fun b => Ok (bytesToHex (keccak_256 b)))).

(** The [try] around [ProjectivePoint.fromHex] turns its exception into
    [false]. *)
Definition isValidPublicKey (pubKey : string) : M bool :=
  let cleaned := Js.drop 2 pubKey in
  if negb (String.length cleaned =? 66)%nat then ret false
  else if (negb (Js.startsWith "02" cleaned) && negb (Js.startsWith "03" cleaned))%bool
  then ret false
  else
    match ProjectivePoint_fromHex cleaned with
    | (t, Ok _) => (t, Ok true)
    | (t, Err _) => (t, Ok false)
    end.

Definition deriveMainAddress (spendingPublicKey : string) : M string :=
  point <- ProjectivePoint_fromHex (Js.drop 2 spendingPublicKey) ;;
  uncompressed <- lift (of_option PointAtInfinity (toRawBytes false point)) ;;
  publicKeyToAddress (bytesToHex uncompressed).

Local Open Scope t_scope.

Definition deriveKeysFromSignature (signature : string) : T StealthKeys :=
  if negb (String.length signature =? 132)%nat then tthrow InvalidSignatureLength
  else
    let sigBytes := Js.drop 2 signature in
    let portion1 := Js.slice 0 64 sigBytes in
    let portion2 := Js.slice 64 128 sigBytes in
    hash1 <~ tcall (keccak256_of_string ("0x" ++ portion1)) ;;
    spendingPrivateKey <~ tcall (lift (hexToBytes hash1)) ;;
    hash2 <~ tcall (keccak256_of_string ("0x" ++ portion2)) ;;
    viewingPrivateKey <~ tcall (lift (hexToBytes hash2)) ;;
    if negb (isValidPrivateKey spendingPrivateKey) then tthrow DerivedSpendingKeyInvalid
    else if negb (isValidPrivateKey viewingPrivateKey) then tthrow DerivedViewingKeyInvalid
    else
      spendingPublicKey <~ tcall (getPublicKey spendingPrivateKey true) ;;
      viewingPublicKey <~ tcall (getPublicKey viewingPrivateKey true) ;;
      tret {| spendingPrivateKey := bytesToHex spendingPrivateKey;
              spendingPublicKey := bytesToHex spendingPublicKey;
              viewingPrivateKey := bytesToHex viewingPrivateKey;
              viewingPublicKey := bytesToHex viewingPublicKey |}.

(** The validation of the recipient in [sendCommand]: the meta-address is
    parsed and both keys are checked; any exception is caught and reported
    like a failed check. *)
Definition sendCommand_validate (recipientMetaAddress : string) : bool :=
  match parseStealthMetaAddress recipientMetaAddress with
  | Err _ => false
  | Ok parsed =>
      match outcome (isValidPublicKey (meta_spendingPublicKey parsed)) with
      | Ok true =>
          match outcome (isValidPublicKey (meta_viewingPublicKey parsed)) with
          | Ok true => true
          | _ => false
          end
      | _ => false
      end
  end.

End CryptoKeys.

(** The prefix byte of the SEC1 encodings: [02] or [03] for a compressed
    point. *)
Class Secp256k1Encoding (L : Secp256k1) : Prop := {
  toRawBytes_compressed_head : forall (p : point) b,
    toRawBytes true p = Some b -> exists t, b = x02 :: t \/ b = x03 :: t
}.

(** Evaluation of the operations of [T]. *)
Ltac trun := cbn [tbind tcall tret tthrow trace outcome fst snd of_result].

Set Warnings "-register-all".
(* ================================================================== *)
(** * JavaScript values *)

(** The values [JSON.parse] returns, which [lib/storage] handles without
    checking their shape: [undefined] (of a missing property), [null],
    booleans, numbers, strings and plain objects.  An object is the list
    of its own properties, in the order in which JavaScript enumerates
    them.  The numbers of the wallet and configuration files are integers
    (version, time stamp) that a double holds exactly; fractional numbers
    and arrays do not occur in the files the wallet writes and are left
    out. *)
Inductive value : Type :=
| VUndefined
| VNull
| VBool (b : bool)
| VNum (n : Z)
| VStr (s : string)
| VObj (properties : list (string * value)).

(** [if (v)], [!v], [v || w] *)
Definition truthy (v : value) : bool :=
  match v with
  | VUndefined | VNull => false
  | VBool b => b
  | VNum n => negb (n =? 0)%Z
  | VStr s => negb (String.eqb s "")
  | VObj _ => true
  end.

(** Decimal digits of a non-negative integer, most significant first,
    with [fuel] bounding the number of digits. *)
Fixpoint decimal_digits (fuel : nat) (z : Z) (acc : string) : string :=
  match fuel with
  | O => acc
  | Datatypes.S fuel' =>
      let acc' := String (hexchar (Z.to_N (z mod 10))) acc in
      if (z <? 10)%Z then acc' else decimal_digits fuel' (z / 10) acc'
  end.

(** [z.toString()] of a BigInt, and [String(n)] of an integer number
    below [10^21] in absolute value: the decimal digits, after a minus sign
    for a negative integer. *)
Definition toString10 (z : Z) : string :=
  if (z <? 0)%Z
  then String "-" (decimal_digits (Datatypes.S (Z.to_nat (Z.log2 (- z)))) (- z) "")
  else decimal_digits (Datatypes.S (Z.to_nat (Z.log2 z))) z "".

Fixpoint lookupProperty (key : string) (properties : list (string * value)) : value :=
  match properties with
  | [] => VUndefined
  | (k, v) :: rest => if String.eqb key k then v else lookupProperty key rest
  end.

(** The index a property key denotes in a string: the value of a decimal
    numeral that is written as [String(n)] writes it. *)
Definition indexOfKey (key : string) : option nat :=
  match parse_digits 10 key with
  | Some n => if String.eqb (toString10 n) key then Some (Z.to_nat n) else None
  | None => None
  end.

(** The array index a property key denotes: an integer below [2^32 - 1]
    written as [String(n)] writes it. *)
Definition arrayIndex (key : string) : option Z :=
  match parse_digits 10 key with
  | Some n =>
      if (String.eqb (toString10 n) key && (n <? 4294967295)%Z)%bool then Some n else None
  | None => None
  end.

(** The order of the properties of an object: the array indices first, in
    ascending order, then the other keys in the order of their creation.
    [mayPrecede k k'] tells whether a property [k] that exists can stand
    before [k']. *)
Definition mayPrecede (k k' : string) : bool :=
  match arrayIndex k' with
  | Some m => match arrayIndex k with Some n => (n <? m)%Z | None => false end
  | None => true
  end.

(** [v[key]] and [v.key].  Reading from [undefined] or [null] is a
    [TypeError]; a string has its characters and its length; an object has
    its own properties.  The properties the code reads from parsed JSON
    are [version], [address], [stealthMetaAddress], [encryptedKeys],
    [salt], [iv], [createdAt], [activeNetwork], [customRpcUrl],
    [lastScanBlock], the two public keys and the keys of the chain ids
    (numerals, or [undefined]); none of them is a member of a prototype, so
    own properties decide. *)
Definition getProperty (v : value) (key : string) : completion value :=
  match v with
  | VUndefined | VNull => Throws TypeError
  | VBool _ | VNum _ => Returns VUndefined
  | VStr s =>
      if String.eqb key "length" then Returns (VNum (Z.of_nat (String.length s)))
      else match indexOfKey key with
           | Some i =>
               match String.get i s with
               | Some c => Returns (VStr (String c ""))
               | None => Returns VUndefined
               end
           | None => Returns VUndefined
           end
  | VObj properties => Returns (lookupProperty key properties)
  end.

(** The properties after [o[key] = v]: the value of a property that
    exists is replaced, a new property takes its place in the order. *)
Fixpoint assignProperty (key : string) (v : value) (properties : list (string * value))
    : list (string * value) :=
  match properties with
  | [] => [(key, v)]
  | (k, w) :: rest =>
      if String.eqb key k then (k, v) :: rest
      else if mayPrecede k key then (k, w) :: assignProperty key v rest
      else (key, v) :: (k, w) :: rest
  end.

(** [o[key] = v].  The modules are ES modules, hence strict code: the
    assignment to a property of a primitive value is a [TypeError], like
    the one to a property of [undefined] or [null]. *)
Definition setProperty (o : value) (key : string) (v : value) : completion value :=
  match o with
  | VObj properties => Returns (VObj (assignProperty key v properties))
  | _ => Throws TypeError
  end.

Fixpoint removeProperty (key : string) (properties : list (string * value))
    : list (string * value) :=
  match properties with
  | [] => []
  | (k, w) :: rest => if String.eqb key k then rest else (k, w) :: removeProperty key rest
  end.

(** [delete o.key] *)
Definition deleteProperty (o : value) (key : string) : completion value :=
  match o with
  | VUndefined | VNull => Throws TypeError
  | VObj properties => Returns (VObj (removeProperty key properties))
  | _ => Returns o
  end.

(** [a === b] on the values compared by the code: a parsed value with a
    number or with a string. *)
Definition strictEquals (a b : value) : bool :=
  match a, b with
  | VUndefined, VUndefined => true
  | VNull, VNull => true
  | VBool x, VBool y => Bool.eqb x y
  | VNum x, VNum y => (x =? y)%Z
  | VStr x, VStr y => String.eqb x y
  | _, _ => false
  end.

(** ** [BigInt(value)] *)

(** [BigInt(v)]: a string is parsed, an integer number and a boolean are
    converted, anything else is an error: [undefined] and [null] a
    [TypeError]; an object a [SyntaxError] of the string [toString] gives
    for it, or a [TypeError] when a property of its own hides [toString]. *)
Definition BigInt_of (v : value) : completion Z :=
  match v with
  | VStr s =>
      match StringToBigInt s with Some z => Returns z | None => Throws BigIntSyntaxError end
  | VNum n => Returns n
  | VBool b => Returns (if b then 1 else 0)
  | VUndefined | VNull => Throws TypeError
  | VObj properties =>
      if existsb (String.eqb "toString") (List.map fst properties) then Throws TypeError
      else Throws BigIntSyntaxError
  end.

(* ================================================================== *)
(** * The machine: files, clock and random source *)

(** What a node answers to the two requests of [fetchAnnouncements]:
    [eth_blockNumber], and [eth_getLogs] for the [Announcement] events of
    the announcer contract with scheme 1 in a range of blocks, decoded. *)
Record Node : Type := {
  eth_blockNumber : completion Z;
  eth_getLogs : Z -> Z -> completion (list AnnouncementData)
}.

(** What the functions see of the machine they run on: whether the
    wallet directory exists, the files by path, where a file can be
    written outside the wallet directory, the clock, the random source and
    the node behind an RPC URL.  Paths are compared as strings, and
    failures other than a missing file or directory (permissions, a full
    disk) are left out. *)
Record World : Type := {
  homedir : string;
  walletDir : bool;
  files : list (string * string);
  writable : string -> bool;
  clock : Z;
  random : entropy;
  node : value -> Node
}.

Definition with_walletDir (b : bool) (w : World) : World :=
  {| homedir := homedir w; walletDir := b; files := files w; writable := writable w;
     clock := clock w; random := random w; node := node w |}.

Definition with_files (fs : list (string * string)) (w : World) : World :=
  {| homedir := homedir w; walletDir := walletDir w; files := fs; writable := writable w;
     clock := clock w; random := random w; node := node w |}.

Definition with_random (e : entropy) (w : World) : World :=
  {| homedir := homedir w; walletDir := walletDir w; files := files w;
     writable := writable w; clock := clock w; random := e; node := node w |}.

Definition with_node (n : value -> Node) (w : World) : World :=
  {| homedir := homedir w; walletDir := walletDir w; files := files w;
     writable := writable w; clock := clock w; random := random w; node := n |}.

Fixpoint fileContent (path : string) (fs : list (string * string)) : option string :=
  match fs with
  | [] => None
  | (p, content) :: rest => if String.eqb path p then Some content else fileContent path rest
  end.

Fixpoint writeContent (path content : string) (fs : list (string * string))
    : list (string * string) :=
  match fs with
  | [] => [(path, content)]
  | (p, c) :: rest =>
      if String.eqb path p then (p, content) :: rest else (p, c) :: writeContent path content rest
  end.

Fixpoint eraseFile (path : string) (fs : list (string * string)) : list (string * string) :=
  match fs with
  | [] => []
  | (p, c) :: rest =>
      if String.eqb path p then eraseFile path rest else (p, c) :: eraseFile path rest
  end.

(** A stateful computation: its completion and the machine it leaves.  An
    [await] is the sequencing of the monad. *)
Definition IO (A : Type) : Type := World -> completion A * World.

Definition sret {A} (a : A) : IO A := fun w => (Returns a, w).
Definition sthrow {A} (e : exn) : IO A := fun w => (Throws e, w).
Definition slift {A} (c : completion A) : IO A := fun w => (c, w).
Definition sbind {A B} (m : IO A) (f : A -> IO B) : IO B :=
  fun w => match m w with
           | (Returns a, w') => f a w'
           | (Throws e, w') => (Throws e, w')
           end.
(** [try { m } catch { handler }] *)
Definition try_catch {A} (m : IO A) (handler : IO A) : IO A :=
  fun w => match m w with
           | (Returns a, w') => (Returns a, w')
           | (Throws _, w') => handler w'
           end.

Declare Scope s_scope.
Delimit Scope s_scope with s.
Notation "x <== m ;; k" := (sbind m (fun x => k))
  (at level 61, m at next level, right associativity) : s_scope.

Definition WALLET_DIR (w : World) : string := homedir w ++ "/.stealth-wallet".
Definition WALLET_FILE (w : World) : string := WALLET_DIR w ++ "/wallet.json".
Definition CONFIG_FILE (w : World) : string := WALLET_DIR w ++ "/config.json".

(** [access(path)] of a file *)
Definition access (path : string) : IO unit :=
  fun w => match fileContent path (files w) with
           | Some _ => (Returns tt, w)
           | None => (Throws ENOENT, w)
           end.

(** [access(WALLET_DIR)] *)
Definition access_WALLET_DIR : IO unit :=
  fun w => if walletDir w then (Returns tt, w) else (Throws ENOENT, w).

(** [mkdir(WALLET_DIR, { recursive: true, mode: 0o700 })] *)
Definition mkdir_WALLET_DIR : IO unit :=
  fun w => (Returns tt, with_walletDir true w).

(** [readFile(path, 'utf-8')] *)
Definition readFile (path : string) : IO string :=
  fun w => match fileContent path (files w) with
           | Some content => (Returns content, w)
           | None => (Throws ENOENT, w)
           end.

(** [writeFile(path, content)]: it needs the directory of the path, which
    is the wallet directory for the two files of the wallet. *)
Definition writeFile (path content : string) : IO unit :=
  fun w =>
    let possible :=
      if (String.eqb path (WALLET_FILE w) || String.eqb path (CONFIG_FILE w))%bool
      then walletDir w else writable w path in
    if possible then (Returns tt, with_files (writeContent path content (files w)) w)
    else (Throws ENOENT, w).

(** [unlink(path)] *)
Definition unlink (path : string) : IO unit :=
  fun w => match fileContent path (files w) with
           | Some _ => (Returns tt, with_files (eraseFile path (files w)) w)
           | None => (Throws ENOENT, w)
           end.

(** [Date.now()] *)
Definition Date_now : IO Z := fun w => (Returns (clock w), w).

(* ================================================================== *)
(** * [JSON] *)

(** [JSON.stringify(value, null, space)] and [JSON.parse(text)]; [None]
    when [JSON.parse] throws. *)
Class Json : Type := {
  JSON_stringify : nat -> value -> string;
  JSON_parse : string -> option value
}.

(* ================================================================== *)
(** * [lib/storage] *)

Record WalletData : Type := {
  wallet_address : value;
  wallet_stealthMetaAddress : value;
  wallet_keys : value;
  wallet_createdAt : value
}.

(** The object [getWalletInfo] returns. *)
Record WalletInfo : Type := {
  info_address : value;
  info_stealthMetaAddress : value;
  info_createdAt : value
}.

(** A key pair as a JavaScript object, with the properties in the order
    in which [generateRandomKeys] and [deriveKeysFromSignature] write
    them. *)
Definition object_of_keys (keys : StealthKeys) : value :=
  VObj [("spendingPrivateKey", VStr (spendingPrivateKey keys));
        ("spendingPublicKey", VStr (spendingPublicKey keys));
        ("viewingPrivateKey", VStr (viewingPrivateKey keys));
        ("viewingPublicKey", VStr (viewingPublicKey keys))].

Section Storage.
Context {L : Secp256k1} {C : Cipher} {J : Json}.
Local Open Scope s_scope.

Definition ensureDir : IO unit := try_catch access_WALLET_DIR mkdir_WALLET_DIR.

Definition walletExists : IO bool :=
  fun w => try_catch (_ <== access (WALLET_FILE w) ;; sret true) (sret false) w.

(** [encryptData] on the random source of the machine. *)
Definition encryptData_on (data password : string) : IO EncryptedData :=
  fun w => let (r, e) := encryptData data password (random w) in
           (Returns r, with_random e w).

(** [hexToBytes(v)] on a value that need not be a string: [v.slice] is
    called first. *)
Definition hexToBytes_of (v : value) : completion bytes :=
  match v with
  | VStr s => of_result (hexToBytes s)
  | _ => Throws TypeError
  end.

(** [decryptData] on the properties of a parsed wallet file. *)
Definition decryptData_of (encryptedHex : value) (password : string) (saltHex ivHex : value)
    : completion string :=
  match hexToBytes_of saltHex with
  | Throws e => Throws e
  | Returns salt =>
      match hexToBytes_of ivHex with
      | Throws e => Throws e
      | Returns iv =>
          match hexToBytes_of encryptedHex with
          | Throws e => Throws e
          | Returns encrypted =>
              let key := deriveEncryptionKey password salt in
              match aes_gcm_decrypt key iv encrypted with
              | Some decrypted => Returns (TextDecoder_decode decrypted)
              | None => Throws (Thrown DecryptionFailed)
              end
          end
      end
  end.

(** [v.slice(2)] on a value that need not be a string. *)
Definition slice2_of (v : value) : completion string :=
  match v with
  | VStr s => Returns (Js.drop 2 s)
  | _ => Throws TypeError
  end.

(** [createStealthMetaAddress] on a parsed key object. *)
Definition createStealthMetaAddress_of (keys : value) : completion string :=
  match getProperty keys "spendingPublicKey" with
  | Throws e => Throws e
  | Returns spendingPublicKey =>
      match slice2_of spendingPublicKey with
      | Throws e => Throws e
      | Returns spending =>
          match getProperty keys "viewingPublicKey" with
          | Throws e => Throws e
          | Returns viewingPublicKey =>
              match slice2_of viewingPublicKey with
              | Throws e => Throws e
              | Returns viewing => Returns ("0x" ++ spending ++ viewing)
              end
          end
      end
  end.

(** [JSON.parse(text)] *)
Definition parseJson (text : string) : completion value :=
  match JSON_parse text with Some v => Returns v | None => Throws JSONSyntaxError end.

Definition saveWallet (keys : StealthKeys) (password : string) : IO WalletData :=
  fun w0 =>
  (_ <== ensureDir ;;
   let stealthMetaAddress := createStealthMetaAddress keys in
   address <== slift (of_result (outcome (deriveMainAddress (spendingPublicKey keys)))) ;;
   let keysJson := JSON_stringify 0 (object_of_keys keys) in
   data <== encryptData_on keysJson password ;;
   createdAt <== Date_now ;;
   let encryptedWallet :=
     VObj [("version", VNum 1);
           ("address", VStr address);
           ("stealthMetaAddress", VStr stealthMetaAddress);
           ("encryptedKeys", VStr (encrypted data));
           ("salt", VStr (salt data));
           ("iv", VStr (iv data));
           ("createdAt", VNum createdAt)] in
   _ <== writeFile (WALLET_FILE w0) (JSON_stringify 2 encryptedWallet) ;;
   sret {| wallet_address := VStr address;
           wallet_stealthMetaAddress := VStr stealthMetaAddress;
           wallet_keys := object_of_keys keys;
           wallet_createdAt := VNum createdAt |}) w0.

Definition loadWallet (password : string) : IO WalletData :=
  fun w0 =>
  (exists_ <== walletExists ;;
   if negb exists_ then sthrow NoWalletFound
   else
     content <== readFile (WALLET_FILE w0) ;;
     encrypted <== slift (parseJson content) ;;
     version <== slift (getProperty encrypted "version") ;;
     if negb (strictEquals version (VNum 1)) then sthrow UnsupportedWalletVersion
     else
       encryptedKeys <== slift (getProperty encrypted "encryptedKeys") ;;
       saltHex <== slift (getProperty encrypted "salt") ;;
       ivHex <== slift (getProperty encrypted "iv") ;;
       keysJson <== slift (decryptData_of encryptedKeys password saltHex ivHex) ;;
       keys <== slift (parseJson keysJson) ;;
       computedMeta <== slift (createStealthMetaAddress_of keys) ;;
       stealthMetaAddress <== slift (getProperty encrypted "stealthMetaAddress") ;;
       if negb (strictEquals (VStr computedMeta) stealthMetaAddress)
       then sthrow WalletIntegrityCheckFailed
       else
         address <== slift (getProperty encrypted "address") ;;
         createdAt <== slift (getProperty encrypted "createdAt") ;;
         sret {| wallet_address := address;
                 wallet_stealthMetaAddress := stealthMetaAddress;
                 wallet_keys := keys;
                 wallet_createdAt := createdAt |}) w0.

(** [None] is the [null] the function returns when there is no wallet. *)
Definition getWalletInfo : IO (option WalletInfo) :=
  fun w0 =>
  (exists_ <== walletExists ;;
   if negb exists_ then sret None
   else
     content <== readFile (WALLET_FILE w0) ;;
     wallet <== slift (parseJson content) ;;
     address <== slift (getProperty wallet "address") ;;
     stealthMetaAddress <== slift (getProperty wallet "stealthMetaAddress") ;;
     createdAt <== slift (getProperty wallet "createdAt") ;;
     sret (Some {| info_address := address;
                   info_stealthMetaAddress := stealthMetaAddress;
                   info_createdAt := createdAt |})) w0.

Definition loadConfig : IO value :=
  fun w0 =>
  try_catch
    (content <== readFile (CONFIG_FILE w0) ;; slift (parseJson content))
    (sret (VObj [("activeNetwork", VStr "mainnet")])) w0.

Definition saveConfig (config : value) : IO unit :=
  fun w0 =>
  (_ <== ensureDir ;;
   writeFile (CONFIG_FILE w0) (JSON_stringify 2 config)) w0.

(** The property key of a chain id in [lastScanBlock[chainId]]: a chain
    id is a number, or [undefined] where a network has none. *)
Definition chainKey (chainId : option Z) : string :=
  match chainId with
  | Some n => toString10 n
  | None => "undefined"
  end.

(** The object [config.lastScanBlock] is updated in place: the object
    read in the second statement is the one the first statement stored. *)
Definition updateLastScanBlock (chainId : option Z) (blockNumber : Z) : IO unit :=
  config <== loadConfig ;;
  lastScanBlock <== slift (getProperty config "lastScanBlock") ;;
  config <== slift (setProperty config "lastScanBlock"
                      (if truthy lastScanBlock then lastScanBlock else VObj [])) ;;
  lastScanBlock <== slift (getProperty config "lastScanBlock") ;;
  lastScanBlock <== slift (setProperty lastScanBlock (chainKey chainId)
                             (VStr (toString10 blockNumber))) ;;
  config <== slift (setProperty config "lastScanBlock" lastScanBlock) ;;
  saveConfig config.

(** [None] is the [null] the function returns. *)
Definition getLastScanBlock (chainId : option Z) : IO (option Z) :=
  config <== loadConfig ;;
  lastScanBlock <== slift (getProperty config "lastScanBlock") ;;
  block <== slift (match lastScanBlock with
                   | VUndefined | VNull => Returns VUndefined
                   | _ => getProperty lastScanBlock (chainKey chainId)
                   end) ;;
  if truthy block then (z <== slift (BigInt_of block) ;; sret (Some z))
  else sret None.

(** The file is overwritten with as many zeros as it has characters, then
    removed. *)
Definition deleteWallet : IO unit :=
  fun w0 =>
  (exists_ <== walletExists ;;
   if negb exists_ then sthrow NoWalletToDelete
   else
     content <== readFile (WALLET_FILE w0) ;;
     let zeros := Js.repeat_char "0" (String.length content) in
     _ <== writeFile (WALLET_FILE w0) zeros ;;
     unlink (WALLET_FILE w0)) w0.

Definition exportWallet (targetPath : string) : IO unit :=
  fun w0 =>
  (exists_ <== walletExists ;;
   if negb exists_ then sthrow NoWalletToExport
   else
     content <== readFile (WALLET_FILE w0) ;;
     writeFile targetPath content) w0.

Definition importWallet (sourcePath : string) : IO unit :=
  fun w0 =>
  (content <== readFile sourcePath ;;
   wallet <== slift (parseJson content) ;;
   version <== slift (getProperty wallet "version") ;;
   if negb (strictEquals version (VNum 1)) then sthrow UnsupportedWalletVersion
   else
     address <== slift (getProperty wallet "address") ;;
     stealthMetaAddress <== slift (getProperty wallet "stealthMetaAddress") ;;
     encryptedKeys <== slift (getProperty wallet "encryptedKeys") ;;
     if (negb (truthy address) || negb (truthy stealthMetaAddress)
         || negb (truthy encryptedKeys))%bool
     then sthrow InvalidWalletBackupFormat
     else
       _ <== ensureDir ;;
       writeFile (WALLET_FILE w0) content) w0.

End Storage.

(** ** Vocabulary of the statements about [lib/storage] *)

(** A value [JSON.stringify] writes in full and [JSON.parse] can return:
    no [undefined] in it, and the properties of every object under
    different names and in the order of an object. *)
Fixpoint distinct (keys : list string) : bool :=
  match keys with
  | [] => true
  | k :: rest => (negb (existsb (String.eqb k) rest) && distinct rest)%bool
  end.

Fixpoint ordered (keys : list string) : bool :=
  match keys with
  | [] => true
  | k :: rest => (forallb (mayPrecede k) rest && ordered rest)%bool
  end.

Fixpoint serializable (v : value) : bool :=
  match v with
  | VUndefined => false
  | VObj properties =>
      (distinct (List.map fst properties) && ordered (List.map fst properties) &&
       (fix all (ps : list (string * value)) : bool :=
          match ps with
          | [] => true
          | (_, x) :: rest => (serializable x && all rest)%bool
          end) properties)%bool
  | _ => true
  end.

(** What the proofs use of [JSON]: parsing what [JSON.stringify] wrote
    gives the value back, whatever the indentation; [JSON.parse] returns
    values of this kind only; and what [JSON.stringify] writes is a
    well-formed string (a lone surrogate is written as an escape) that
    begins with the first character of a JSON value, not with U+FEFF. *)
Class JsonLaws (J : Json) : Prop := {
  parse_stringify : forall (space : nat) (v : value),
    serializable v = true -> JSON_parse (JSON_stringify space v) = Some v;
  parse_serializable : forall (text : string) (v : value),
    JSON_parse text = Some v -> serializable v = true;
  stringify_text : forall (space : nat) (v : value),
    serializable v = true ->
    isWellFormed (JSON_stringify space v) = true /\
    startsWithBOM (JSON_stringify space v) = false
}.

(** The characters of a decimal numeral. *)
Definition isDecimalDigit (c : ascii) : bool :=
  match hexval c with Some v => (v <? 10)%N | None => false end.

Fixpoint allDecimalDigits (s : string) : bool :=
  match s with
  | EmptyString => true
  | String c s' => (isDecimalDigit c && allDecimalDigits s')%bool
  end.

(** The object [saveWallet] writes into the wallet file. *)
Definition encryptedWallet (address stealthMetaAddress createdAt : value)
    (data : EncryptedData) : value :=
  VObj [("version", VNum 1);
        ("address", address);
        ("stealthMetaAddress", stealthMetaAddress);
        ("encryptedKeys", VStr (encrypted data));
        ("salt", VStr (salt data));
        ("iv", VStr (iv data));
        ("createdAt", createdAt)].

(** The configuration [loadConfig] returns on a machine: what the
    configuration file holds, or the default when the file is missing or
    is no JSON. *)
Definition defaultConfig : value := VObj [("activeNetwork", VStr "mainnet")].

Definition storedConfig {J : Json} (w : World) : value :=
  match fileContent (CONFIG_FILE w) (files w) with
  | Some content =>
      match JSON_parse content with Some v => v | None => defaultConfig end
  | None => defaultConfig
  end.

(** A configuration in which [updateLastScanBlock] can record a block:
    an object whose [lastScanBlock] is an object, or is missing or falsy. *)
Definition updatable (config : value) : bool :=
  match config with
  | VObj properties =>
      match lookupProperty "lastScanBlock" properties with
      | VObj _ => true
      | v => negb (truthy v)
      end
  | _ => false
  end.

(** A computation that leaves the machine as it found it. *)
Definition readOnly {A} (m : IO A) : Prop := forall w, snd (m w) = w.

(** A machine with a home directory and nothing in it. *)
Definition freshWorld : World :=
  {| homedir := "/home/user";
     walletDir := false;
     files := [];
     writable := fun _ => true;
     clock := 42;
     random := fun i => byte_of_N (N.of_nat i mod 256);
     node := fun _ => {| eth_blockNumber := Throws RpcError;
                         eth_getLogs := fun _ _ => Throws RpcError |} |}.

(** The path of a backup on this machine. *)
Definition backupPath : string := "/home/user/backup.json".

(** ** A reference instance of [JSON] *)

(** A serialisation by tag and length, to run the embedding on concrete
    inputs: numbers and lengths in unary, a string in hex after its
    length, an object after the number of its properties. *)
Module Tagged.

Definition enc_nat (n : nat) : string := Js.repeat_char "1" n ++ ":".

Definition enc_Z (z : Z) : string :=
  (if (z <? 0)%Z then "-" else "+") ++ enc_nat (Z.abs_nat z).

Definition enc_string (s : string) : string :=
  enc_nat (String.length s) ++ hex_of_bytes (list_byte_of_string s).

Fixpoint enc (v : value) : string :=
  match v with
  | VUndefined => "u"
  | VNull => "n"
  | VBool true => "t"
  | VBool false => "f"
  | VNum z => "i" ++ enc_Z z
  | VStr s => "s" ++ enc_string s
  | VObj properties =>
      "o" ++ enc_nat (List.length properties) ++
      (fix go (ps : list (string * value)) : string :=
         match ps with
         | [] => ""
         | (k, x) :: rest => enc_string k ++ enc x ++ go rest
         end) properties
  end.

Fixpoint dec_nat (s : string) : option (nat * string) :=
  match s with
  | String "1" s' =>
      match dec_nat s' with Some (n, rest) => Some (Datatypes.S n, rest) | None => None end
  | String ":" s' => Some (O, s')
  | _ => None
  end.

Definition dec_Z (s : string) : option (Z * string) :=
  match s with
  | String "+" s' =>
      match dec_nat s' with Some (n, rest) => Some (Z.of_nat n, rest) | None => None end
  | String "-" s' =>
      match dec_nat s' with Some (n, rest) => Some (- Z.of_nat n, rest) | None => None end
  | _ => None
  end.

Definition dec_string (s : string) : option (string * string) :=
  match dec_nat s with
  | Some (n, rest) =>
      if (2 * n <=? String.length rest)%nat then
        match bytes_of_hex (Js.take (2 * n) rest) with
        | Some b => Some (string_of_list_byte b, Js.drop (2 * n) rest)
        | None => None
        end
      else None
  | None => None
  end.

Fixpoint dec (fuel : nat) (s : string) : option (value * string) :=
  match fuel with
  | O => None
  | Datatypes.S fuel' =>
      let properties :=
        fix go (n : nat) (s : string) : option (list (string * value) * string) :=
          match n with
          | O => Some ([], s)
          | Datatypes.S n' =>
              match dec_string s with
              | Some (k, s1) =>
                  match dec fuel' s1 with
                  | Some (x, s2) =>
                      match go n' s2 with
                      | Some (ps, s3) => Some ((k, x) :: ps, s3)
                      | None => None
                      end
                  | None => None
                  end
              | None => None
              end
          end in
      match s with
      | String "u" rest => Some (VUndefined, rest)
      | String "n" rest => Some (VNull, rest)
      | String "t" rest => Some (VBool true, rest)
      | String "f" rest => Some (VBool false, rest)
      | String "i" rest =>
          match dec_Z rest with Some (z, rest') => Some (VNum z, rest') | None => None end
      | String "s" rest =>
          match dec_string rest with
          | Some (x, rest') => Some (VStr x, rest')
          | None => None
          end
      | String "o" rest =>
          match dec_nat rest with
          | Some (n, rest') =>
              match properties n rest' with
              | Some (ps, rest'') => Some (VObj ps, rest'')
              | None => None
              end
          | None => None
          end
      | _ => None
      end
  end.

(** The number of values in a value. *)
Fixpoint value_size (v : value) : nat :=
  match v with
  | VObj properties =>
      Datatypes.S
        ((fix sum (ps : list (string * value)) : nat :=
            match ps with
            | [] => O
            | (_, x) :: rest => (value_size x + sum rest)%nat
            end) properties)
  | _ => 1%nat
  end.

Definition json : Json := {|
  JSON_stringify := fun _ v => enc v;
  JSON_parse := fun s =>
    match dec (Datatypes.S (String.length s)) s with
    | Some (v, EmptyString) => if serializable v then Some v else None
    | _ => None
    end
|}.

End Tagged.

(* ================================================================== *)
(** * [lib/types] and [lib/network]: networks *)

(** The RPC URL is a value: the custom URL of the configuration file is
    used as it is read. *)
Record NetworkConfig : Type := {
  net_chainId : Z;
  net_name : string;
  net_rpcUrl : value;
  net_blockExplorer : string
}.

Definition mainnet : NetworkConfig :=
  {| net_chainId := 1;
     net_name := "Ethereum Mainnet";
     net_rpcUrl := VStr "https://eth.llamarpc.com";
     net_blockExplorer := "https://etherscan.io" |}.

Definition SUPPORTED_NETWORKS : list (string * NetworkConfig) :=
  [ ("mainnet", mainnet);
    ("sepolia", {| net_chainId := 11155111;
                   net_name := "Sepolia Testnet";
                   net_rpcUrl := VStr "https://rpc.sepolia.org";
                   net_blockExplorer := "https://sepolia.etherscan.io" |});
    ("holesky", {| net_chainId := 17000;
                   net_name := "Holesky Testnet";
                   net_rpcUrl := VStr "https://ethereum-holesky-rpc.publicnode.com";
                   net_blockExplorer := "https://holesky.etherscan.io" |});
    ("arbitrum", {| net_chainId := 42161;
                    net_name := "Arbitrum One";
                    net_rpcUrl := VStr "https://arb1.arbitrum.io/rpc";
                    net_blockExplorer := "https://arbiscan.io" |});
    ("optimism", {| net_chainId := 10;
                    net_name := "Optimism";
                    net_rpcUrl := VStr "https://mainnet.optimism.io";
                    net_blockExplorer := "https://optimistic.etherscan.io" |});
    ("base", {| net_chainId := 8453;
                net_name := "Base";
                net_rpcUrl := VStr "https://mainnet.base.org";
                net_blockExplorer := "https://basescan.org" |});
    ("polygon", {| net_chainId := 137;
                   net_name := "Polygon";
                   net_rpcUrl := VStr "https://polygon-rpc.com";
                   net_blockExplorer := "https://polygonscan.com" |}) ].

(** The block in which the contracts were deployed, by chain id. *)
Definition START_BLOCKS : list (Z * Z) :=
  [ (1, 20042207); (11155111, 5486597); (17000, 1222405); (42161, 219468264);
    (10, 121097390); (8453, 15502414); (137, 57888814) ].

(** The members every object literal inherits from [Object.prototype]:
    functions, and the prototype itself under [__proto__]. *)
Definition Object_prototype : list string :=
  [ "constructor"; "__defineGetter__"; "__defineSetter__"; "hasOwnProperty";
    "__lookupGetter__"; "__lookupSetter__"; "isPrototypeOf"; "propertyIsEnumerable";
    "toString"; "valueOf"; "__proto__"; "toLocaleString" ].

(** What the code holds as a network: an entry of [SUPPORTED_NETWORKS],
    with the custom RPC URL where there is one; a member that
    [SUPPORTED_NETWORKS] inherits, which has none of the properties of a
    network; or the object with the only property [rpcUrl] that
    [{ ...member, rpcUrl }] builds from such a member. *)
Inductive network : Type :=
| Supported (n : NetworkConfig)
| Inherited (member : string)
| RpcOnly (rpcUrl : value).

(** [network.chainId] and [network.rpcUrl] *)
Definition network_chainId (n : network) : option Z :=
  match n with
  | Supported c => Some (net_chainId c)
  | Inherited _ | RpcOnly _ => None
  end.

Definition network_rpcUrl (n : network) : value :=
  match n with
  | Supported c => net_rpcUrl c
  | Inherited _ => VUndefined
  | RpcOnly url => url
  end.

Fixpoint ownNetwork (key : string) (networks : list (string * NetworkConfig))
    : option NetworkConfig :=
  match networks with
  | [] => None
  | (k, n) :: rest => if String.eqb key k then Some n else ownNetwork key rest
  end.

(** [SUPPORTED_NETWORKS[key]]; [None] is [undefined]. *)
Definition SUPPORTED_NETWORKS_at (key : string) : option network :=
  match ownNetwork key SUPPORTED_NETWORKS with
  | Some n => Some (Supported n)
  | None =>
      if existsb (String.eqb key) Object_prototype then Some (Inherited key) else None
  end.

(** [START_BLOCKS[chainId] || 0n]: the key of a chain id is a numeral or
    [undefined], which is no inherited member. *)
Definition START_BLOCKS_at (chainId : option Z) : Z :=
  match chainId with
  | Some n =>
      match List.find (fun entry => (fst entry =? n)%Z) START_BLOCKS with
      | Some (_, block) => block
      | None => 0
      end
  | None => 0
  end.

(** The property key of a value of a parsed file in [object[v]].  An
    object is converted by the [toString] it inherits, unless a property of
    its own hides it: a parsed value is no function, and the conversion
    fails. *)
Definition toPropertyKey (v : value) : completion string :=
  match v with
  | VUndefined => Returns "undefined"
  | VNull => Returns "null"
  | VBool true => Returns "true"
  | VBool false => Returns "false"
  | VNum n => Returns (toString10 n)
  | VStr s => Returns s
  | VObj properties =>
      if existsb (String.eqb "toString") (List.map fst properties) then Throws TypeError
      else Returns "[object Object]"
  end.

(** [{ ...network, rpcUrl }] *)
Definition with_rpcUrl (n : network) (rpcUrl : value) : network :=
  match n with
  | Supported c =>
      Supported {| net_chainId := net_chainId c; net_name := net_name c;
                   net_rpcUrl := rpcUrl; net_blockExplorer := net_blockExplorer c |}
  | Inherited _ | RpcOnly _ => RpcOnly rpcUrl
  end.

(** The client of a node: the requests go to the URL of its transport. *)
Record Client : Type := { transport_url : value }.

Definition CHUNK_SIZE : Z := 10000.

(** An optional block number as a condition: [undefined], [null] and [0n]
    are falsy. *)
Definition truthyBlock (block : option Z) : option Z :=
  match block with
  | Some b => if (b =? 0)%Z then None else Some b
  | None => None
  end.

(** [SUPPORTED_NETWORKS[config.activeNetwork] || SUPPORTED_NETWORKS['mainnet']] *)
Definition activeNetwork_of (config : value) : completion network :=
  match getProperty config "activeNetwork" with
  | Throws e => Throws e
  | Returns activeNetwork =>
      match toPropertyKey activeNetwork with
      | Throws e => Throws e
      | Returns key =>
          Returns (match SUPPORTED_NETWORKS_at key with
                   | Some n => n
                   | None => Supported mainnet
                   end)
      end
  end.

Section Network.
Context {L : Secp256k1} {C : Cipher} {J : Json}.
Local Open Scope s_scope.

Definition getCurrentNetwork : IO network :=
  config <== loadConfig ;;
  customRpcUrl <== slift (getProperty config "customRpcUrl") ;;
  if truthy customRpcUrl then
    n <== slift (activeNetwork_of config) ;;
    sret (with_rpcUrl n customRpcUrl)
  else slift (activeNetwork_of config).

Definition setNetwork (networkName : string) : IO network :=
  match SUPPORTED_NETWORKS_at networkName with
  | None => sthrow UnknownNetwork
  | Some n =>
      config <== loadConfig ;;
      config <== slift (setProperty config "activeNetwork" (VStr networkName)) ;;
      _ <== saveConfig config ;;
      sret n
  end.

Definition setCustomRpc (rpcUrl : string) : IO unit :=
  config <== loadConfig ;;
  config <== slift (setProperty config "customRpcUrl" (VStr rpcUrl)) ;;
  saveConfig config.

Definition clearCustomRpc : IO unit :=
  config <== loadConfig ;;
  config <== slift (deleteProperty config "customRpcUrl") ;;
  saveConfig config.

(** The transport [http(network.rpcUrl)] uses the URL of the network; a
    network without one has no chain of [CHAINS] either (its chain id is
    [undefined]), and the transport of the chain built for it fails for
    want of a URL. *)
Definition createPublicClientForNetwork : IO Client :=
  n <== getCurrentNetwork ;;
  if truthy (network_rpcUrl n) then sret {| transport_url := network_rpcUrl n |}
  else sthrow UrlRequired.

(** [client.getBlockNumber()] *)
Definition getBlockNumber_of (client : Client) : IO Z :=
  fun w => (eth_blockNumber (node w (transport_url client)), w).

(** [client.getLogs(...)] for the announcements between two blocks; the
    two blocks are sent as hexadecimal quantities, which a negative number
    is not. *)
Definition getLogs_of (client : Client) (fromBlock toBlock : Z)
    : IO (list AnnouncementData) :=
  fun w =>
    if ((fromBlock <? 0)%Z || (toBlock <? 0)%Z)%bool then (Throws IntegerOutOfRange, w)
    else (eth_getLogs (node w (transport_url client)) fromBlock toBlock, w).

(** The loop of [fetchAnnouncements]; [rounds] bounds the number of its
    rounds. *)
Fixpoint fetchChunks (rounds : nat) (client : Client) (start endBlock : Z)
    (announcements : list AnnouncementData) : IO (list AnnouncementData) :=
  match rounds with
  | O => sret announcements
  | Datatypes.S rounds' =>
      if (start <=? endBlock)%Z then
        let end_ := if (start + CHUNK_SIZE - 1 >? endBlock)%Z then endBlock
                    else start + CHUNK_SIZE - 1 in
        logs <== getLogs_of client start end_ ;;
        fetchChunks rounds' client (start + CHUNK_SIZE) endBlock
          (announcements ++ logs)%list
      else sret announcements
  end.

(** [fromBlock] and [toBlock] are the two optional parameters; [None] for
    [toBlock] is ['latest'] as well as a missing parameter.  The loop runs
    once for every [CHUNK_SIZE] blocks between [fromBlock] and [endBlock],
    and once for the rest. *)
Definition fetchAnnouncements (fromBlock toBlock : option Z)
    : IO (list AnnouncementData) :=
  client <== createPublicClientForNetwork ;;
  n <== getCurrentNetwork ;;
  let chainId := network_chainId n in
  fromBlock <== match truthyBlock fromBlock with
                | Some b => sret b
                | None =>
                    lastScanned <== getLastScanBlock chainId ;;
                    match truthyBlock lastScanned with
                    | Some l => sret (l + 1)
                    | None => sret (START_BLOCKS_at chainId)
                    end
                end ;;
  let toBlock := truthyBlock toBlock in
  currentBlock <== getBlockNumber_of client ;;
  let endBlock := match toBlock with None => currentBlock | Some b => b end in
  announcements <== fetchChunks (Z.to_nat ((endBlock - fromBlock) / CHUNK_SIZE + 1))
                      client fromBlock endBlock [] ;;
  _ <== (if (endBlock >? fromBlock)%Z then updateLastScanBlock chainId endBlock
         else sret tt) ;;
  sret announcements.

End Network.

(** ** Vocabulary of the statements about [lib/network] *)

(** The announcements of a chain between two blocks, and a chain that
    lists them in the order of their blocks. *)
Definition logsBetween (chain : list AnnouncementData) (fromBlock toBlock : Z)
    : list AnnouncementData :=
  List.filter (fun a => ((fromBlock <=? ann_blockNumber a)%Z &&
                         (ann_blockNumber a <=? toBlock)%Z)%bool) chain.

Fixpoint sortedByBlock (chain : list AnnouncementData) : bool :=
  match chain with
  | [] => true
  | a :: rest =>
      (forallb (fun b => (ann_blockNumber a <=? ann_blockNumber b)%Z) rest &&
       sortedByBlock rest)%bool
  end.

(** A node at block [current] that answers with the announcements of the
    chain, and rejects a request for more than [CHUNK_SIZE] blocks. *)
Definition limitedNode (chain : list AnnouncementData) (current : Z) : Node :=
  {| eth_blockNumber := Returns current;
     eth_getLogs := fun fromBlock toBlock =>
       if (toBlock - fromBlock <? CHUNK_SIZE)%Z
       then Returns (logsBetween chain fromBlock toBlock)
       else Throws RpcError |}.

(** The block a scan starts from and the block it ends with, for the two
    parameters, the block recorded by the last scan and the one the node
    is at. *)
Definition scanStart (fromBlock lastScanned : option Z) (chainId : option Z) : Z :=
  match truthyBlock fromBlock with
  | Some b => b
  | None =>
      match truthyBlock lastScanned with
      | Some l => l + 1
      | None => START_BLOCKS_at chainId
      end
  end.

Definition scanEnd (toBlock : option Z) (current : Z) : Z :=
  match truthyBlock toBlock with
  | Some b => b
  | None => current
  end.

(** Three announcements of the main network, and a machine whose node is
    at block 20060000, before the third. *)
Definition announcedAt (block : Z) : AnnouncementData :=
  {| ann_schemeId := 1;
     ann_stealthAddress := "0x00000000000000000000000000000000000000aa";
     ann_caller := "0x00000000000000000000000000000000000000bb";
     ann_ephemeralPubKey := "0x02";
     ann_metadata := "0x00";
     ann_blockNumber := block;
     ann_transactionHash := "0x01" |}.

Definition threeAnnouncements : list AnnouncementData :=
  [announcedAt 20042300; announcedAt 20055000; announcedAt 20061000].

Definition scanningWorld : World :=
  with_node (fun _ => limitedNode threeAnnouncements 20060000) freshWorld.

(* ================================================================== *)
(** * Strings *)

Lemma slength_app (s t : string) :
  String.length (s ++ t) = (String.length s + String.length t)%nat.
Proof. induction s as [|c s IH]; simpl; [reflexivity | now rewrite IH]. Qed.

Lemma app_assoc_s (s t u : string) : (s ++ t) ++ u = s ++ (t ++ u).
Proof. induction s as [|c s IH]; simpl; [reflexivity | now rewrite IH]. Qed.

Lemma app_empty_r (s : string) : s ++ "" = s.
Proof. induction s as [|c s IH]; simpl; [reflexivity | now rewrite IH]. Qed.

Lemma drop_app (s t : string) : Js.drop (String.length s) (s ++ t) = t.
Proof. induction s as [|c s IH]; simpl; [now destruct t | exact IH]. Qed.

Lemma take_app (s t : string) : Js.take (String.length s) (s ++ t) = s.
Proof. induction s as [|c s IH]; simpl; [now destruct t | now rewrite IH]. Qed.

Lemma take_all (s : string) : Js.take (String.length s) s = s.
Proof. induction s as [|c s IH]; simpl; [reflexivity | now rewrite IH]. Qed.

Lemma length_drop (n : nat) (s : string) :
  String.length (Js.drop n s) = (String.length s - n)%nat.
Proof.
  revert s; induction n as [|n IH]; intros s.
  - simpl. lia.
  - destruct s as [|c s]; simpl; [reflexivity | apply IH].
Qed.

Lemma take_drop (n : nat) (s : string) : Js.take n s ++ Js.drop n s = s.
Proof.
  revert s; induction n as [|n IH]; intros s; [reflexivity|].
  destruct s as [|c s]; simpl; [reflexivity | now rewrite IH].
Qed.

Lemma length_repeat_char (c : ascii) (n : nat) : String.length (Js.repeat_char c n) = n.
Proof. induction n as [|n IH]; simpl; [reflexivity | now rewrite IH]. Qed.

Lemma toLowerCase_app (s t : string) :
  Js.toLowerCase (s ++ t) = Js.toLowerCase s ++ Js.toLowerCase t.
Proof. induction s as [|c s IH]; simpl; [reflexivity | now rewrite IH]. Qed.

Lemma length_toLowerCase (s : string) : String.length (Js.toLowerCase s) = String.length s.
Proof. induction s as [|c s IH]; simpl; [reflexivity | now rewrite IH]. Qed.

Lemma drop_toLowerCase (n : nat) (s : string) :
  Js.drop n (Js.toLowerCase s) = Js.toLowerCase (Js.drop n s).
Proof.
  revert s; induction n as [|n IH]; intros s; [reflexivity|].
  destruct s as [|c s]; simpl; [reflexivity | apply IH].
Qed.

(** Lowering the case of a character keeps its value as a hex digit. *)
Lemma hexval_lower (c : ascii) : hexval (Js.lower_ascii c) = hexval c.
Proof.
  destruct c as [b0 b1 b2 b3 b4 b5 b6 b7].
  destruct b0, b1, b2, b3, b4, b5, b6, b7; reflexivity.
Qed.

Lemma bytes_of_hex_lower (s : string) :
  bytes_of_hex (Js.toLowerCase s) = bytes_of_hex s.
Proof.
  revert s.
  fix IH 1. intros [|a [|b s]]; [reflexivity | reflexivity |].
  cbn [Js.toLowerCase bytes_of_hex]. rewrite !hexval_lower, IH. reflexivity.
Qed.

(** [hexToBytes] does not tell the case of the digits apart. *)
Lemma hexToBytes_lower (s : string) : hexToBytes (Js.toLowerCase s) = hexToBytes s.
Proof.
  unfold hexToBytes. rewrite drop_toLowerCase, length_toLowerCase.
  destruct (Nat.odd _).
  - change (String "0" (Js.toLowerCase (Js.drop 2 s)))
      with (Js.toLowerCase (String "0" (Js.drop 2 s))).
    now rewrite bytes_of_hex_lower.
  - now rewrite bytes_of_hex_lower.
Qed.

(* ================================================================== *)
(** * Hex strings and byte arrays *)

Lemma hexchar_cases (d : N) :
  (d < 16)%N -> List.In d [0; 1; 2; 3; 4; 5; 6; 7; 8; 9; 10; 11; 12; 13; 14; 15]%N.
Proof.
  intros H. destruct d as [|p]; [now left|].
  do 4 (try destruct p as [p|p|]); try lia; simpl; tauto.
Qed.

Lemma hexval_hexchar (d : N) : (d < 16)%N -> hexval (hexchar d) = Some d.
Proof.
  intros H. apply hexchar_cases in H. simpl in H.
  repeat (destruct H as [<-|H]; [reflexivity|]). contradiction.
Qed.

Lemma lower_hexchar (d : N) : Js.lower_ascii (hexchar d) = hexchar d.
Proof.
  destruct (N.ltb_spec d 16) as [H|H].
  - apply hexchar_cases in H. simpl in H.
    repeat (destruct H as [<-|H]; [reflexivity|]). contradiction.
  - destruct d as [|p]; [lia|].
    do 4 (try destruct p as [p|p|]); try lia; reflexivity.
Qed.

Lemma byte_of_to_N (b : byte) : byte_of_N (Byte.to_N b) = b.
Proof. unfold byte_of_N. now rewrite Byte.of_to_N. Qed.

Lemma byte_to_of_N (n : N) : (n < 256)%N -> Byte.to_N (byte_of_N n) = n.
Proof.
  intros H. unfold byte_of_N.
  destruct (Byte.of_N n) as [b|] eqn:E.
  - now apply Byte.to_of_N.
  - pose proof (Byte.to_of_N_option_map n) as O. rewrite E in O. simpl in O.
    destruct (N.leb_spec n 255); [discriminate | lia].
Qed.

Lemma to_N_lt (b : byte) : (Byte.to_N b < 256)%N.
Proof. pose proof (Byte.to_N_bounded b). lia. Qed.

Lemma length_hex_of_bytes (bs : bytes) :
  String.length (hex_of_bytes bs) = (2 * List.length bs)%nat.
Proof. induction bs as [|b bs IH]; simpl; [reflexivity | rewrite IH; lia]. Qed.

Lemma hex_of_bytes_app (a b : bytes) :
  hex_of_bytes (a ++ b)%list = hex_of_bytes a ++ hex_of_bytes b.
Proof. induction a as [|x a IH]; simpl; [reflexivity | now rewrite IH]. Qed.

Lemma bytes_of_hex_of_bytes (bs : bytes) : bytes_of_hex (hex_of_bytes bs) = Some bs.
Proof.
  induction bs as [|b bs IH]; [reflexivity|].
  pose proof (to_N_lt b) as Hb.
  cbn [hex_of_bytes hex_of_byte append bytes_of_hex].
  rewrite !hexval_hexchar, IH.
  - f_equal. f_equal. rewrite <- (byte_of_to_N b) at 3. f_equal.
    rewrite (N.div_mod (Byte.to_N b) 16) at 3 by lia. reflexivity.
  - apply N.mod_lt. lia.
  - apply N.Div0.div_lt_upper_bound. lia.
Qed.

Lemma hexToBytes_bytesToHex (bs : bytes) : hexToBytes (bytesToHex bs) = Ok bs.
Proof.
  unfold hexToBytes, bytesToHex. cbn [append Js.drop].
  rewrite length_hex_of_bytes.
  replace (Nat.odd (2 * List.length bs)) with false.
  - now rewrite bytes_of_hex_of_bytes.
  - symmetry. rewrite <- Nat.negb_even. now rewrite Nat.even_mul.
Qed.

Lemma h2b_hex_of_bytes (bs : bytes) : h2b (hex_of_bytes bs) = Ok bs.
Proof. unfold h2b. now rewrite bytes_of_hex_of_bytes. Qed.

Lemma toLowerCase_hex_of_bytes (bs : bytes) :
  Js.toLowerCase (hex_of_bytes bs) = hex_of_bytes bs.
Proof.
  induction bs as [|b bs IH]; [reflexivity|].
  cbn [hex_of_bytes hex_of_byte append Js.toLowerCase].
  now rewrite !lower_hexchar, IH.
Qed.

Lemma toLowerCase_bytesToHex (bs : bytes) :
  Js.toLowerCase (bytesToHex bs) = bytesToHex bs.
Proof. unfold bytesToHex. cbn. now rewrite toLowerCase_hex_of_bytes. Qed.

(** ** Big-endian values *)

Lemma b2n_from_spec (bs : bytes) (acc : Z) :
  b2n_from acc bs = acc * 256 ^ Z.of_nat (List.length bs) + b2n bs.
Proof.
  unfold b2n, b2n_from. revert acc.
  induction bs as [|b bs IH]; intros acc.
  - simpl. lia.
  - cbn [fold_left List.length]. rewrite IH, (IH (0 * 256 + _)).
    rewrite Nat2Z.inj_succ, Z.pow_succ_r by lia. ring.
Qed.

Lemma b2n_cons (b : byte) (bs : bytes) :
  b2n (b :: bs) = Z.of_N (Byte.to_N b) * 256 ^ Z.of_nat (List.length bs) + b2n bs.
Proof.
  change (b2n (b :: bs)) with (b2n_from (0 * 256 + Z.of_N (Byte.to_N b)) bs).
  rewrite b2n_from_spec. ring.
Qed.

Lemma b2n_snoc (bs : bytes) (b : byte) :
  b2n (bs ++ [b])%list = b2n bs * 256 + Z.of_N (Byte.to_N b).
Proof. unfold b2n. now rewrite fold_left_app. Qed.

Lemma b2n_range (bs : bytes) : 0 <= b2n bs < 256 ^ Z.of_nat (List.length bs).
Proof.
  induction bs as [|b bs IH] using rev_ind.
  - simpl. unfold b2n. simpl. lia.
  - rewrite b2n_snoc, length_app, Nat2Z.inj_add, Z.pow_add_r by lia.
    pose proof (to_N_lt b). simpl (Z.of_nat (List.length [b])).
    change (256 ^ 1) with 256. lia.
Qed.

Lemma length_n2b (k : nat) (z : Z) : List.length (n2b k z) = k.
Proof.
  revert z; induction k as [|k IH]; intros z; [reflexivity|].
  cbn [n2b]. rewrite length_app, IH. simpl. lia.
Qed.

Lemma b2n_n2b (k : nat) (z : Z) : 0 <= z < 256 ^ Z.of_nat k -> b2n (n2b k z) = z.
Proof.
  revert z; induction k as [|k IH]; intros z Hz.
  - simpl in Hz. unfold b2n. simpl. lia.
  - cbn [n2b]. rewrite b2n_snoc.
    rewrite Nat2Z.inj_succ, Z.pow_succ_r in Hz by lia.
    rewrite IH.
    + rewrite byte_to_of_N.
      * rewrite Z2N.id by (apply Z.mod_pos_bound; lia).
        rewrite (Z.div_mod z 256) at 3 by lia. ring.
      * pose proof (Z.mod_pos_bound z 256). lia.
    + split; [apply Z.div_pos; lia | apply Z.div_lt_upper_bound; lia].
Qed.

Lemma n2b_b2n (bs : bytes) : n2b (List.length bs) (b2n bs) = bs.
Proof.
  induction bs as [|b bs IH] using rev_ind; [reflexivity|].
  rewrite length_app, Nat.add_comm. cbn [List.length Nat.add n2b].
  rewrite b2n_snoc. pose proof (to_N_lt b) as Hb.
  replace ((b2n bs * 256 + Z.of_N (Byte.to_N b)) / 256) with (b2n bs).
  - rewrite IH. f_equal. f_equal.
    replace ((b2n bs * 256 + Z.of_N (Byte.to_N b)) mod 256) with (Z.of_N (Byte.to_N b)).
    + rewrite N2Z.id. apply byte_of_to_N.
    + symmetry. rewrite Z.add_comm, Z.mod_add by lia. apply Z.mod_small. lia.
  - symmetry. rewrite Z.add_comm, Z.div_add by lia. rewrite Z.div_small; lia.
Qed.

(** A byte array of a given length is determined by its value. *)
Lemma b2n_inj (a b : bytes) :
  List.length a = List.length b -> b2n a = b2n b -> a = b.
Proof.
  intros Hl Hv. rewrite <- (n2b_b2n a), <- (n2b_b2n b). now rewrite Hl, Hv.
Qed.

(** ** Hex digits of an integer *)

Lemma length_hexn (n : nat) (z : Z) : String.length (hexn n z) = n.
Proof.
  revert z; induction n as [|n IH]; intros z; [reflexivity|].
  cbn [hexn]. rewrite slength_app, IH. simpl. lia.
Qed.

Lemma hexn_zero (n : nat) : hexn n 0 = Js.repeat_char "0" n.
Proof.
  induction n as [|n IH]; [reflexivity|].
  cbn [hexn]. change (0 / 16) with 0. rewrite IH.
  clear IH. induction n as [|n IH]; [reflexivity|].
  cbn [Js.repeat_char append] in *. now rewrite IH.
Qed.

Lemma hexn_small (n m : nat) (z : Z) :
  (m <= n)%nat -> 0 <= z < 16 ^ Z.of_nat m ->
  hexn n z = Js.repeat_char "0" (n - m) ++ hexn m z.
Proof.
  revert m z; induction n as [|n IH]; intros m z Hm Hz.
  - assert (m = 0)%nat by lia. subst. reflexivity.
  - destruct m as [|m].
    + simpl in Hz. assert (z = 0) by lia. subst z.
      rewrite hexn_zero. cbn [hexn]. now rewrite app_empty_r.
    + cbn [hexn]. rewrite Nat2Z.inj_succ, Z.pow_succ_r in Hz by lia.
      rewrite (IH m (z / 16)).
      * rewrite app_assoc_s. reflexivity.
      * lia.
      * split; [apply Z.div_pos; lia | apply Z.div_lt_upper_bound; lia].
Qed.

Lemma hex_digits_spec (fuel : nat) (z : Z) (acc : string) :
  (1 <= fuel)%nat -> 0 <= z < 16 ^ Z.of_nat fuel ->
  exists m, (1 <= m <= fuel)%nat /\ z < 16 ^ Z.of_nat m /\
            (m = 1%nat \/ 16 ^ (Z.of_nat m - 1) <= z) /\
            hex_digits fuel z acc = hexn m z ++ acc.
Proof.
  revert z acc; induction fuel as [|fuel IH]; intros z acc Hf Hz; [lia|].
  cbn [hex_digits]. destruct (Z.ltb_spec z 16) as [Hs|Hs].
  - exists 1%nat. split; [lia|]. split; [simpl; lia|]. split; [now left | reflexivity].
  - rewrite Nat2Z.inj_succ, Z.pow_succ_r in Hz by lia.
    assert (Hq : 0 <= z / 16 < 16 ^ Z.of_nat fuel)
      by (split; [apply Z.div_pos; lia | apply Z.div_lt_upper_bound; lia]).
    assert (1 <= z / 16) by (apply Z.div_le_lower_bound; lia).
    assert (1 <= fuel)%nat by (destruct fuel; [simpl in Hq; lia | lia]).
    destruct (IH (z / 16) (String (hexchar (Z.to_N (z mod 16))) acc))
        as (m & Hm & Hlt & Hmin & E); [assumption | assumption |].
      * pose proof (Z.mul_div_le z 16 ltac:(lia)) as Hle.
        pose proof (Z.mod_pos_bound z 16 ltac:(lia)) as Hmod.
        pose proof (Z.div_mod z 16 ltac:(lia)) as Hdm.
        exists (S m). repeat split; try lia.
        -- rewrite Nat2Z.inj_succ, Z.pow_succ_r by lia. lia.
        -- right. replace (Z.of_nat (S m) - 1) with (Z.of_nat m) by lia.
           destruct Hmin as [->|Hmin]; [simpl; lia|].
           replace (Z.of_nat m) with (Z.succ (Z.of_nat m - 1)) by lia.
           rewrite Z.pow_succ_r by lia. lia.
        -- rewrite E. cbn [hexn]. now rewrite app_assoc_s.
Qed.

Lemma toString16_fuel (z : Z) :
  0 <= z -> 0 <= z < 16 ^ Z.of_nat (S (Z.to_nat (Z.log2 z))).
Proof.
  intros Hz. split; [lia|].
  pose proof (Z.log2_nonneg z) as Hl.
  rewrite Nat2Z.inj_succ, Z2Nat.id by lia.
  destruct (Z.eq_dec z 0) as [->|Hn]; [simpl; lia|].
  pose proof (Z.log2_spec z ltac:(lia)) as [_ Hu].
  eapply Z.lt_le_trans; [exact Hu|].
  change 16 with (2 ^ 4). rewrite <- Z.pow_mul_r by lia.
  apply Z.pow_le_mono_r; lia.
Qed.

(** [z.toString(16).padStart(n, '0')] is the [n]-digit representation of
    [z] when it fits. *)
Lemma padStart_toString16 (n : nat) (z : Z) :
  (1 <= n)%nat -> 0 <= z < 16 ^ Z.of_nat n ->
  Js.padStart n "0" (toString16 z) = hexn n z.
Proof.
  intros Hn Hz. unfold toString16.
  destruct (Z.ltb_spec z 0) as [Hneg|_]; [lia|].
  pose proof (toString16_fuel z ltac:(lia)) as Hf.
  destruct (hex_digits_spec (S (Z.to_nat (Z.log2 z))) z "" ltac:(lia) Hf)
    as (m & Hm & Hlt & Hmin & E).
  rewrite E, app_empty_r. unfold Js.padStart. rewrite length_hexn.
  assert (m <= n)%nat.
  { destruct Hmin as [->|Hmin]; [lia|].
    destruct (Nat.le_gt_cases m n) as [|Hgt]; [assumption|exfalso].
    assert (16 ^ Z.of_nat n <= 16 ^ (Z.of_nat m - 1)) by (apply Z.pow_le_mono_r; lia).
    lia. }
  symmetry. apply hexn_small; lia.
Qed.

Lemma hexn_bytes (k : nat) (z : Z) : hexn (2 * k) z = hex_of_bytes (n2b k z).
Proof.
  revert z; induction k as [|k IH]; intros z; [reflexivity|].
  replace (2 * S k)%nat with (S (S (2 * k))) by lia.
  cbn [hexn n2b]. rewrite hex_of_bytes_app, Z.div_div by lia.
  change (16 * 16) with 256. rewrite IH, app_assoc_s. f_equal.
  cbn [hex_of_bytes hex_of_byte append].
  pose proof (Z.mod_pos_bound z 256 ltac:(lia)) as Hb.
  rewrite byte_to_of_N by lia.
  f_equal; [|f_equal]; f_equal.
  - change 16%N with (Z.to_N 16). rewrite <- Z2N.inj_div by lia. f_equal.
    change 256 with (16 * 16). rewrite Z.rem_mul_r by lia.
    rewrite Z.mul_comm, Z.div_add by lia.
    rewrite (Z.div_small (z mod 16)) by (apply Z.mod_pos_bound; lia). lia.
  - change 16%N with (Z.to_N 16). rewrite <- Z2N.inj_mod by lia. f_equal.
    change 256 with (16 * 16). rewrite Z.rem_mul_r by lia.
    rewrite Z.mul_comm, Z.mod_add by lia. now rewrite Z.mod_mod by lia.
Qed.

(** The 32-byte hex string the code returns for a scalar below [2^256]. *)
Lemma padStart64_bytes (z : Z) :
  0 <= z < 256 ^ 32 ->
  "0x" ++ Js.padStart 64 "0" (toString16 z) = bytesToHex (n2b 32 z).
Proof.
  intros Hz. unfold bytesToHex. f_equal.
  rewrite padStart_toString16; [apply (hexn_bytes 32) | lia |].
  change (16 ^ Z.of_nat 64) with (256 ^ 32). exact Hz.
Qed.

(** ** [BigInt] of a hex string *)

Lemma parse_hex_bytes (bs : bytes) (acc : Z) :
  parse_radix 16 (hex_of_bytes bs) acc = Some (b2n_from acc bs).
Proof.
  revert acc; induction bs as [|b bs IH]; intros acc; [reflexivity|].
  pose proof (to_N_lt b) as Hb.
  assert (Hlo : (Byte.to_N b mod 16 < 16)%N) by (apply N.mod_lt; lia).
  assert (Hhi : (Byte.to_N b / 16 < 16)%N) by (apply N.Div0.div_lt_upper_bound; lia).
  cbn [hex_of_bytes hex_of_byte append parse_radix].
  rewrite !hexval_hexchar by assumption.
  destruct (Z.ltb_spec (Z.of_N (Byte.to_N b / 16)) 16) as [_|]; [|lia].
  destruct (Z.ltb_spec (Z.of_N (Byte.to_N b mod 16)) 16) as [_|]; [|lia].
  rewrite IH. unfold b2n_from. cbn [fold_left]. f_equal. f_equal.
  rewrite (N.div_mod (Byte.to_N b) 16) at 3 by lia.
  rewrite N2Z.inj_add, N2Z.inj_mul. simpl (Z.of_N 16). ring.
Qed.

(** No hex digit is white space, so [BigInt] trims nothing off a hex
    string. *)
Lemma whiteSpaceLength_plain (c : ascii) (s : string) :
  isAscii c = true -> isWhiteSpace c = false -> whiteSpaceLength (String c s) = 0%nat.
Proof.
  unfold isAscii. intros Ha Hw. apply N.ltb_lt in Ha.
  unfold whiteSpaceLength. rewrite Hw.
  destruct s as [|c1 [|c2 s2]]; [reflexivity| |];
    repeat match goal with
           | |- context [(N_of_ascii c =? ?k)%N] =>
               destruct (N.eqb_spec (N_of_ascii c) k) as [E|_]; [lia|]
           end; reflexivity.
Qed.

Lemma trimStart_plain (c : ascii) (s : string) :
  isAscii c = true -> isWhiteSpace c = false -> trimStart (String c s) = String c s.
Proof.
  intros Ha Hw. unfold trimStart. cbn [String.length trimStartFrom].
  now rewrite (whiteSpaceLength_plain c s Ha Hw).
Qed.

Lemma trimStart_noWhiteSpace (s : string) : noWhiteSpace s = true -> trimStart s = s.
Proof.
  destruct s as [|c s]; [reflexivity|]. cbn [noWhiteSpace].
  intros H. apply andb_true_iff in H as [H _]. apply andb_true_iff in H as [Ha Hw].
  apply trimStart_plain; [exact Ha | now destruct (isWhiteSpace c)].
Qed.

Lemma trimEnd_noWhiteSpace (s : string) : noWhiteSpace s = true -> trimEnd s = s.
Proof.
  induction s as [|c s IH]; [reflexivity|]. intros H.
  cbn [trimEnd]. rewrite (trimStart_noWhiteSpace _ H).
  cbn [noWhiteSpace] in H. apply andb_true_iff in H as [_ Hs].
  cbn [String.eqb]. now rewrite (IH Hs).
Qed.

Lemma trim_noWhiteSpace (s : string) : noWhiteSpace s = true -> trim s = s.
Proof.
  intros H. unfold trim. now rewrite (trimStart_noWhiteSpace s H), (trimEnd_noWhiteSpace s H).
Qed.

Lemma noWhiteSpace_app (s t : string) :
  noWhiteSpace (s ++ t) = (noWhiteSpace s && noWhiteSpace t)%bool.
Proof.
  induction s as [|c s IH]; [reflexivity|]. cbn [append noWhiteSpace].
  now rewrite IH, !andb_assoc.
Qed.

Lemma noWhiteSpace_hexchar (d : N) :
  (isAscii (hexchar d) && negb (isWhiteSpace (hexchar d)))%bool = true.
Proof.
  destruct d as [|p]; [reflexivity|].
  do 5 (try (destruct p as [p|p|]; try reflexivity)).
Qed.

Lemma noWhiteSpace_hex_of_bytes (bs : bytes) : noWhiteSpace (hex_of_bytes bs) = true.
Proof.
  induction bs as [|b bs IH]; [reflexivity|].
  cbn [hex_of_bytes hex_of_byte append noWhiteSpace].
  now rewrite !noWhiteSpace_hexchar, IH.
Qed.

Lemma BigInt_bytesToHex (bs : bytes) : bs <> [] -> BigInt (bytesToHex bs) = Ok (b2n bs).
Proof.
  intros Hne. unfold BigInt, StringToBigInt, bytesToHex.
  assert (Hw : noWhiteSpace ("0x" ++ hex_of_bytes bs) = true)
    by (cbn [append noWhiteSpace]; apply noWhiteSpace_hex_of_bytes).
  rewrite (trim_noWhiteSpace _ Hw).
  cbn [append]. change (Ascii.eqb "x" "x") with true. cbn [orb].
  unfold parse_digits.
  destruct bs as [|b bs]; [contradiction|].
  replace (String.eqb (hex_of_bytes (b :: bs)) "") with false.
  - rewrite parse_hex_bytes. reflexivity.
  - symmetry. apply String.eqb_neq. cbn [hex_of_bytes hex_of_byte append]. discriminate.
Qed.

(** [BigInt] on the strings it accepts besides the hex strings, and
    [toString(16)] on both signs. *)
Example BigInt_numerals :
  BigInt "0x1F" = Ok 31 /\ BigInt "0X1f" = Ok 31 /\ BigInt "0b101" = Ok 5 /\
  BigInt "0o17" = Ok 15 /\ BigInt "42" = Ok 42 /\ BigInt "-5" = Ok (-5) /\
  BigInt "+5" = Ok 5 /\ BigInt "" = Ok 0 /\ BigInt "  12 " = Ok 12 /\
  BigInt (BOM_text ++ "7") = Ok 7 /\
  BigInt "0x" = Err SyntaxError /\ BigInt "-0x10" = Err SyntaxError /\
  BigInt "1 2" = Err SyntaxError /\ BigInt "12n" = Err SyntaxError /\
  toString16 255 = "ff" /\ toString16 0 = "0" /\ toString16 (-255) = "-ff".
Proof. repeat split; reflexivity. Qed.

(* ================================================================== *)
(** * The computation monad *)

Lemma outcome_bind_ok {A B} (m : M A) (f : A -> M B) (a : A) :
  outcome m = Ok a -> outcome (bind m f) = outcome (f a).
Proof.
  destruct m as [t r]; simpl; intros ->. unfold bind. now destruct (f a).
Qed.

Lemma outcome_bind_err {A B} (m : M A) (f : A -> M B) (e : error) :
  outcome m = Err e -> outcome (bind m f) = Err e.
Proof. destruct m as [t r]; simpl; now intros ->. Qed.

Lemma trace_bind_ok {A B} (m : M A) (f : A -> M B) (a : A) :
  outcome m = Ok a -> trace (bind m f) = (trace m ++ trace (f a))%list.
Proof.
  destruct m as [t r]; simpl; intros ->. unfold bind. now destruct (f a).
Qed.

Lemma bind_ok {A B} (t : list op) (a : A) (f : A -> M B) :
  bind (t, Ok a) f = ((t ++ trace (f a))%list, outcome (f a)).
Proof. unfold bind, trace, outcome. now destruct (f a). Qed.

Lemma bind_err {A B} (t : list op) (e : error) (f : A -> M B) :
  bind (t, Err e) f = (t, Err e).
Proof. reflexivity. Qed.

Lemma M_eta {A} (m : M A) : m = (trace m, outcome m).
Proof. now destruct m. Qed.

(** An outcome of a bind is a value only if its first part is one. *)
Lemma outcome_bind_inv {A B} (m : M A) (f : A -> M B) (b : B) :
  outcome (bind m f) = Ok b -> exists a, outcome m = Ok a /\ outcome (f a) = Ok b.
Proof.
  destruct m as [t [a|e]]; [|discriminate].
  rewrite bind_ok. simpl. intros H. now exists a.
Qed.

(* ================================================================== *)
(** * The group of curve points *)

Section Group.
Context {L : Secp256k1} {LL : Secp256k1Laws L}.

Lemma iter_op_add (p q : positive) (a : point) :
  Pos.iter_op point_add (p + q) a =
  point_add (Pos.iter_op point_add p a) (Pos.iter_op point_add q a).
Proof.
  induction p as [|p IH] using Pos.peano_ind.
  - rewrite Pos.add_1_l, Pos.iter_op_succ by apply point_add_assoc. reflexivity.
  - rewrite Pos.add_succ_l, !Pos.iter_op_succ, IH by apply point_add_assoc.
    apply point_add_assoc.
Qed.

Lemma iter_op_mul (p q : positive) (a : point) :
  Pos.iter_op point_add q (Pos.iter_op point_add p a) = Pos.iter_op point_add (p * q) a.
Proof.
  induction q as [|q IH] using Pos.peano_ind.
  - now rewrite Pos.mul_1_r.
  - rewrite Pos.iter_op_succ, IH by apply point_add_assoc.
    rewrite Pos.mul_succ_r, iter_op_add. reflexivity.
Qed.

Lemma multiply_add (p : point) (a b : Z) :
  0 < a -> 0 < b -> multiply p (a + b) = point_add (multiply p a) (multiply p b).
Proof.
  intros Ha Hb. destruct a as [|a|a], b as [|b|b]; try lia. apply iter_op_add.
Qed.

Lemma multiply_multiply (p : point) (a b : Z) :
  0 < a -> 0 < b -> multiply (multiply p a) b = multiply p (a * b).
Proof.
  intros Ha Hb. destruct a as [|a|a], b as [|b|b]; try lia. apply iter_op_mul.
Qed.

(** Diffie-Hellman: both sides reach the same point. *)
Lemma multiply_comm (p : point) (a b : Z) :
  0 < a -> 0 < b -> multiply (multiply p a) b = multiply (multiply p b) a.
Proof.
  intros Ha Hb. rewrite !multiply_multiply by assumption. now rewrite Z.mul_comm.
Qed.

(** Scalars act modulo the order of the base point. *)
Lemma multiply_BASE_mod (a b : Z) :
  0 < a < CURVE_ORDER -> 0 < b < CURVE_ORDER -> (a + b) mod CURVE_ORDER <> 0 ->
  multiply BASE ((a + b) mod CURVE_ORDER) =
  point_add (multiply BASE a) (multiply BASE b).
Proof.
  intros Ha Hb Hr.
  rewrite <- multiply_add by lia.
  assert (Hn : 0 < CURVE_ORDER) by reflexivity.
  pose proof (Z.mod_pos_bound (a + b) CURVE_ORDER Hn) as Hm.
  destruct (Z.lt_ge_cases (a + b) CURVE_ORDER) as [Hlt|Hge].
  - now rewrite Z.mod_small by lia.
  - assert (E : (a + b) mod CURVE_ORDER = a + b - CURVE_ORDER).
    { symmetry. apply Z.mod_unique with 1; lia. }
    replace (a + b) with ((a + b) mod CURVE_ORDER + CURVE_ORDER) at 2 by lia.
    rewrite multiply_add, BASE_order, point_add_ZERO_r by lia. reflexivity.
Qed.

End Group.

(* ================================================================== *)
(** * The meta-address codec *)

Lemma isPublicKeyHex_bytesToHex (b : bytes) :
  List.length b = 33%nat -> isPublicKeyHex (bytesToHex b).
Proof.
  intros H. split; [reflexivity|].
  unfold bytesToHex. cbn [append String.length]. rewrite length_hex_of_bytes, H. reflexivity.
Qed.

Lemma isPublicKeyHex_split (k : string) :
  isPublicKeyHex k -> exists a, k = "0x" ++ a /\ String.length a = 66%nat.
Proof.
  intros [Hp Hl]. exists (Js.drop 2 k). split.
  - rewrite <- Hp. symmetry. apply take_drop.
  - rewrite length_drop, Hl. reflexivity.
Qed.

Lemma take_hex_of_bytes (k : nat) (b : bytes) :
  (k <= List.length b)%nat ->
  Js.take (2 * k) (hex_of_bytes b) = hex_of_bytes (firstn k b).
Proof.
  intros Hle. rewrite <- (firstn_skipn k b) at 1. rewrite hex_of_bytes_app.
  rewrite <- (take_app (hex_of_bytes (firstn k b)) (hex_of_bytes (skipn k b))) at 2.
  f_equal. rewrite length_hex_of_bytes, length_firstn. lia.
Qed.

Lemma drop_hex_of_bytes (k : nat) (b : bytes) :
  (k <= List.length b)%nat ->
  Js.drop (2 * k) (hex_of_bytes b) = hex_of_bytes (skipn k b).
Proof.
  intros Hle. rewrite <- (firstn_skipn k b) at 1. rewrite hex_of_bytes_app.
  rewrite <- (drop_app (hex_of_bytes (firstn k b)) (hex_of_bytes (skipn k b))) at 2.
  f_equal. rewrite length_hex_of_bytes, length_firstn. lia.
Qed.

Lemma parse_create_keys (keys : StealthKeys) :
  isPublicKeyHex (spendingPublicKey keys) ->
  isPublicKeyHex (viewingPublicKey keys) ->
  parseStealthMetaAddress (createStealthMetaAddress keys) =
  Ok {| meta_spendingPublicKey := spendingPublicKey keys;
        meta_viewingPublicKey := viewingPublicKey keys |}.
Proof.
  intros Hs Hv.
  destruct (isPublicKeyHex_split _ Hs) as (a & Ea & La).
  destruct (isPublicKeyHex_split _ Hv) as (b & Eb & Lb).
  unfold parseStealthMetaAddress, createStealthMetaAddress. cbv zeta.
  rewrite Ea, Eb.
  change (Js.drop 2 ("0x" ++ a)) with a. change (Js.drop 2 ("0x" ++ b)) with b.
  change (Js.drop 2 ("0x" ++ a ++ b)) with (a ++ b).
  rewrite slength_app, La, Lb. cbn [Nat.add Nat.eqb negb].
  unfold Js.slice. change (Js.drop 0 (a ++ b)) with (a ++ b).
  change (66 - 0)%nat with 66%nat.
  rewrite <- La. now rewrite take_app, drop_app.
Qed.

(** C6.  Decoding the meta-address built from a key pair returns the two
    public keys of the pair, for every pair whose public keys are 33-byte
    compressed keys in hex. *)
Theorem parse_create_roundtrip (keys : StealthKeys) :
  isPublicKeyHex (spendingPublicKey keys) ->
  isPublicKeyHex (viewingPublicKey keys) ->
  parseStealthMetaAddress (createStealthMetaAddress keys) =
  Ok {| meta_spendingPublicKey := spendingPublicKey keys;
        meta_viewingPublicKey := viewingPublicKey keys |}.
Proof. exact (parse_create_keys keys). Qed.

Lemma parse_create_roundtrip_witness :
  parseStealthMetaAddress (createStealthMetaAddress (Cyclic.keysOf 3 5)) =
  Ok {| meta_spendingPublicKey := spendingPublicKey (Cyclic.keysOf 3 5);
        meta_viewingPublicKey := viewingPublicKey (Cyclic.keysOf 3 5) |}.
Proof.
  apply (parse_create_roundtrip (Cyclic.keysOf 3 5)); split; reflexivity.
Defined.

(** C7.  [parseStealthMetaAddress] looks at the length of its input and at
    nothing else.  On any string: 66 characters after the prefix give the
    same key twice, 132 give the two halves, every other length is the
    [InvalidMetaAddressLength] error.  On the hex of a byte array: 33 bytes
    give the key twice, 66 bytes give the first and the last 33 bytes,
    every other length is the error.  The content is never inspected, so a
    key that is no curve point is returned as it stands. *)
Theorem parseStealthMetaAddress_lengths :
  (forall metaAddress : string,
     parseStealthMetaAddress metaAddress =
     let cleaned := Js.drop 2 metaAddress in
     if (String.length cleaned =? 66)%nat then
       Ok {| meta_spendingPublicKey := "0x" ++ cleaned;
             meta_viewingPublicKey := "0x" ++ cleaned |}
     else if (String.length cleaned =? 132)%nat then
       Ok {| meta_spendingPublicKey := "0x" ++ Js.take 66 cleaned;
             meta_viewingPublicKey := "0x" ++ Js.drop 66 cleaned |}
     else Err InvalidMetaAddressLength) /\
  (forall b : bytes,
     parseStealthMetaAddress (bytesToHex b) =
     if (List.length b =? 33)%nat then
       Ok {| meta_spendingPublicKey := bytesToHex b;
             meta_viewingPublicKey := bytesToHex b |}
     else if (List.length b =? 66)%nat then
       Ok {| meta_spendingPublicKey := bytesToHex (firstn 33 b);
             meta_viewingPublicKey := bytesToHex (skipn 33 b) |}
     else Err InvalidMetaAddressLength).
Proof.
  split.
  - intros metaAddress. unfold parseStealthMetaAddress. cbv zeta.
    destruct (String.length (Js.drop 2 metaAddress) =? 66)%nat; [reflexivity|].
    destruct (String.length (Js.drop 2 metaAddress) =? 132)%nat; reflexivity.
  - intros b. unfold parseStealthMetaAddress, bytesToHex. cbv zeta.
    change (Js.drop 2 ("0x" ++ hex_of_bytes b)) with (hex_of_bytes b).
    rewrite length_hex_of_bytes.
    destruct (Nat.eqb_spec (List.length b) 33) as [E33|N33].
    + rewrite E33. reflexivity.
    + destruct (Nat.eqb_spec (2 * List.length b) 66) as [E|_]; [lia|].
      destruct (Nat.eqb_spec (List.length b) 66) as [E66|N66].
      * rewrite E66. cbn [Nat.mul Nat.add Nat.eqb negb].
        pose proof (take_hex_of_bytes 33 b ltac:(lia)) as Ht.
        pose proof (drop_hex_of_bytes 33 b ltac:(lia)) as Hd.
        change (2 * 33)%nat with 66%nat in Ht, Hd.
        unfold Js.slice. change (Js.drop 0 (hex_of_bytes b)) with (hex_of_bytes b).
        change (66 - 0)%nat with 66%nat.
        rewrite Ht, Hd. reflexivity.
      * destruct (Nat.eqb_spec (2 * List.length b) 132) as [E|_]; [lia|]. reflexivity.
Qed.

(* ================================================================== *)
(** * Announcement metadata *)

Lemma slice_2_4_bytesToHex (t : byte) (rest : bytes) :
  "0x" ++ Js.slice 2 4 (bytesToHex (t :: rest)) = bytesToHex [t].
Proof. reflexivity. Qed.

(** C9, as the code has it.  [createAnnouncementMetadata] puts the view
    tag first and the extra bytes, unchanged, after it; [extractViewTag]
    returns the first byte of metadata that has one.  On empty metadata
    [extractViewTag] does not fail: it returns the empty hex string. *)
Theorem metadata_view_tag_first :
  (forall (t : byte) (extra : bytes),
     createAnnouncementMetadata (bytesToHex [t]) (Some (bytesToHex extra)) =
     bytesToHex (t :: extra)) /\
  (forall t : byte,
     createAnnouncementMetadata (bytesToHex [t]) None = bytesToHex [t]) /\
  (forall (t : byte) (rest : bytes),
     extractViewTag (bytesToHex (t :: rest)) = bytesToHex [t]) /\
  extractViewTag (bytesToHex []) = bytesToHex [].
Proof.
  repeat split; intros; reflexivity.
Qed.

(** C9, counterexample to the failure on empty metadata: the call on the
    zero-byte metadata [0x] returns the string [0x]. *)
Lemma extractViewTag_empty_returns :
  extractViewTag "0x" = "0x" /\
  createAnnouncementMetadata (extractViewTag "0x") None = "0x".
Proof. split; reflexivity. Qed.

(* ================================================================== *)
(** * The stealth-address engine *)

Section Engine.
Context {L : Secp256k1} {LL : Secp256k1Laws L}.

Lemma isValidPrivateKey_spec (k : bytes) :
  isValidPrivateKey k = true <->
  List.length k = 32%nat /\ 0 < b2n k < CURVE_ORDER.
Proof.
  unfold isValidPrivateKey. rewrite !andb_true_iff, Nat.eqb_eq, !Z.ltb_lt. tauto.
Qed.

Lemma toPriv_valid (k : bytes) : isValidPrivateKey k = true -> toPriv k = Ok (b2n k).
Proof. unfold toPriv. now intros ->. Qed.

Lemma toPriv_invalid (k : bytes) :
  isValidPrivateKey k = false -> toPriv k = Err InvalidPrivateKey.
Proof. unfold toPriv. now intros ->. Qed.

Lemma toPriv_inv (k : bytes) (n : Z) :
  toPriv k = Ok n -> isValidPrivateKey k = true /\ n = b2n k.
Proof.
  unfold toPriv. destruct (isValidPrivateKey k); [|discriminate].
  intros [= <-]. now split.
Qed.

(** Every point but the point at infinity is encoded, and the point at
    infinity is not. *)
Lemma toRawBytes_encoding (isCompressed : bool) (p : point) :
  p <> ZERO -> toRawBytes isCompressed p = Some (encoding isCompressed p).
Proof.
  intros Hp. unfold encoding.
  destruct (toRawBytes isCompressed p) eqn:E; [reflexivity|].
  now apply toRawBytes_nonzero in E.
Qed.

Lemma toRawBytes_inv (isCompressed : bool) (p : point) (b : bytes) :
  toRawBytes isCompressed p = Some b -> p <> ZERO /\ b = encoding isCompressed p.
Proof.
  intros E. split.
  - intros ->. now rewrite toRawBytes_ZERO in E.
  - unfold encoding. now rewrite E.
Qed.

(** The public point of a valid private key is not the point at
    infinity, so it is encoded and its compressed encoding decodes to it. *)
Lemma publicPoint_nonzero (k : bytes) :
  isValidPrivateKey k = true -> multiply BASE (b2n k) <> ZERO.
Proof.
  intros Hk. apply isValidPrivateKey_spec in Hk as [_ Hr].
  now apply BASE_multiple_nonzero.
Qed.

Lemma toRawBytes_publicKey (isCompressed : bool) (k : bytes) :
  isValidPrivateKey k = true ->
  toRawBytes isCompressed (multiply BASE (b2n k)) =
  Some (encoding isCompressed (multiply BASE (b2n k))).
Proof. intros Hk. now apply toRawBytes_encoding, publicPoint_nonzero. Qed.

Lemma length_publicKey (k : bytes) :
  isValidPrivateKey k = true ->
  List.length (encoding true (multiply BASE (b2n k))) = 33%nat.
Proof. intros Hk. exact (length_toRawBytes _ _ (toRawBytes_publicKey true k Hk)). Qed.

Lemma fromHex_publicKey (k : bytes) :
  isValidPrivateKey k = true ->
  fromHex (encoding true (multiply BASE (b2n k))) = Some (multiply BASE (b2n k)).
Proof. intros Hk. apply fromHex_toRawBytes. now apply toRawBytes_publicKey. Qed.

Lemma getPublicKey_valid (k : bytes) (isCompressed : bool) :
  isValidPrivateKey k = true ->
  getPublicKey k isCompressed =
  ([OpGetPublicKey], Ok (encoding isCompressed (multiply BASE (b2n k)))).
Proof.
  intros Hk. unfold getPublicKey.
  now rewrite (toPriv_valid k Hk); run; rewrite (toRawBytes_publicKey _ k Hk).
Qed.

(** The shared secret of a private key and the public key of another: the
    encoding of the product, which the library refuses when the product is
    the point at infinity. *)
Lemma getSharedSecret_valid (a b : bytes) :
  isValidPrivateKey a = true -> isValidPrivateKey b = true ->
  getSharedSecret a (encoding true (multiply BASE (b2n b))) =
  ([OpGetSharedSecret],
   of_option PointAtInfinity (toRawBytes true (multiply BASE (b2n b * b2n a)))).
Proof.
  intros Ha Hb. unfold getSharedSecret.
  rewrite (fromHex_publicKey b Hb), (toPriv_valid a Ha). run.
  apply isValidPrivateKey_spec in Ha as [_ Ha], Hb as [_ Hb].
  now rewrite multiply_multiply by lia.
Qed.

(** ECDH symmetry: [a * (b * G)] and [b * (a * G)] are the same shared
    secret. *)
Lemma getSharedSecret_symmetry (a b : bytes) :
  isValidPrivateKey a = true -> isValidPrivateKey b = true ->
  getSharedSecret a (encoding true (multiply BASE (b2n b))) =
  getSharedSecret b (encoding true (multiply BASE (b2n a))).
Proof.
  intros Ha Hb. rewrite !getSharedSecret_valid by assumption.
  now rewrite Z.mul_comm.
Qed.

(** The shared secret that a run returned from a public key. *)
Lemma getSharedSecret_returned (a b ss : bytes) :
  isValidPrivateKey a = true -> isValidPrivateKey b = true ->
  outcome (getSharedSecret a (encoding true (multiply BASE (b2n b)))) = Ok ss ->
  ss = encoding true (multiply BASE (b2n b * b2n a)).
Proof.
  intros Ha Hb. rewrite (getSharedSecret_valid a b Ha Hb). cbn [outcome snd].
  destruct (toRawBytes true _) as [x|] eqn:E; [|discriminate].
  intros [= <-]. now apply toRawBytes_inv in E.
Qed.

(** What a run of [getSharedSecret] that returns has computed. *)
Lemma getSharedSecret_inv (priv pub ss : bytes) :
  outcome (getSharedSecret priv pub) = Ok ss ->
  getSharedSecret priv pub = ([OpGetSharedSecret], Ok ss).
Proof. unfold getSharedSecret, call, outcome. simpl. now intros ->. Qed.

(** The keys that [generateRandomKeys] returns. *)
Lemma generateRandomKeys_inv (sk vk : bytes) (keys : StealthKeys) :
  outcome (generateRandomKeys sk vk) = Ok keys ->
  isValidPrivateKey sk = true /\ isValidPrivateKey vk = true /\
  keys = {| spendingPrivateKey := bytesToHex sk;
            spendingPublicKey := bytesToHex (encoding true (multiply BASE (b2n sk)));
            viewingPrivateKey := bytesToHex vk;
            viewingPublicKey := bytesToHex (encoding true (multiply BASE (b2n vk))) |}.
Proof.
  unfold generateRandomKeys.
  destruct (isValidPrivateKey sk) eqn:Hs.
  2:{ unfold getPublicKey. now rewrite (toPriv_invalid sk Hs). }
  rewrite (getPublicKey_valid sk true Hs). run.
  destruct (isValidPrivateKey vk) eqn:Hv.
  2:{ unfold getPublicKey. now rewrite (toPriv_invalid vk Hv). }
  rewrite (getPublicKey_valid vk true Hv). run. cbn. intros [= <-]. auto.
Qed.

Lemma generateRandomKeys_valid (sk vk : bytes) :
  isValidPrivateKey sk = true -> isValidPrivateKey vk = true ->
  exists keys, outcome (generateRandomKeys sk vk) = Ok keys.
Proof.
  intros Hs Hv. unfold generateRandomKeys.
  rewrite !getPublicKey_valid by assumption. run. cbn. eauto.
Qed.

(** The view tag the code computes from the digest [h]: its first byte. *)
Lemma computed_view_tag (h : bytes) :
  List.length h = 32%nat ->
  "0x" ++ Js.slice 2 4 (bytesToHex h) = bytesToHex [List.hd x00 h].
Proof. destruct h as [|t rest]; [discriminate | reflexivity]. Qed.

(** An announced tag that spells the computed tag, in either case, is the
    first byte of the digest. *)
Lemma view_tag_match (h : bytes) (announcedViewTag : string) :
  List.length h = 32%nat ->
  String.eqb (Js.toLowerCase ("0x" ++ Js.slice 2 4 (bytesToHex h)))
             (Js.toLowerCase announcedViewTag) = true ->
  hexToBytes announcedViewTag = Ok [List.hd x00 h].
Proof.
  intros Hl He. apply String.eqb_eq in He.
  rewrite (computed_view_tag h Hl), toLowerCase_bytesToHex in He.
  rewrite <- hexToBytes_lower, <- He. apply hexToBytes_bytesToHex.
Qed.

(** ** Runs of [checkStealthAddress] *)

(** The fast path: a view tag that is not the first byte of the digest
    ends the run after the shared secret and its hash. *)
Lemma checkStealthAddress_mismatch
    (ephemeralPublicKey spendingPublicKey viewingPrivateKey announcedAddress
     announcedViewTag : string) (vb eb ss : bytes) :
  hexToBytes viewingPrivateKey = Ok vb ->
  hexToBytes ephemeralPublicKey = Ok eb ->
  outcome (getSharedSecret vb eb) = Ok ss ->
  hexToBytes announcedViewTag <> Ok [List.hd x00 (keccak_256 ss)] ->
  checkStealthAddress ephemeralPublicKey spendingPublicKey viewingPrivateKey
    announcedAddress announcedViewTag = ([OpGetSharedSecret; OpKeccak256], Ok false).
Proof.
  intros Hv He Hs Ht. unfold checkStealthAddress.
  rewrite Hv, He. run. rewrite (getSharedSecret_inv _ _ _ Hs). run.
  unfold keccak256. run.
  destruct (String.eqb _ _) eqn:E.
  - exfalso. apply Ht. apply view_tag_match; [apply length_keccak_256 | exact E].
  - reflexivity.
Qed.

(** The slow path, up to the scalar of the digest. *)
Lemma checkStealthAddress_match
    (ephemeralPublicKey spendingPublicKey viewingPrivateKey announcedAddress
     announcedViewTag : string) (vb eb ss : bytes) :
  hexToBytes viewingPrivateKey = Ok vb ->
  hexToBytes ephemeralPublicKey = Ok eb ->
  outcome (getSharedSecret vb eb) = Ok ss ->
  String.eqb (Js.toLowerCase ("0x" ++ Js.slice 2 4 (bytesToHex (keccak_256 ss))))
             (Js.toLowerCase announcedViewTag) = true ->
  outcome (checkStealthAddress ephemeralPublicKey spendingPublicKey viewingPrivateKey
             announcedAddress announcedViewTag) =
  match rbind (h2b (Js.drop 2 spendingPublicKey))
          (fun b => of_option InvalidPoint (fromHex b)) with
  | Err e => Err e
  | Ok spendingPoint =>
      match toPriv (keccak_256 ss) with
      | Err e => Err e
      | Ok h =>
          match toRawBytes false (point_add spendingPoint (multiply BASE h)) with
          | None => Err PointAtInfinity
          | Some stealthPublicKey =>
              Ok (String.eqb
                    (Js.toLowerCase (address_of_publicKey (bytesToHex stealthPublicKey)))
                    (Js.toLowerCase announcedAddress))
          end
      end
  end.
Proof.
  intros Hv He Hs Ht. unfold checkStealthAddress.
  rewrite Hv, He. run. rewrite (getSharedSecret_inv _ _ _ Hs). run.
  unfold keccak256. run. rewrite Ht. cbn [negb].
  unfold ProjectivePoint_fromHex.
  destruct (rbind (h2b _) _) as [spendingPoint|e]; run; [|reflexivity].
  rewrite hexToBytes_bytesToHex. run.
  unfold ProjectivePoint_fromPrivateKey.
  destruct (toPriv (keccak_256 ss)) as [h|e]; run; [|reflexivity].
  unfold ProjectivePoint_add. run.
  destruct (toRawBytes false _) as [stealthPublicKey|]; run; reflexivity.
Qed.

(** ** Runs of [generateStealthAddress] *)

Lemma generateStealthAddress_run (recipientMetaAddress : string)
    (ephemeralPrivateKey rnd : bytes) (parsed : MetaAddressKeys) (vb ss : bytes) :
  parseStealthMetaAddress recipientMetaAddress = Ok parsed ->
  isValidPrivateKey ephemeralPrivateKey = true ->
  hexToBytes (meta_viewingPublicKey parsed) = Ok vb ->
  outcome (getSharedSecret ephemeralPrivateKey vb) = Ok ss ->
  outcome (generateStealthAddress recipientMetaAddress (Some ephemeralPrivateKey) rnd) =
  match rbind (h2b (Js.drop 2 (meta_spendingPublicKey parsed)))
          (fun b => of_option InvalidPoint (fromHex b)) with
  | Err e => Err e
  | Ok spendingPoint =>
      match toPriv (keccak_256 ss) with
      | Err e => Err e
      | Ok h =>
          match toRawBytes false (point_add spendingPoint (multiply BASE h)) with
          | None => Err PointAtInfinity
          | Some stealthPublicKey =>
              Ok {| stealthAddress := address_of_publicKey (bytesToHex stealthPublicKey);
                    ephemeralPublicKey :=
                      bytesToHex (encoding true (multiply BASE (b2n ephemeralPrivateKey)));
                    viewTag := "0x" ++ Js.slice 2 4 (bytesToHex (keccak_256 ss)) |}
          end
      end
  end.
Proof.
  intros Hp Hk Hv Hs. unfold generateStealthAddress.
  rewrite Hp. run. rewrite (getPublicKey_valid _ _ Hk). run.
  rewrite Hv. run. rewrite (getSharedSecret_inv _ _ _ Hs). run.
  unfold keccak256. run.
  unfold ProjectivePoint_fromHex.
  destruct (rbind (h2b _) _) as [spendingPoint|e]; run; [|reflexivity].
  rewrite hexToBytes_bytesToHex. run.
  unfold ProjectivePoint_fromPrivateKey.
  destruct (toPriv (keccak_256 ss)) as [h|e]; run; [|reflexivity].
  unfold ProjectivePoint_add. run.
  destruct (toRawBytes false _) as [stealthPublicKey|]; run; reflexivity.
Qed.

(** A run that returned has computed the shared secret. *)
Lemma generateStealthAddress_secret (recipientMetaAddress : string)
    (ephemeralPrivateKey rnd : bytes) (parsed : MetaAddressKeys) (vb : bytes)
    (info : StealthAddressInfo) :
  parseStealthMetaAddress recipientMetaAddress = Ok parsed ->
  isValidPrivateKey ephemeralPrivateKey = true ->
  hexToBytes (meta_viewingPublicKey parsed) = Ok vb ->
  outcome (generateStealthAddress recipientMetaAddress (Some ephemeralPrivateKey) rnd) =
    Ok info ->
  exists ss, outcome (getSharedSecret ephemeralPrivateKey vb) = Ok ss.
Proof.
  intros Hp Hk Hv. unfold generateStealthAddress.
  rewrite Hp. run. rewrite (getPublicKey_valid _ _ Hk). run.
  rewrite Hv. run.
  destruct (getSharedSecret ephemeralPrivateKey vb) as [t [ss|err]].
  - intros _. now exists ss.
  - discriminate.
Qed.

(** ** Runs of [computeStealthPrivateKey] *)

(** The run on a spending key that [BigInt] reads as a non-negative
    integer, as it does every hex string. *)
Lemma computeStealthPrivateKey_run
    (ephemeralPublicKey spendingPrivateKey viewingPrivateKey : string)
    (vb eb ss : bytes) (s : Z) :
  hexToBytes viewingPrivateKey = Ok vb ->
  hexToBytes ephemeralPublicKey = Ok eb ->
  outcome (getSharedSecret vb eb) = Ok ss ->
  BigInt spendingPrivateKey = Ok s ->
  0 <= s ->
  computeStealthPrivateKey ephemeralPublicKey spendingPrivateKey viewingPrivateKey =
  ([OpGetSharedSecret; OpKeccak256],
   Ok (bytesToHex (n2b 32 ((s + b2n (keccak_256 ss)) mod CURVE_ORDER)))).
Proof.
  intros Hv He Hs Hb Hs0. unfold computeStealthPrivateKey.
  rewrite Hv, He. run. rewrite (getSharedSecret_inv _ _ _ Hs). run.
  unfold keccak256. run. rewrite Hb. run.
  rewrite BigInt_bytesToHex.
  2:{ pose proof (length_keccak_256 ss). now destruct (keccak_256 ss). }
  run. cbn [app]. f_equal. f_equal.
  pose proof (b2n_range (keccak_256 ss)) as [Hh0 _].
  rewrite Z.rem_mod_nonneg by (try reflexivity; lia).
  apply padStart64_bytes.
  pose proof (Z.mod_pos_bound (s + b2n (keccak_256 ss)) CURVE_ORDER ltac:(reflexivity)) as Hm.
  split; [lia|]. eapply Z.lt_trans; [apply Hm | reflexivity].
Qed.

End Engine.

(* ================================================================== *)
(** * The reference instance satisfies the laws *)

Lemma Cyclic_iter_op (p : positive) (x : Cyclic.pt) :
  Zmod.to_Z (Pos.iter_op Zmod.add p x) = (Z.pos p * Zmod.to_Z x) mod CURVE_ORDER.
Proof.
  induction p as [|p IH] using Pos.peano_ind.
  - cbn [Pos.iter_op]. rewrite Z.mul_1_l. symmetry. apply Zmod.mod_to_Z.
  - rewrite Pos.iter_op_succ by (intros; apply Zmod.add_assoc).
    rewrite Zmod.to_Z_add, IH, Zplus_mod_idemp_r. f_equal. lia.
Qed.

Lemma Cyclic_multiply (k : Z) :
  0 < k -> Zmod.to_Z (multiply (L:=Cyclic.lib) BASE k) = k mod CURVE_ORDER.
Proof.
  intros Hk. destruct k as [|p|p]; try lia.
  cbn [multiply BASE point_add Cyclic.lib]. rewrite Cyclic_iter_op.
  rewrite Zmod.to_Z_1_pos by (unfold CURVE_ORDER; lia). now rewrite Z.mul_1_r.
Qed.

Lemma Cyclic_decode_encode (p : Cyclic.pt) :
  p <> Zmod.zero -> Cyclic.decode (Cyclic.sec1 true p) = Some p.
Proof.
  intros Hp. unfold Cyclic.sec1, Cyclic.decode.
  pose proof (Zmod.to_Z_pos_bound p ltac:(reflexivity)) as Hr.
  assert (H0 : Zmod.to_Z p <> 0) by now apply Zmod.to_Z_nz.
  assert (Hx : b2n (firstn 32 (n2b 32 (Zmod.to_Z p))) = Zmod.to_Z p).
  { rewrite firstn_all2 by (rewrite length_n2b; lia).
    apply b2n_n2b. split; [lia|]. eapply Z.lt_trans; [apply Hr | reflexivity]. }
  rewrite Hx, length_n2b. cbn [Byte.eqb Nat.eqb orb andb].
  change (Byte.eqb x02 x02) with true. cbn [orb andb].
  destruct (Z.ltb_spec 0 (Zmod.to_Z p)); [|lia].
  destruct (Z.ltb_spec (Zmod.to_Z p) CURVE_ORDER); [|lia].
  cbn [andb]. now rewrite Zmod.of_Z_to_Z.
Qed.

Lemma Cyclic_decode_length (b : bytes) (p : Cyclic.pt) :
  Cyclic.decode b = Some p -> List.length b = 33%nat \/ List.length b = 65%nat.
Proof.
  unfold Cyclic.decode. destruct b as [|h t]; [discriminate|].
  destruct (Nat.eqb_spec (List.length t) 32) as [E|N].
  - intros _. left. simpl. now rewrite E.
  - destruct (Nat.eqb_spec (List.length t) 64) as [E|N'].
    + intros _. right. simpl. now rewrite E.
    + rewrite !andb_false_r. cbn [orb andb]. discriminate.
Qed.

Lemma Cyclic_laws : Secp256k1Laws Cyclic.lib.
Proof.
  split.
  - intros p q r. apply Zmod.add_assoc.
  - intros p. apply Zmod.add_0_r.
  - apply Zmod.to_Z_inj. rewrite Cyclic_multiply by reflexivity.
    rewrite Z.mod_same by discriminate. reflexivity.
  - intros k Hk E. apply (f_equal Zmod.to_Z) in E.
    rewrite Cyclic_multiply in E by lia.
    rewrite Z.mod_small in E by lia.
    change (Zmod.to_Z (ZERO (Secp256k1:=Cyclic.lib))) with 0 in E. lia.
  - intros c. reflexivity.
  - intros c p Hp. cbn [toRawBytes Cyclic.lib]. unfold Cyclic.encode.
    destruct (Z.eqb_spec (Zmod.to_Z p) 0) as [E|_]; [|discriminate].
    exfalso. assert (H0 : Zmod.to_Z p <> 0) by (apply Zmod.to_Z_nz; exact Hp).
    exact (H0 E).
  - intros p b. cbn [toRawBytes Cyclic.lib]. unfold Cyclic.encode.
    destruct (Z.eqb_spec (Zmod.to_Z p) 0) as [_|N]; [discriminate|].
    intros H. assert (Hb : Cyclic.sec1 true p = b) by congruence. subst b.
    apply Cyclic_decode_encode. intros ->. apply N, Zmod.to_Z_0.
  - intros p b. cbn [toRawBytes Cyclic.lib]. unfold Cyclic.encode.
    destruct (Zmod.to_Z p =? 0)%Z; [discriminate|].
    intros H. assert (Hb : Cyclic.sec1 true p = b) by congruence. subst b.
    cbn [Cyclic.sec1 List.length]. now rewrite length_n2b.
  - intros b p. apply Cyclic_decode_length.
  - intros b. apply repeat_length.
Qed.

(* ================================================================== *)
(** * The primitives against published values *)

(** Keccak-256 of the empty input and of [abc]. *)
Example keccak_empty :
  bytesToHex (Concrete.keccak []) =
  "0xc5d2460186f7233c927e7db2dcc703c0e500b653ca82273b7bfad8045d85a470".
Proof. vm_compute. reflexivity. Qed.

Example keccak_abc :
  bytesToHex (Concrete.keccak (list_byte_of_string "abc")) =
  "0x4e03657aea45a94fc7d47ba826c8d667c0d1e6e33a64a036ec44f58fa12d6c45".
Proof. vm_compute. reflexivity. Qed.

(** The public keys of the private keys 1, 2 and [CURVE_ORDER - 1]. *)
Example publicKey_of_1 :
  outcome (getPublicKey (L:=Concrete.lib) (n2b 32 1) true) =
  rbind (hexToBytes
           "0x0279be667ef9dcbbac55a06295ce870b07029bfcdb2dce28d959f2815b16f81798") Ok.
Proof. vm_compute. reflexivity. Qed.

Example publicKey_of_2 :
  outcome (getPublicKey (L:=Concrete.lib) (n2b 32 2) true) =
  rbind (hexToBytes
           "0x02c6047f9441ed7d6d3045406e95c07cd85c778e4b8cef3ca7abac09b95c709ee5") Ok.
Proof. vm_compute. reflexivity. Qed.

Example publicKey_of_order_minus_1 :
  outcome (getPublicKey (L:=Concrete.lib) (n2b 32 (CURVE_ORDER - 1)) true) =
  rbind (hexToBytes
           "0x0379be667ef9dcbbac55a06295ce870b07029bfcdb2dce28d959f2815b16f81798") Ok.
Proof. vm_compute. reflexivity. Qed.

(** The base point has order [CURVE_ORDER], and decoding a compressed key
    gives the point back. *)
Example BASE_order_secp256k1 :
  Concrete.affine (multiply (L:=Concrete.lib) (BASE (Secp256k1:=Concrete.lib)) CURVE_ORDER) =
  Concrete.affine Concrete.infinity.
Proof. vm_compute. reflexivity. Qed.

Example decode_encode_2G :
  option_map Concrete.affine
    (match Concrete.encode true
             (multiply (L:=Concrete.lib) (BASE (Secp256k1:=Concrete.lib)) 2) with
     | Some b => Concrete.decode b
     | None => None
     end) =
  Some (Concrete.affine (multiply (L:=Concrete.lib) (BASE (Secp256k1:=Concrete.lib)) 2)).
Proof. vm_compute. reflexivity. Qed.

(** The point at infinity, reached as [CURVE_ORDER] times the base point,
    is not encoded. *)
Example encode_infinity :
  Concrete.encode true
    (multiply (L:=Concrete.lib) (BASE (Secp256k1:=Concrete.lib)) CURVE_ORDER) = None /\
  Concrete.encode false
    (multiply (L:=Concrete.lib) (BASE (Secp256k1:=Concrete.lib)) CURVE_ORDER) = None.
Proof. split; vm_compute; reflexivity. Qed.

(** The checksummed address of the private key 1. *)
Example address_of_1 :
  privateKeyToAddress (L:=Concrete.lib) (bytesToHex (n2b 32 1)) =
  ([OpGetPublicKey; OpPublicKeyToAddress],
   Ok "0x7E5F4552091A69125d5DfCb7b8C2659029395Bdf").
Proof. vm_compute. reflexivity. Qed.

(** A payment to [walletKeys] with the ephemeral scalar 17: generated,
    recognised, and spent from the recovered key. *)
Example payment_run :
  generateStealthAddress (L:=Concrete.lib) (createStealthMetaAddress walletKeys)
    (Some (n2b 32 17)) [] =
  ([OpGetPublicKey; OpGetSharedSecret; OpKeccak256; OpFromHex; OpFromPrivateKey;
    OpPointAdd; OpPublicKeyToAddress],
   Ok {| stealthAddress := ann_stealthAddress announcedPayment;
         ephemeralPublicKey := ann_ephemeralPubKey announcedPayment;
         viewTag := ann_metadata announcedPayment |}) /\
  outcome (checkStealthAddress (L:=Concrete.lib) (ann_ephemeralPubKey announcedPayment)
             (spendingPublicKey walletKeys) (viewingPrivateKey walletKeys)
             (ann_stealthAddress announcedPayment)
             (extractViewTag (ann_metadata announcedPayment))) = Ok true /\
  outcome (computeStealthPrivateKey (L:=Concrete.lib) (ann_ephemeralPubKey announcedPayment)
             (spendingPrivateKey walletKeys) (viewingPrivateKey walletKeys)) =
    Ok "0x3115085f942e5faca15a5609b70ae70226e069b6d5c9609bdedd31ceca79a38b" /\
  outcome (privateKeyToAddress (L:=Concrete.lib)
             "0x3115085f942e5faca15a5609b70ae70226e069b6d5c9609bdedd31ceca79a38b") =
    Ok (ann_stealthAddress announcedPayment).
Proof.
  split; [vm_compute; reflexivity|].
  split; [vm_compute; reflexivity|].
  split; vm_compute; reflexivity.
Qed.

(* ================================================================== *)
(** * Generation, recognition and key recovery *)

Section Claims.
Context {L : Secp256k1} {LL : Secp256k1Laws L}.

Lemma spendingPoint_of_keys (sk : bytes) :
  isValidPrivateKey sk = true ->
  rbind (h2b (Js.drop 2 (bytesToHex (encoding true (multiply BASE (b2n sk))))))
        (fun b => of_option InvalidPoint (fromHex b)) = Ok (multiply BASE (b2n sk)).
Proof.
  intros Hs. unfold bytesToHex.
  change (Js.drop 2 ("0x" ++ ?s)) with s.
  rewrite h2b_hex_of_bytes. run. now rewrite fromHex_publicKey.
Qed.

Lemma parse_meta_of_keys (sk vk : bytes) (keys : StealthKeys) :
  outcome (generateRandomKeys sk vk) = Ok keys ->
  parseStealthMetaAddress (createStealthMetaAddress keys) =
  Ok {| meta_spendingPublicKey := spendingPublicKey keys;
        meta_viewingPublicKey := viewingPublicKey keys |}.
Proof.
  intros Hk. apply generateRandomKeys_inv in Hk as (Hs & Hv & ->).
  apply parse_create_keys; cbn [spendingPublicKey viewingPublicKey];
    apply isPublicKeyHex_bytesToHex, length_publicKey; assumption.
Qed.

(** The sum of two multiples of the base point is the multiple by the sum
    of the scalars modulo the order, which is the point at infinity when
    that sum is zero. *)
Lemma stealthPoint_scalar (a b : Z) :
  0 < a < CURVE_ORDER -> 0 < b < CURVE_ORDER ->
  point_add (multiply BASE a) (multiply BASE b) =
  if ((a + b) mod CURVE_ORDER =? 0)%Z then ZERO
  else multiply BASE ((a + b) mod CURVE_ORDER).
Proof.
  intros Ha Hb. destruct (Z.eqb_spec ((a + b) mod CURVE_ORDER) 0) as [E|N].
  - rewrite <- multiply_add by lia.
    assert (Es : a + b = CURVE_ORDER).
    { assert (Hq : (a + b) mod CURVE_ORDER = a + b - CURVE_ORDER \/ a + b < CURVE_ORDER).
      { destruct (Z.lt_ge_cases (a + b) CURVE_ORDER) as [Hlt|Hge]; [now right|left].
        symmetry. apply Z.mod_unique with 1; lia. }
      destruct Hq as [Hq|Hq]; [lia|]. rewrite Z.mod_small in E; lia. }
    rewrite Es. apply BASE_order.
  - symmetry. now apply multiply_BASE_mod.
Qed.

(** So the stealth public key exists exactly when the recovered scalar is
    not zero. *)
Lemma toRawBytes_stealthPoint (isCompressed : bool) (a b : Z) :
  0 < a < CURVE_ORDER -> 0 < b < CURVE_ORDER ->
  toRawBytes isCompressed (point_add (multiply BASE a) (multiply BASE b)) =
  if ((a + b) mod CURVE_ORDER =? 0)%Z then None
  else Some (encoding isCompressed (multiply BASE ((a + b) mod CURVE_ORDER))).
Proof.
  intros Ha Hb. rewrite (stealthPoint_scalar a b Ha Hb).
  destruct (Z.eqb_spec ((a + b) mod CURVE_ORDER) 0) as [E|N].
  - apply toRawBytes_ZERO.
  - apply toRawBytes_encoding, BASE_multiple_nonzero.
    pose proof (Z.mod_pos_bound (a + b) CURVE_ORDER ltac:(reflexivity)). lia.
Qed.

(** The sender's run on the meta-address of a key pair, from the shared
    secret [ss] of the ephemeral key and the viewing public key. *)
Lemma generate_for_keys (sk vk e rnd ss : bytes) (keys : StealthKeys) :
  outcome (generateRandomKeys sk vk) = Ok keys ->
  isValidPrivateKey e = true ->
  outcome (getSharedSecret e (encoding true (multiply BASE (b2n vk)))) = Ok ss ->
  outcome (generateStealthAddress (createStealthMetaAddress keys) (Some e) rnd) =
  match toPriv (keccak_256 ss) with
  | Err err => Err err
  | Ok n =>
      match toRawBytes false (point_add (multiply BASE (b2n sk)) (multiply BASE n)) with
      | None => Err PointAtInfinity
      | Some stealthPublicKey =>
          Ok {| stealthAddress := address_of_publicKey (bytesToHex stealthPublicKey);
                ephemeralPublicKey := bytesToHex (encoding true (multiply BASE (b2n e)));
                viewTag := "0x" ++ Js.slice 2 4 (bytesToHex (keccak_256 ss)) |}
      end
  end.
Proof.
  intros Hk He Hss. pose proof (parse_meta_of_keys _ _ _ Hk) as Hp.
  apply generateRandomKeys_inv in Hk as (Hs & Hv & ->).
  cbn [spendingPublicKey viewingPublicKey] in Hp.
  rewrite (generateStealthAddress_run _ e rnd _
             (encoding true (multiply BASE (b2n vk))) ss Hp He).
  - cbn [meta_spendingPublicKey]. now rewrite (spendingPoint_of_keys sk Hs).
  - cbn [meta_viewingPublicKey]. apply hexToBytes_bytesToHex.
  - exact Hss.
Qed.

(** The recipient's run on what the sender announced. *)
Lemma check_for_keys (sk vk e ss : bytes) (keys : StealthKeys) (address tag : string) :
  outcome (generateRandomKeys sk vk) = Ok keys ->
  isValidPrivateKey e = true ->
  outcome (getSharedSecret e (encoding true (multiply BASE (b2n vk)))) = Ok ss ->
  String.eqb (Js.toLowerCase ("0x" ++ Js.slice 2 4 (bytesToHex (keccak_256 ss))))
             (Js.toLowerCase tag) = true ->
  outcome (checkStealthAddress (bytesToHex (encoding true (multiply BASE (b2n e))))
             (spendingPublicKey keys) (viewingPrivateKey keys) address tag) =
  match toPriv (keccak_256 ss) with
  | Err err => Err err
  | Ok n =>
      match toRawBytes false (point_add (multiply BASE (b2n sk)) (multiply BASE n)) with
      | None => Err PointAtInfinity
      | Some stealthPublicKey =>
          Ok (String.eqb
                (Js.toLowerCase (address_of_publicKey (bytesToHex stealthPublicKey)))
                (Js.toLowerCase address))
      end
  end.
Proof.
  intros Hk He Hss Ht.
  apply generateRandomKeys_inv in Hk as (Hs & Hv & ->).
  cbn [spendingPublicKey viewingPrivateKey].
  rewrite (checkStealthAddress_match _ _ _ _ _ vk
             (encoding true (multiply BASE (b2n e))) ss).
  - now rewrite (spendingPoint_of_keys sk Hs).
  - apply hexToBytes_bytesToHex.
  - apply hexToBytes_bytesToHex.
  - now rewrite (getSharedSecret_symmetry vk e Hv He).
  - exact Ht.
Qed.

(** The sender's and the recipient's runs for a key pair, an ephemeral key
    and a shared secret whose digest is a valid scalar that does not
    cancel the spending scalar. *)
Lemma generate_check_for_keys (sk vk e rnd ss : bytes) (keys : StealthKeys) :
  outcome (generateRandomKeys sk vk) = Ok keys ->
  isValidPrivateKey e = true ->
  outcome (getSharedSecret e (encoding true (multiply BASE (b2n vk)))) = Ok ss ->
  isValidPrivateKey (keccak_256 ss) = true ->
  (b2n sk + b2n (keccak_256 ss)) mod CURVE_ORDER <> 0 ->
  let info :=
    {| stealthAddress :=
         address_of_publicKey
           (bytesToHex
              (encoding false
                 (multiply BASE ((b2n sk + b2n (keccak_256 ss)) mod CURVE_ORDER))));
       ephemeralPublicKey := bytesToHex (encoding true (multiply BASE (b2n e)));
       viewTag := "0x" ++ Js.slice 2 4 (bytesToHex (keccak_256 ss)) |} in
  outcome (generateStealthAddress (createStealthMetaAddress keys) (Some e) rnd) = Ok info /\
  outcome (checkStealthAddress (ephemeralPublicKey info) (spendingPublicKey keys)
             (viewingPrivateKey keys) (stealthAddress info) (viewTag info)) = Ok true.
Proof.
  intros Hk He Hss Hh Hnz info.
  pose proof (generate_for_keys sk vk e rnd ss keys Hk He Hss) as Hg.
  pose proof (fun a t => check_for_keys sk vk e ss keys a t Hk He Hss) as Hc.
  pose proof Hk as Hk'. apply generateRandomKeys_inv in Hk' as (Hs & Hv & Ek).
  rewrite (toPriv_valid _ Hh) in Hg, Hc.
  apply isValidPrivateKey_spec in Hs as [_ Hs]. pose proof Hh as Hh'.
  apply isValidPrivateKey_spec in Hh' as [_ Hh'].
  rewrite (toRawBytes_stealthPoint false _ _ Hs Hh') in Hg, Hc.
  destruct (Z.eqb_spec ((b2n sk + b2n (keccak_256 ss)) mod CURVE_ORDER) 0) as [E|_];
    [contradiction|].
  split; [exact Hg|]. subst info. cbn [ephemeralPublicKey stealthAddress viewTag].
  rewrite Hc by apply String.eqb_refl. now rewrite String.eqb_refl.
Qed.

(** C1, as the code has it.  For a key pair produced by key generation and
    a valid ephemeral private key such that the Keccak digest of the shared
    secret is a valid scalar and its sum with the spending scalar is not
    zero modulo the curve order, that is, the stealth point is not the
    point at infinity, [generateStealthAddress] on the encoded meta-address
    returns, and [checkStealthAddress] on the announced ephemeral key,
    address and view tag returns [true]; the recipient's shared secret is
    the sender's. *)
Theorem generate_then_check (sk vk e rnd vpub ss : bytes) (keys : StealthKeys) :
  outcome (generateRandomKeys sk vk) = Ok keys ->
  isValidPrivateKey e = true ->
  hexToBytes (viewingPublicKey keys) = Ok vpub ->
  outcome (getSharedSecret e vpub) = Ok ss ->
  isValidPrivateKey (keccak_256 ss) = true ->
  (b2n sk + b2n (keccak_256 ss)) mod CURVE_ORDER <> 0 ->
  exists info,
    outcome (generateStealthAddress (createStealthMetaAddress keys) (Some e) rnd) = Ok info /\
    outcome (checkStealthAddress (ephemeralPublicKey info) (spendingPublicKey keys)
               (viewingPrivateKey keys) (stealthAddress info) (viewTag info)) = Ok true /\
    (forall epub, hexToBytes (ephemeralPublicKey info) = Ok epub ->
       getSharedSecret vk epub = getSharedSecret e vpub).
Proof.
  intros Hk He Hvp Hss Hh Hnz.
  pose proof Hk as Hk'. apply generateRandomKeys_inv in Hk' as (Hs & Hv & Ek).
  assert (Evp : vpub = encoding true (multiply BASE (b2n vk))).
  { rewrite Ek in Hvp. cbn [viewingPublicKey] in Hvp.
    rewrite hexToBytes_bytesToHex in Hvp. congruence. }
  subst vpub.
  destruct (generate_check_for_keys sk vk e rnd ss keys Hk He Hss Hh Hnz) as [Hg Hc].
  eexists. split; [exact Hg|]. split; [exact Hc|].
  cbn [ephemeralPublicKey]. intros epub Hep.
  rewrite hexToBytes_bytesToHex in Hep.
  assert (Ee : epub = encoding true (multiply BASE (b2n e))) by congruence.
  subst epub. now apply getSharedSecret_symmetry.
Qed.

End Claims.

Lemma generate_then_check_witness :
  exists info,
    outcome (generateStealthAddress (L:=Cyclic.lib)
               (createStealthMetaAddress (Cyclic.keysOf 3 5)) (Some (n2b 32 7)) []) = Ok info /\
    outcome (checkStealthAddress (L:=Cyclic.lib) (ephemeralPublicKey info)
               (spendingPublicKey (Cyclic.keysOf 3 5))
               (viewingPrivateKey (Cyclic.keysOf 3 5))
               (stealthAddress info) (viewTag info)) = Ok true /\
    (forall epub, hexToBytes (ephemeralPublicKey info) = Ok epub ->
       getSharedSecret (L:=Cyclic.lib) (n2b 32 5) epub =
       getSharedSecret (L:=Cyclic.lib) (n2b 32 7) (Cyclic.sec1 true (Zmod.of_Z _ 5))).
Proof.
  apply (generate_then_check (L:=Cyclic.lib) (LL:=Cyclic_laws)
           (n2b 32 3) (n2b 32 5) (n2b 32 7) []
           (Cyclic.sec1 true (Zmod.of_Z _ 5)) (Cyclic.sec1 true (Zmod.of_Z _ 35))
           (Cyclic.keysOf 3 5)).
  - vm_compute. reflexivity.
  - vm_compute. reflexivity.
  - vm_compute. reflexivity.
  - vm_compute. reflexivity.
  - vm_compute. reflexivity.
  - vm_compute. discriminate.
Defined.

(** C1, counterexample to the claim for every valid key pair and ephemeral
    key, on secp256k1 with Keccak-256.  The key pair [cancellingKeys] is
    the one key generation builds from the spending scalar
    [cancellingSpendingKey] and the viewing scalar 2, and 3 is a valid
    ephemeral scalar.  The digest of the shared secret is a valid scalar,
    [ProjectivePoint.fromPrivateKey] accepts it, and the sum of the
    spending point and its point is the point at infinity:
    [generateStealthAddress] throws at [toRawBytes], so there is no
    address to recognise. *)
Lemma generate_throws_at_point_at_infinity :
  outcome (generateRandomKeys (L:=Concrete.lib) (n2b 32 cancellingSpendingKey) (n2b 32 2)) =
    Ok cancellingKeys /\
  isValidPrivateKey (n2b 32 3) = true /\
  generateStealthAddress (L:=Concrete.lib)
    (createStealthMetaAddress cancellingKeys) (Some (n2b 32 3)) [] =
  ([OpGetPublicKey; OpGetSharedSecret; OpKeccak256; OpFromHex; OpFromPrivateKey; OpPointAdd],
   Err PointAtInfinity).
Proof. repeat (split; [vm_compute; reflexivity|]). vm_compute. reflexivity. Qed.

Section Recognition.
Context {L : Secp256k1} {LL : Secp256k1Laws L}.

(** C3.  When the announced view tag is not the first byte of the Keccak
    digest of the shared secret, [checkStealthAddress] returns [false], and
    the run consists of the shared secret and its hash alone: no point is
    decoded or added and no address is derived. *)
Theorem view_tag_mismatch_short_circuit
    (ephemeralPublicKey spendingPublicKey viewingPrivateKey announcedAddress
     announcedViewTag : string) (vb eb ss : bytes) :
  hexToBytes viewingPrivateKey = Ok vb ->
  hexToBytes ephemeralPublicKey = Ok eb ->
  outcome (getSharedSecret vb eb) = Ok ss ->
  hexToBytes announcedViewTag <> Ok [List.hd x00 (keccak_256 ss)] ->
  outcome (checkStealthAddress ephemeralPublicKey spendingPublicKey viewingPrivateKey
             announcedAddress announcedViewTag) = Ok false /\
  trace (checkStealthAddress ephemeralPublicKey spendingPublicKey viewingPrivateKey
           announcedAddress announcedViewTag) = [OpGetSharedSecret; OpKeccak256] /\
  ~ In OpPointAdd
      (trace (checkStealthAddress ephemeralPublicKey spendingPublicKey viewingPrivateKey
                announcedAddress announcedViewTag)) /\
  ~ In OpPublicKeyToAddress
      (trace (checkStealthAddress ephemeralPublicKey spendingPublicKey viewingPrivateKey
                announcedAddress announcedViewTag)).
Proof.
  intros Hv He Hs Ht.
  rewrite (checkStealthAddress_mismatch _ spendingPublicKey _ announcedAddress _ _ _ _
             Hv He Hs Ht).
  cbn [trace outcome fst snd].
  repeat split; try reflexivity; intros [H|[H|[]]]; discriminate.
Qed.

End Recognition.

Lemma view_tag_mismatch_short_circuit_witness :
  outcome (checkStealthAddress (L:=Cyclic.lib)
             (bytesToHex (Cyclic.sec1 true (Zmod.of_Z _ 7)))
             (spendingPublicKey (Cyclic.keysOf 3 5)) (viewingPrivateKey (Cyclic.keysOf 3 5))
             "0x2323232323232323232323232323232323232326" "0x24") = Ok false /\
  trace (checkStealthAddress (L:=Cyclic.lib)
           (bytesToHex (Cyclic.sec1 true (Zmod.of_Z _ 7)))
           (spendingPublicKey (Cyclic.keysOf 3 5)) (viewingPrivateKey (Cyclic.keysOf 3 5))
           "0x2323232323232323232323232323232323232326" "0x24") =
    [OpGetSharedSecret; OpKeccak256] /\
  ~ In OpPointAdd
      (trace (checkStealthAddress (L:=Cyclic.lib)
                (bytesToHex (Cyclic.sec1 true (Zmod.of_Z _ 7)))
                (spendingPublicKey (Cyclic.keysOf 3 5)) (viewingPrivateKey (Cyclic.keysOf 3 5))
                "0x2323232323232323232323232323232323232326" "0x24")) /\
  ~ In OpPublicKeyToAddress
      (trace (checkStealthAddress (L:=Cyclic.lib)
                (bytesToHex (Cyclic.sec1 true (Zmod.of_Z _ 7)))
                (spendingPublicKey (Cyclic.keysOf 3 5)) (viewingPrivateKey (Cyclic.keysOf 3 5))
                "0x2323232323232323232323232323232323232326" "0x24")).
Proof.
  apply (view_tag_mismatch_short_circuit (L:=Cyclic.lib) (LL:=Cyclic_laws) _ _ _ _ _
           (n2b 32 5) (Cyclic.sec1 true (Zmod.of_Z _ 7))
           (Cyclic.sec1 true (Zmod.of_Z _ 35))).
  - vm_compute. reflexivity.
  - vm_compute. reflexivity.
  - vm_compute. reflexivity.
  - vm_compute. discriminate.
Defined.

Lemma toLowerCase_idempotent (s : string) :
  Js.toLowerCase (Js.toLowerCase s) = Js.toLowerCase s.
Proof.
  induction s as [|c s IH]; [reflexivity|].
  cbn [Js.toLowerCase]. rewrite IH. f_equal.
  destruct c as [[] [] [] [] [] [] [] []]; reflexivity.
Qed.

(** Both comparisons of [checkStealthAddress] ignore the case of the
    announced values: the function gives the same run on the announced
    address and view tag and on their lower-case forms. *)
Theorem checkStealthAddress_case_insensitive {L : Secp256k1}
    (ephemeralPublicKey spendingPublicKey viewingPrivateKey
     announcedAddress announcedViewTag : string) :
  checkStealthAddress ephemeralPublicKey spendingPublicKey viewingPrivateKey
    (Js.toLowerCase announcedAddress) (Js.toLowerCase announcedViewTag) =
  checkStealthAddress ephemeralPublicKey spendingPublicKey viewingPrivateKey
    announcedAddress announcedViewTag.
Proof.
  unfold checkStealthAddress. now rewrite !toLowerCase_idempotent.
Qed.

Section Recovery.
Context {L : Secp256k1} {LL : Secp256k1Laws L}.

Lemma n2b_nonempty (z : Z) : n2b 32 z <> [].
Proof.
  intros E. apply (f_equal (@List.length byte)) in E.
  rewrite length_n2b in E. discriminate.
Qed.

Lemma CURVE_ORDER_bound : CURVE_ORDER < 256 ^ 32.
Proof. reflexivity. Qed.

(** A scalar of the 32-byte hex form is read back by [BigInt]. *)
Lemma BigInt_scalar (r : Z) :
  0 <= r < CURVE_ORDER -> BigInt (bytesToHex (n2b 32 r)) = Ok r.
Proof.
  intros Hr. rewrite BigInt_bytesToHex by apply n2b_nonempty.
  rewrite b2n_n2b; [reflexivity|]. pose proof CURVE_ORDER_bound.
  change (Z.of_nat 32) with 32. lia.
Qed.

Lemma isValidPrivateKey_n2b (r : Z) :
  0 < r < CURVE_ORDER -> isValidPrivateKey (n2b 32 r) = true /\ b2n (n2b 32 r) = r.
Proof.
  intros Hr. assert (E : b2n (n2b 32 r) = r).
  { apply b2n_n2b. pose proof CURVE_ORDER_bound. change (Z.of_nat 32) with 32. lia. }
  split; [|exact E]. apply isValidPrivateKey_spec. rewrite length_n2b, E. auto.
Qed.

(** The address of a non-zero scalar in the 32-byte hex form. *)
Lemma privateKeyToAddress_scalar (r : Z) :
  0 < r < CURVE_ORDER ->
  outcome (privateKeyToAddress (bytesToHex (n2b 32 r))) =
  Ok (address_of_publicKey (bytesToHex (encoding false (multiply BASE r)))).
Proof.
  intros Hr. destruct (isValidPrivateKey_n2b r Hr) as [Hv E].
  unfold privateKeyToAddress. rewrite hexToBytes_bytesToHex. run.
  rewrite (getPublicKey_valid _ _ Hv), E. run. reflexivity.
Qed.

(** The zero scalar in the 32-byte hex form has no public key and so no
    address. *)
Lemma privateKeyToAddress_zero :
  privateKeyToAddress (bytesToHex (n2b 32 0)) = ([OpGetPublicKey], Err InvalidPrivateKey).
Proof. reflexivity. Qed.

(** The recipient's key recovery on what the sender announced. *)
Lemma compute_for_keys (sk vk e ss : bytes) (keys : StealthKeys) :
  outcome (generateRandomKeys sk vk) = Ok keys ->
  isValidPrivateKey e = true ->
  outcome (getSharedSecret e (encoding true (multiply BASE (b2n vk)))) = Ok ss ->
  computeStealthPrivateKey (bytesToHex (encoding true (multiply BASE (b2n e))))
    (spendingPrivateKey keys) (viewingPrivateKey keys) =
  ([OpGetSharedSecret; OpKeccak256],
   Ok (bytesToHex (n2b 32 ((b2n sk + b2n (keccak_256 ss)) mod CURVE_ORDER)))).
Proof.
  intros Hk He Hss. apply generateRandomKeys_inv in Hk as (Hs & Hv & ->).
  cbn [spendingPrivateKey viewingPrivateKey].
  apply (computeStealthPrivateKey_run _ _ _ vk
           (encoding true (multiply BASE (b2n e)))).
  - apply hexToBytes_bytesToHex.
  - apply hexToBytes_bytesToHex.
  - now rewrite (getSharedSecret_symmetry vk e Hv He).
  - apply BigInt_bytesToHex. apply isValidPrivateKey_spec in Hs as [Hl _].
    now destruct sk.
  - apply b2n_range.
Qed.

(** Where the sender's run returns, the recipient holds the key of the
    address.  For a key pair produced by key generation and a valid
    ephemeral key for which [generateStealthAddress] returns,
    [computeStealthPrivateKey] returns the 32-byte hex form of
    [(spendingPrivate + hash) mod n], that scalar is not zero, and the
    address of its public key is the address [generateStealthAddress]
    returned. *)
Lemma recovered_key_address (sk vk e rnd : bytes) (keys : StealthKeys)
    (info : StealthAddressInfo) :
  outcome (generateRandomKeys sk vk) = Ok keys ->
  isValidPrivateKey e = true ->
  outcome (generateStealthAddress (createStealthMetaAddress keys) (Some e) rnd) = Ok info ->
  exists vpub ss,
    hexToBytes (viewingPublicKey keys) = Ok vpub /\
    outcome (getSharedSecret e vpub) = Ok ss /\
    0 < (b2n sk + b2n (keccak_256 ss)) mod CURVE_ORDER < CURVE_ORDER /\
    outcome (computeStealthPrivateKey (ephemeralPublicKey info)
               (spendingPrivateKey keys) (viewingPrivateKey keys)) =
      Ok (bytesToHex (n2b 32 ((b2n sk + b2n (keccak_256 ss)) mod CURVE_ORDER))) /\
    outcome (privateKeyToAddress
               (bytesToHex (n2b 32 ((b2n sk + b2n (keccak_256 ss)) mod CURVE_ORDER)))) =
      Ok (stealthAddress info).
Proof.
  intros Hk He Hg.
  pose proof Hk as Hk'. apply generateRandomKeys_inv in Hk' as (Hs & Hv & Ek).
  destruct (outcome (getSharedSecret e (encoding true (multiply BASE (b2n vk)))))
    as [ss|err] eqn:Hss.
  2:{ exfalso. pose proof (parse_meta_of_keys _ _ _ Hk) as Hp.
      rewrite Ek in Hp, Hg. cbn [spendingPublicKey viewingPublicKey] in Hp.
      destruct (generateStealthAddress_secret _ e rnd _ _ info Hp He
                  (hexToBytes_bytesToHex _) Hg) as (ss & Hss').
      congruence. }
  rewrite (generate_for_keys sk vk e rnd ss keys Hk He Hss) in Hg.
  pose proof (compute_for_keys sk vk e ss keys Hk He Hss) as Hc.
  destruct (toPriv (keccak_256 ss)) as [n|err] eqn:Eh; [|discriminate].
  apply toPriv_inv in Eh as [Hh ->].
  apply isValidPrivateKey_spec in Hs as [_ Hs], Hh as [_ Hh].
  rewrite (toRawBytes_stealthPoint false _ _ Hs Hh) in Hg.
  destruct (Z.eqb_spec ((b2n sk + b2n (keccak_256 ss)) mod CURVE_ORDER) 0) as [|Hnz];
    [discriminate|].
  pose proof (Z.mod_pos_bound (b2n sk + b2n (keccak_256 ss)) CURVE_ORDER
                ltac:(reflexivity)) as Hr.
  assert (Ei : info =
               {| stealthAddress :=
                    address_of_publicKey
                      (bytesToHex
                         (encoding false
                            (multiply BASE
                               ((b2n sk + b2n (keccak_256 ss)) mod CURVE_ORDER))));
                  ephemeralPublicKey := bytesToHex (encoding true (multiply BASE (b2n e)));
                  viewTag := "0x" ++ Js.slice 2 4 (bytesToHex (keccak_256 ss)) |})
    by congruence.
  subst info. cbn [ephemeralPublicKey stealthAddress].
  exists (encoding true (multiply BASE (b2n vk))), ss.
  split; [rewrite Ek; cbn [viewingPublicKey]; apply hexToBytes_bytesToHex|].
  split; [exact Hss|]. split; [lia|]. split; [now rewrite Hc|].
  apply privateKeyToAddress_scalar. lia.
Qed.

End Recovery.

Lemma recovered_key_address_example :
  exists vpub ss,
    hexToBytes (viewingPublicKey (Cyclic.keysOf 3 5)) = Ok vpub /\
    outcome (getSharedSecret (L:=Cyclic.lib) (n2b 32 7) vpub) = Ok ss /\
    0 < (b2n (n2b 32 3) + b2n (keccak_256 (Secp256k1:=Cyclic.lib) ss)) mod CURVE_ORDER
      < CURVE_ORDER /\
    outcome (computeStealthPrivateKey (L:=Cyclic.lib)
               "0x020000000000000000000000000000000000000000000000000000000000000007"
               (spendingPrivateKey (Cyclic.keysOf 3 5))
               (viewingPrivateKey (Cyclic.keysOf 3 5))) =
      Ok (bytesToHex
            (n2b 32 ((b2n (n2b 32 3) + b2n (keccak_256 (Secp256k1:=Cyclic.lib) ss))
                     mod CURVE_ORDER))) /\
    outcome (privateKeyToAddress (L:=Cyclic.lib)
               (bytesToHex
                  (n2b 32 ((b2n (n2b 32 3) + b2n (keccak_256 (Secp256k1:=Cyclic.lib) ss))
                           mod CURVE_ORDER)))) =
      Ok "0x2323232323232323232323232323232323232326".
Proof.
  apply (recovered_key_address (L:=Cyclic.lib) (LL:=Cyclic_laws)
           (n2b 32 3) (n2b 32 5) (n2b 32 7) [] (Cyclic.keysOf 3 5)
           {| stealthAddress := "0x2323232323232323232323232323232323232326";
              ephemeralPublicKey :=
                "0x020000000000000000000000000000000000000000000000000000000000000007";
              viewTag := "0x23" |}).
  - vm_compute. reflexivity.
  - vm_compute. reflexivity.
  - vm_compute. reflexivity.
Defined.


(** C4, the run that contradicts the claim, on secp256k1 with Keccak-256.
    The spending scalar [cancellingSpendingKey] and the viewing scalar 2
    are valid private keys; with the ephemeral public key of the scalar 3
    the sum of spending scalar and digest is 0 modulo the curve order, and
    [computeStealthPrivateKey] returns the zero scalar as a value, which
    is no valid private key. *)
Lemma computeStealthPrivateKey_returns_zero :
  isValidPrivateKey (n2b 32 cancellingSpendingKey) = true /\
  isValidPrivateKey (n2b 32 2) = true /\
  spendingPrivateKey cancellingKeys = bytesToHex (n2b 32 cancellingSpendingKey) /\
  viewingPrivateKey cancellingKeys = bytesToHex (n2b 32 2) /\
  computeStealthPrivateKey (L:=Concrete.lib) ephemeral3
    (spendingPrivateKey cancellingKeys) (viewingPrivateKey cancellingKeys) =
  ([OpGetSharedSecret; OpKeccak256],
   Ok "0x0000000000000000000000000000000000000000000000000000000000000000") /\
  rbind (hexToBytes "0x0000000000000000000000000000000000000000000000000000000000000000")
        (fun k => Ok (isValidPrivateKey k)) = Ok false.
Proof. repeat (split; [vm_compute; reflexivity|]). vm_compute. reflexivity. Qed.

Section DigestOutOfRange.
Context {L : Secp256k1} {LL : Secp256k1Laws L}.

(** C10.  Let [ss] be a shared secret whose Keccak digest, read as an
    integer, is 0 or at least the curve order.  Then
    [generateStealthAddress] throws; [checkStealthAddress], on the path
    after the view-tag test, which it takes when the announced view tag
    spells the first byte of the digest, throws as well (before that test
    the digest is not read as a scalar, and a mismatching tag ends the run
    with [false]); and [computeStealthPrivateKey], on a spending key that
    is a non-negative numeral, reduces the digest modulo the curve order
    and returns. *)
Theorem digest_out_of_range (ss : bytes) :
  isValidPrivateKey (keccak_256 ss) = false ->
  (forall recipientMetaAddress e rnd parsed vb,
     parseStealthMetaAddress recipientMetaAddress = Ok parsed ->
     isValidPrivateKey e = true ->
     hexToBytes (meta_viewingPublicKey parsed) = Ok vb ->
     outcome (getSharedSecret e vb) = Ok ss ->
     exists err,
       outcome (generateStealthAddress recipientMetaAddress (Some e) rnd) = Err err) /\
  (forall ephemeralPublicKey spendingPublicKey viewingPrivateKey announcedAddress
          announcedViewTag vb eb,
     hexToBytes viewingPrivateKey = Ok vb ->
     hexToBytes ephemeralPublicKey = Ok eb ->
     outcome (getSharedSecret vb eb) = Ok ss ->
     (String.eqb (Js.toLowerCase ("0x" ++ Js.slice 2 4 (bytesToHex (keccak_256 ss))))
                 (Js.toLowerCase announcedViewTag) = true ->
      exists err,
        outcome (checkStealthAddress ephemeralPublicKey spendingPublicKey
                   viewingPrivateKey announcedAddress announcedViewTag) = Err err) /\
     (hexToBytes announcedViewTag <> Ok [List.hd x00 (keccak_256 ss)] ->
      outcome (checkStealthAddress ephemeralPublicKey spendingPublicKey
                 viewingPrivateKey announcedAddress announcedViewTag) = Ok false)) /\
  (forall ephemeralPublicKey spendingPrivateKey viewingPrivateKey vb eb s,
     hexToBytes viewingPrivateKey = Ok vb ->
     hexToBytes ephemeralPublicKey = Ok eb ->
     outcome (getSharedSecret vb eb) = Ok ss ->
     BigInt spendingPrivateKey = Ok s ->
     0 <= s ->
     outcome (computeStealthPrivateKey ephemeralPublicKey spendingPrivateKey
                viewingPrivateKey) =
     Ok (bytesToHex (n2b 32 ((s + b2n (keccak_256 ss)) mod CURVE_ORDER)))).
Proof.
  intros Hbad. split; [|split].
  - intros meta e rnd parsed vb Hp He Hv Hs.
    rewrite (generateStealthAddress_run meta e rnd parsed vb ss Hp He Hv Hs).
    destruct (rbind (h2b _) _) as [spendingPoint|err]; [|now exists err].
    rewrite (toPriv_invalid _ Hbad). now exists InvalidPrivateKey.
  - intros eph spub vpriv addr tag vb eb Hv He Hs. split.
    + intros Ht.
      rewrite (checkStealthAddress_match eph spub vpriv addr tag vb eb ss Hv He Hs Ht).
      destruct (rbind (h2b _) _) as [spendingPoint|err]; [|now exists err].
      rewrite (toPriv_invalid _ Hbad). now exists InvalidPrivateKey.
    + intros Ht.
      now rewrite (checkStealthAddress_mismatch eph spub vpriv addr tag vb eb ss Hv He Hs Ht).
  - intros eph spriv vpriv vb eb s Hv He Hs Hb Hs0.
    now rewrite (computeStealthPrivateKey_run eph spriv vpriv vb eb ss s Hv He Hs Hb Hs0).
Qed.

End DigestOutOfRange.

Lemma digest_out_of_range_witness :
  (forall recipientMetaAddress e rnd parsed vb,
     parseStealthMetaAddress recipientMetaAddress = Ok parsed ->
     isValidPrivateKey e = true ->
     hexToBytes (meta_viewingPublicKey parsed) = Ok vb ->
     outcome (getSharedSecret (L:=Cyclic.lib) e vb) = Ok secret255 ->
     exists err,
       outcome (generateStealthAddress (L:=Cyclic.lib) recipientMetaAddress (Some e) rnd)
         = Err err) /\
  (forall ephemeralPublicKey spendingPublicKey viewingPrivateKey announcedAddress
          announcedViewTag vb eb,
     hexToBytes viewingPrivateKey = Ok vb ->
     hexToBytes ephemeralPublicKey = Ok eb ->
     outcome (getSharedSecret (L:=Cyclic.lib) vb eb) = Ok secret255 ->
     (String.eqb
        (Js.toLowerCase
           ("0x" ++ Js.slice 2 4 (bytesToHex (keccak_256 (Secp256k1:=Cyclic.lib) secret255))))
        (Js.toLowerCase announcedViewTag) = true ->
      exists err,
        outcome (checkStealthAddress (L:=Cyclic.lib) ephemeralPublicKey spendingPublicKey
                   viewingPrivateKey announcedAddress announcedViewTag) = Err err) /\
     (hexToBytes announcedViewTag <>
        Ok [List.hd x00 (keccak_256 (Secp256k1:=Cyclic.lib) secret255)] ->
      outcome (checkStealthAddress (L:=Cyclic.lib) ephemeralPublicKey spendingPublicKey
                 viewingPrivateKey announcedAddress announcedViewTag) = Ok false)) /\
  (forall ephemeralPublicKey spendingPrivateKey viewingPrivateKey vb eb s,
     hexToBytes viewingPrivateKey = Ok vb ->
     hexToBytes ephemeralPublicKey = Ok eb ->
     outcome (getSharedSecret (L:=Cyclic.lib) vb eb) = Ok secret255 ->
     BigInt spendingPrivateKey = Ok s ->
     0 <= s ->
     outcome (computeStealthPrivateKey (L:=Cyclic.lib) ephemeralPublicKey
                spendingPrivateKey viewingPrivateKey) =
     Ok (bytesToHex
           (n2b 32 ((s + b2n (keccak_256 (Secp256k1:=Cyclic.lib) secret255))
                    mod CURVE_ORDER)))).
Proof.
  apply (digest_out_of_range (L:=Cyclic.lib) (LL:=Cyclic_laws) secret255).
  vm_compute. reflexivity.
Defined.

(* ================================================================== *)
(** * The announcement scan *)

Section Scanner.
Context {L : Secp256k1}.

Lemma scanStep_scannable (keys : StealthKeys) (acc : list OwnedStealthAddress)
    (a : AnnouncementData) :
  scannable keys a ->
  outcome (scanStep keys acc a) =
  Ok (if isOurs keys a then acc ++ [ownedOf keys a] else acc)%list.
Proof.
  unfold scannable, isOurs, ownedOf, recognized, recovered, scanStep.
  intros [Hf|(Ht & k & Hk)].
  - rewrite (outcome_bind_ok _ _ false Hf), Hf. reflexivity.
  - rewrite (outcome_bind_ok _ _ true Ht), Ht.
    rewrite (outcome_bind_ok _ _ k Hk), Hk. reflexivity.
Qed.

Lemma scanStep_throws (keys : StealthKeys) (acc : list OwnedStealthAddress)
    (a : AnnouncementData) (e : error) :
  recognized keys a = Err e -> outcome (scanStep keys acc a) = Err e.
Proof. intros H. unfold scanStep. now apply outcome_bind_err. Qed.

Lemma scanFrom_scannable (keys : StealthKeys) (announcements : list AnnouncementData) :
  forall acc,
  Forall (scannable keys) announcements ->
  outcome (scanFrom keys acc announcements) =
  Ok (acc ++ List.map (ownedOf keys) (List.filter (isOurs keys) announcements))%list.
Proof.
  induction announcements as [|a rest IH]; intros acc Hall.
  - cbn. now rewrite app_nil_r.
  - inversion Hall as [|? ? Ha Hrest]; subst.
    cbn [scanFrom List.filter].
    rewrite (outcome_bind_ok _ _ _ (scanStep_scannable keys acc a Ha)).
    rewrite (IH _ Hrest). destruct (isOurs keys a); [|reflexivity].
    cbn [List.map]. now rewrite <- app_assoc.
Qed.

Lemma scanFrom_throws (keys : StealthKeys) (before after : list AnnouncementData)
    (a : AnnouncementData) (e : error) :
  forall acc,
  Forall (scannable keys) before ->
  recognized keys a = Err e ->
  outcome (scanFrom keys acc (before ++ a :: after)) = Err e.
Proof.
  induction before as [|b before IH]; intros acc Hall He.
  - cbn [app scanFrom]. apply outcome_bind_err. now apply scanStep_throws.
  - inversion Hall as [|? ? Hb Hrest]; subst.
    cbn [app scanFrom].
    rewrite (outcome_bind_ok _ _ _ (scanStep_scannable keys acc b Hb)).
    now apply IH.
Qed.

(** C8, as the code has it.  On a sequence of announcements that the loop
    gets through, the scan yields the announcements for which
    [checkStealthAddress] returns [true], in their order in the input and no
    others, each with the key [computeStealthPrivateKey] recovers.  An
    announcement on which [checkStealthAddress] throws ends the scan with
    that exception: nothing is yielded, whatever was recognised before. *)
Theorem scan_yields_recognized (keys : StealthKeys) :
  (forall announcements,
     Forall (scannable keys) announcements ->
     exists owned,
       outcome (scanAnnouncements keys announcements) = Ok owned /\
       List.map owned_announcement owned = List.filter (isOurs keys) announcements /\
       Forall (fun o =>
                 recognized keys (owned_announcement o) = Ok true /\
                 recovered keys (owned_announcement o) = Ok (owned_privateKey o) /\
                 owned_address o = ann_stealthAddress (owned_announcement o)) owned) /\
  (forall before a after e,
     Forall (scannable keys) before ->
     recognized keys a = Err e ->
     outcome (scanAnnouncements keys (before ++ a :: after)) = Err e).
Proof.
  split.
  - intros announcements Hall.
    exists (List.map (ownedOf keys) (List.filter (isOurs keys) announcements)).
    split; [|split].
    + unfold scanAnnouncements. now rewrite (scanFrom_scannable keys announcements []).
    + rewrite map_map. cbn [ownedOf owned_announcement]. apply map_id.
    + apply Forall_forall. intros o Ho.
      apply in_map_iff in Ho as (a & <- & Ha).
      apply filter_In in Ha as [Hin Hours].
      cbn [ownedOf owned_announcement owned_privateKey owned_address].
      rewrite Forall_forall in Hall. specialize (Hall a Hin).
      unfold isOurs in Hours.
      destruct Hall as [Hf|(Ht & k & Hk)].
      * rewrite Hf in Hours. discriminate.
      * rewrite Hk. auto.
  - intros before a after e Hall He. unfold scanAnnouncements.
    now apply scanFrom_throws.
Qed.

End Scanner.

Lemma scan_yields_recognized_witness :
  exists owned,
    outcome (scanAnnouncements (L:=Cyclic.lib) (Cyclic.keysOf 3 5) [cyclicOther; cyclicOurs])
      = Ok owned /\
    List.map owned_announcement owned =
      List.filter (isOurs (L:=Cyclic.lib) (Cyclic.keysOf 3 5)) [cyclicOther; cyclicOurs] /\
    Forall (fun o =>
              recognized (L:=Cyclic.lib) (Cyclic.keysOf 3 5) (owned_announcement o) = Ok true /\
              recovered (L:=Cyclic.lib) (Cyclic.keysOf 3 5) (owned_announcement o) =
                Ok (owned_privateKey o) /\
              owned_address o = ann_stealthAddress (owned_announcement o)) owned.
Proof.
  apply (proj1 (scan_yields_recognized (L:=Cyclic.lib) (Cyclic.keysOf 3 5))
           [cyclicOther; cyclicOurs]).
  apply Forall_cons; [|apply Forall_cons; [|apply Forall_nil]].
  - left. vm_compute. reflexivity.
  - right. split; [vm_compute; reflexivity|].
    exists "0x2323232323232323232323232323232323232323232323232323232323232326".
    vm_compute. reflexivity.
Defined.

(** C8, counterexample to the claim for every sequence, on secp256k1 with
    Keccak-256.  The first announcement is a payment to the wallet
    [walletKeys] and [checkStealthAddress] returns [true] on it; on the
    second, whose ephemeral public key is the empty byte string,
    [getSharedSecret] throws.  The scan of the two ends with the exception
    and yields nothing, where the claim has it yield the first. *)
Lemma scan_aborts_on_malformed_announcement :
  outcome (generateRandomKeys (L:=Concrete.lib) (n2b 32 11) (n2b 32 13)) = Ok walletKeys /\
  recognized (L:=Concrete.lib) walletKeys announcedPayment = Ok true /\
  recognized (L:=Concrete.lib) walletKeys announcedMalformed = Err InvalidPoint /\
  outcome (scanAnnouncements (L:=Concrete.lib) walletKeys
             [announcedPayment; announcedMalformed]) = Err InvalidPoint.
Proof. repeat (split; [vm_compute; reflexivity|]). vm_compute. reflexivity. Qed.

(* ================================================================== *)
(** * UTF-8 text *)

Lemma utf8_lead_1 (b : byte) : sequenceLength b = 1%nat -> utf8_lead b = ([b], None).
Proof. unfold utf8_lead. now intros ->. Qed.

Lemma utf8_lead_S (b : byte) (n : nat) :
  sequenceLength b = S (S n) ->
  utf8_lead b = ([], Some {| utf8_seen := [b]; utf8_needed := S n;
                             utf8_lower := secondLower b; utf8_upper := secondUpper b |}).
Proof. unfold utf8_lead. now intros ->. Qed.

(** The decoder returns a well-formed text as it is. *)
Lemma utf8_decode_valid_fuel (n : nat) :
  forall bs, (List.length bs <= n)%nat -> utf8_valid bs = true -> utf8_decode None bs = bs.
Proof.
  induction n as [|n IH]; intros bs Hl.
  - destruct bs; [reflexivity | cbn in Hl; lia].
  - destruct bs as [|b0 r0]; [reflexivity|]. cbn [List.length] in Hl.
    cbn [utf8_valid utf8_decode].
    destruct (sequenceLength b0) as [|[|[|[|[|k]]]]] eqn:E.
    + now destruct r0.
    + rewrite (utf8_lead_1 b0 E). intros H. cbn [app]. f_equal. apply IH; [lia | exact H].
    + rewrite (utf8_lead_S b0 0 E). destruct r0 as [|b1 r1]; [discriminate|].
      cbn [List.length] in Hl. intros H. apply andb_true_iff in H as [H1 H].
      cbn [app utf8_decode utf8_lower utf8_upper utf8_needed utf8_seen]. rewrite H1.
      f_equal. f_equal. apply IH; [lia | exact H].
    + rewrite (utf8_lead_S b0 1 E). destruct r0 as [|b1 [|b2 r2]]; try discriminate.
      cbn [List.length] in Hl. intros H.
      apply andb_true_iff in H as [H H3]. apply andb_true_iff in H as [H1 H2].
      cbn [app utf8_decode utf8_lower utf8_upper utf8_needed utf8_seen]. rewrite H1, H2.
      cbn [app]. f_equal. f_equal. f_equal. apply IH; [lia | exact H3].
    + rewrite (utf8_lead_S b0 2 E). destruct r0 as [|b1 [|b2 [|b3 r3]]]; try discriminate.
      cbn [List.length] in Hl. intros H.
      apply andb_true_iff in H as [H H4]. apply andb_true_iff in H as [H H3].
      apply andb_true_iff in H as [H1 H2].
      cbn [app utf8_decode utf8_lower utf8_upper utf8_needed utf8_seen]. rewrite H1, H2.
      cbn [app utf8_decode utf8_lower utf8_upper utf8_needed utf8_seen]. rewrite H3.
      cbn [app]. f_equal. f_equal. f_equal. f_equal. apply IH; [lia | exact H4].
    + now destruct r0.
Qed.

Lemma utf8_decode_valid (bs : bytes) : utf8_valid bs = true -> utf8_decode None bs = bs.
Proof. now apply (utf8_decode_valid_fuel (List.length bs)). Qed.

(** A well-formed string that does not begin with U+FEFF comes back from
    the encoder and the decoder as it is. *)
Lemma TextDecoder_TextEncoder (s : string) :
  isWellFormed s = true -> startsWithBOM s = false ->
  TextDecoder_decode (TextEncoder_encode s) = s.
Proof.
  unfold isWellFormed, startsWithBOM, TextDecoder_decode, TextEncoder_encode.
  intros Hw Hb. rewrite (utf8_decode_valid _ Hw).
  replace (stripBOM (list_byte_of_string s)) with (list_byte_of_string s).
  - apply string_of_list_byte_of_string.
  - unfold stripBOM. destruct (list_byte_of_string s) as [|b0 [|b1 [|b2 rest]]]; try reflexivity.
    now rewrite Hb.
Qed.

(** A string of ASCII characters is well formed and does not begin with
    U+FEFF. *)
Lemma to_N_byte_of_ascii (c : ascii) : Byte.to_N (byte_of_ascii c) = N_of_ascii c.
Proof. destruct c as [[] [] [] [] [] [] [] []]; reflexivity. Qed.

Lemma sequenceLength_ascii (c : ascii) :
  isAscii c = true -> sequenceLength (byte_of_ascii c) = 1%nat.
Proof.
  unfold isAscii, sequenceLength, inRange. rewrite to_N_byte_of_ascii.
  intros H. apply N.ltb_lt in H.
  destruct (N.leb_spec 0 (N_of_ascii c)); [|lia].
  destruct (N.leb_spec (N_of_ascii c) 127); [reflexivity|lia].
Qed.

Lemma isWellFormed_ascii (s : string) : allAscii s = true -> isWellFormed s = true.
Proof.
  unfold isWellFormed. induction s as [|c s IH]; [reflexivity|].
  change (list_byte_of_string (String c s)) with (byte_of_ascii c :: list_byte_of_string s).
  cbn [allAscii utf8_valid]. intros H.
  apply andb_true_iff in H as [Hc Hs]. rewrite (sequenceLength_ascii c Hc). now apply IH.
Qed.

Lemma startsWithBOM_ascii (s : string) : allAscii s = true -> startsWithBOM s = false.
Proof.
  unfold startsWithBOM. destruct s as [|c s]; [reflexivity|].
  change (list_byte_of_string (String c s)) with (byte_of_ascii c :: list_byte_of_string s).
  cbn [allAscii]. intros H. apply andb_true_iff in H as [Hc _].
  destruct (list_byte_of_string s) as [|b1 [|b2 rest]]; try reflexivity.
  replace (Byte.eqb (byte_of_ascii c) xef) with false; [reflexivity|].
  symmetry. destruct (Byte.eqb (byte_of_ascii c) xef) eqn:E; [|reflexivity].
  apply Byte.byte_dec_bl in E. apply (f_equal Byte.to_N) in E.
  rewrite to_N_byte_of_ascii in E. unfold isAscii in Hc. apply N.ltb_lt in Hc.
  change (Byte.to_N xef) with 239%N in E. lia.
Qed.

Lemma allAscii_app (s t : string) : allAscii (s ++ t) = (allAscii s && allAscii t)%bool.
Proof.
  induction s as [|c s IH]; [reflexivity|]. cbn [append allAscii].
  now rewrite IH, andb_assoc.
Qed.

(* ================================================================== *)
(** * The wallet cipher *)

(** ** Counting: more passwords than keys *)

Lemma bounded_search (p : Z -> bool) (m : Z) :
  0 <= m ->
  (exists i, 0 <= i <= m /\ p i = true) \/ (forall i, 0 <= i <= m -> p i = false).
Proof.
  intros Hm. pattern m. apply natlike_ind; [| |exact Hm].
  - destruct (p 0) eqn:E.
    + left. exists 0. split; [lia | exact E].
    + right. intros i Hi. now replace i with 0 by lia.
  - intros x Hx [(i & Hi & Hp)|Hno].
    + left. exists i. split; [lia | exact Hp].
    + destruct (p (Z.succ x)) eqn:E.
      * left. exists (Z.succ x). split; [lia | exact E].
      * right. intros i Hi. destruct (Z.eq_dec i (Z.succ x)) as [->|Hne]; [exact E|].
        apply Hno. lia.
Qed.

(** The pigeonhole principle on intervals of integers: a function from
    [0..m] to [0..m-1] takes some value twice. *)
Lemma pigeonhole (m : Z) :
  0 <= m ->
  forall f : Z -> Z,
  (forall k, 0 <= k <= m -> 0 <= f k < m) ->
  exists i j, 0 <= i < j /\ j <= m /\ f i = f j.
Proof.
  intros Hm. pattern m. apply natlike_ind; [| |exact Hm].
  - intros f Hf. specialize (Hf 0 ltac:(lia)). lia.
  - intros x Hx IH f Hf.
    destruct (bounded_search (fun i => Z.eqb (f i) (f (Z.succ x))) x Hx) as [(i & Hi & E)|Hno].
    + apply Z.eqb_eq in E. exists i, (Z.succ x). split; [lia|]. split; [lia | exact E].
    + set (y := f (Z.succ x)).
      destruct (IH (fun k => if Z.ltb (f k) y then f k else f k - 1)) as (i & j & Hij & Hj & E).
      * intros k Hk. pose proof (Hf k ltac:(lia)) as Hfk.
        pose proof (Hf (Z.succ x) ltac:(lia)) as Hy. fold y in Hy.
        specialize (Hno k Hk). apply Z.eqb_neq in Hno. fold y in Hno.
        destruct (Z.ltb_spec (f k) y); lia.
      * exists i, j. split; [lia|]. split; [lia|]. cbv beta in E.
        pose proof (Hno i ltac:(lia)) as Hi. pose proof (Hno j ltac:(lia)) as Hj'.
        apply Z.eqb_neq in Hi, Hj'. fold y in Hi, Hj'.
        destruct (Z.ltb_spec (f i) y), (Z.ltb_spec (f j) y); lia.
Qed.

Section WalletCipherFacts.
Context {C : Cipher} {CL : CipherLaws C}.

Lemma randomBytes_length (n : nat) (e : entropy) :
  List.length (fst (randomBytes n e)) = n.
Proof. unfold randomBytes. cbn [fst]. now rewrite length_map, length_seq. Qed.

(** Decryption of byte-array inputs: the outcome of the AES-GCM
    authentication, and nothing else, decides between the plaintext and
    the one error. *)
Lemma decryptData_bytes (ct salt iv : bytes) (password : string) :
  decryptData (bytesToHex ct) password (bytesToHex salt) (bytesToHex iv) =
  match aes_gcm_decrypt (deriveEncryptionKey password salt) iv ct with
  | Some decrypted => Ok (TextDecoder_decode decrypted)
  | None => Err DecryptionFailed
  end.
Proof. unfold decryptData. now rewrite !hexToBytes_bytesToHex. Qed.

(** What [decryptData] returns on the output of [encryptData], for a
    password with the same derived key: the plaintext as the decoder reads
    its text. *)
Lemma decrypt_encrypt_decoded (data password password' : string) (e : entropy) :
  deriveEncryptionKey password' (fst (randomBytes SALT_LENGTH e)) =
  deriveEncryptionKey password (fst (randomBytes SALT_LENGTH e)) ->
  decryptData (encrypted (fst (encryptData data password e))) password'
              (salt (fst (encryptData data password e)))
              (iv (fst (encryptData data password e))) =
  Ok (TextDecoder_decode (TextEncoder_encode data)).
Proof.
  intros Hk. unfold encryptData.
  destruct (randomBytes SALT_LENGTH e) as [s e1] eqn:Es.
  destruct (randomBytes IV_LENGTH e1) as [i e2] eqn:Ei.
  cbn [fst encrypted salt iv] in *.
  now rewrite decryptData_bytes, Hk, decrypt_encrypt.
Qed.

Lemma decrypt_encrypt_same_key (data password password' : string) (e : entropy) :
  isWellFormed data = true -> startsWithBOM data = false ->
  deriveEncryptionKey password' (fst (randomBytes SALT_LENGTH e)) =
  deriveEncryptionKey password (fst (randomBytes SALT_LENGTH e)) ->
  decryptData (encrypted (fst (encryptData data password e))) password'
              (salt (fst (encryptData data password e)))
              (iv (fst (encryptData data password e))) = Ok data.
Proof.
  intros Hw Hb Hk. rewrite (decrypt_encrypt_decoded data password password' e Hk).
  now rewrite TextDecoder_TextEncoder.
Qed.

(** Two passwords with the same derived key, for any salt: there are more
    66-character hex strings than 32-byte keys. *)
Lemma password_collision (s : bytes) :
  exists password password',
    password <> password' /\
    deriveEncryptionKey password s = deriveEncryptionKey password' s.
Proof.
  set (pw := fun k : Z => bytesToHex (n2b 33 k)).
  destruct (pigeonhole (256 ^ 32) ltac:(lia)
              (fun k => b2n (deriveEncryptionKey (pw k) s))) as (i & j & Hij & Hj & E).
  - intros k _. pose proof (b2n_range (deriveEncryptionKey (pw k) s)) as Hr.
    assert (Hl : List.length (deriveEncryptionKey (pw k) s) = 32%nat)
      by apply length_pbkdf2.
    rewrite Hl in Hr. exact Hr.
  - exists (pw i), (pw j). split.
    + intros Heq. unfold pw in Heq.
      apply (f_equal hexToBytes) in Heq. rewrite !hexToBytes_bytesToHex in Heq.
      assert (Hb : 256 ^ 32 < 256 ^ Z.of_nat 33) by reflexivity.
      assert (Hn : n2b 33 i = n2b 33 j) by congruence.
      apply (f_equal b2n) in Hn. rewrite !b2n_n2b in Hn by lia. lia.
    + apply b2n_inj; [|exact E].
      unfold deriveEncryptionKey. now rewrite !length_pbkdf2.
Qed.

End WalletCipherFacts.

Section Authentication.
Context {C : Cipher} {CL : CipherLaws C} {CA : CipherAuthenticity C}.

(** On byte-array inputs [decryptData] fails exactly on the ciphertexts
    that are no encryption under the key derived from the password and the
    salt and under the nonce given, and what it returns is the decoded
    plaintext of the ciphertext. *)
Lemma decryptData_fails_iff (ct s i : bytes) (password : string) :
  decryptData (bytesToHex ct) password (bytesToHex s) (bytesToHex i) = Err DecryptionFailed <->
  forall plaintext, aes_gcm_encrypt (deriveEncryptionKey password s) i plaintext <> ct.
Proof.
  rewrite decryptData_bytes.
  destruct (aes_gcm_decrypt _ _ _) as [d|] eqn:E; split.
  - discriminate.
  - intros H. exfalso. apply (H d). now apply encrypt_decrypt.
  - intros _ plaintext Hp. rewrite <- Hp, decrypt_encrypt in E. discriminate.
  - reflexivity.
Qed.

Lemma decryptData_returns_inv (ct s i : bytes) (password text : string) :
  decryptData (bytesToHex ct) password (bytesToHex s) (bytesToHex i) = Ok text ->
  exists plaintext,
    aes_gcm_encrypt (deriveEncryptionKey password s) i plaintext = ct /\
    text = TextDecoder_decode plaintext.
Proof.
  rewrite decryptData_bytes.
  destruct (aes_gcm_decrypt _ _ _) as [d|] eqn:E; [|discriminate].
  intros [= <-]. exists d. split; [now apply encrypt_decrypt | reflexivity].
Qed.


End Authentication.

Lemma Cyclic_cipher_laws : CipherLaws Cyclic.cipher.
Proof.
  split.
  - intros key i data. cbn [aes_gcm_decrypt aes_gcm_encrypt Cyclic.cipher].
    unfold Cyclic.open, Cyclic.seal.
    replace (List.length (data ++ key ++ i) - (List.length key + List.length i))%nat
      with (List.length data) by (rewrite !length_app; lia).
    rewrite skipn_app, skipn_all, Nat.sub_diag. cbn [skipn app].
    unfold Cyclic.bytes_eqb. destruct (list_eq_dec _ _ _) as [_|N]; [|contradiction].
    rewrite firstn_app, firstn_all, Nat.sub_diag. cbn [firstn]. now rewrite app_nil_r.
  - intros password s c dkLen. cbn [pbkdf2_sha256 Cyclic.cipher]. unfold Cyclic.kdf.
    rewrite length_firstn, !length_app, repeat_length. lia.
Qed.

Lemma Cyclic_cipher_authenticity : CipherAuthenticity Cyclic.cipher.
Proof.
  split. intros key i data plaintext.
  cbn [aes_gcm_decrypt aes_gcm_encrypt Cyclic.cipher]. unfold Cyclic.open, Cyclic.seal.
  unfold Cyclic.bytes_eqb. destruct (list_eq_dec _ _ _) as [E|_]; [|discriminate].
  intros H. assert (Hp : firstn (List.length data - (List.length key + List.length i)) data
                          = plaintext) by congruence.
  rewrite <- Hp, <- E. apply firstn_skipn.
Qed.



(* ================================================================== *)
(** * Key validation, main address and keys from a signature *)

Lemma drop_drop (a b : nat) (s : string) : Js.drop a (Js.drop b s) = Js.drop (b + a) s.
Proof.
  revert s; induction b as [|b IH]; intros s; [reflexivity|].
  destruct s as [|c s]; cbn [Js.drop Nat.add].
  - now destruct a.
  - apply IH.
Qed.

Lemma take_take (a b : nat) (s : string) :
  (a <= b)%nat -> Js.take a (Js.take b s) = Js.take a s.
Proof.
  revert b s; induction a as [|a IH]; intros b s Hle; [reflexivity|].
  destruct b as [|b]; [lia|]. destruct s as [|c s]; [reflexivity|].
  cbn [Js.take]. rewrite IH by lia. reflexivity.
Qed.

Lemma drop_take (a b : nat) (s : string) :
  Js.drop a (Js.take (a + b) s) = Js.take b (Js.drop a s).
Proof.
  revert s; induction a as [|a IH]; intros s; [reflexivity|].
  destruct s as [|c s]; cbn [Js.take Js.drop Nat.add].
  - now destruct b.
  - apply IH.
Qed.

Lemma length_take (n : nat) (s : string) :
  String.length (Js.take n s) = Nat.min n (String.length s).
Proof.
  revert s; induction n as [|n IH]; intros s; [reflexivity|].
  destruct s as [|c s]; [reflexivity|]. cbn [Js.take String.length].
  now rewrite IH.
Qed.

Lemma bytes_of_hex_allHexDigits (s : string) (b : bytes) :
  bytes_of_hex s = Some b -> allHexDigits s = true.
Proof.
  revert b. induction s as [s IH] using
    (well_founded_induction (well_founded_ltof _ String.length)).
  intros b. destruct s as [|x [|y s']]; [reflexivity|discriminate|].
  cbn [bytes_of_hex allHexDigits].
  destruct (hexval x); [|discriminate]. destruct (hexval y); [|discriminate].
  destruct (bytes_of_hex s') as [bs|] eqn:E; [|discriminate].
  intros _. apply (IH s' ltac:(unfold ltof; simpl; lia) bs E).
Qed.

Lemma bytes_of_hex_even (s : string) (b : bytes) :
  bytes_of_hex s = Some b -> Nat.odd (String.length s) = false.
Proof.
  revert b. induction s as [s IH] using
    (well_founded_induction (well_founded_ltof _ String.length)).
  intros b. destruct s as [|x [|y s']]; [reflexivity|discriminate|].
  cbn [bytes_of_hex].
  destruct (hexval x); [|discriminate]. destruct (hexval y); [|discriminate].
  destruct (bytes_of_hex s') as [bs|] eqn:E; [|discriminate].
  intros _. cbn [String.length]. rewrite Nat.odd_succ, Nat.even_succ.
  apply (IH s' ltac:(unfold ltof; simpl; lia) bs E).
Qed.

(** What noble decodes from the digits, viem decodes from the prefixed
    string. *)
Lemma hexToBytes_of_h2b (digits : string) (b : bytes) :
  h2b digits = Ok b -> hexToBytes ("0x" ++ digits) = Ok b.
Proof.
  unfold h2b, hexToBytes. change (Js.drop 2 ("0x" ++ digits)) with digits.
  destruct (bytes_of_hex digits) as [bs|] eqn:E; [|discriminate].
  intros H. rewrite (bytes_of_hex_even _ _ E), E. exact H.
Qed.

Lemma startsWith_app (p s : string) : Js.startsWith p (p ++ s) = true.
Proof.
  unfold Js.startsWith. induction p as [|c p IH]; [now destruct s|].
  cbn [append String.prefix]. now destruct (ascii_dec c c).
Qed.

Lemma isHex_of_h2b (digits : string) (b : bytes) :
  h2b digits = Ok b -> isHex ("0x" ++ digits) = true.
Proof.
  unfold h2b, isHex. rewrite startsWith_app.
  change (Js.drop 2 ("0x" ++ digits)) with digits.
  destruct (bytes_of_hex digits) as [bs|] eqn:E; [|discriminate].
  intros _. now rewrite (bytes_of_hex_allHexDigits _ _ E).
Qed.

Lemma startsWith_hex_of_bytes_02 (t : bytes) :
  Js.startsWith "02" (hex_of_bytes (x02 :: t)) = true.
Proof. exact (startsWith_app "02" (hex_of_bytes t)). Qed.

Lemma startsWith_hex_of_bytes_03 (t : bytes) :
  Js.startsWith "03" (hex_of_bytes (x03 :: t)) = true.
Proof. exact (startsWith_app "03" (hex_of_bytes t)). Qed.

Lemma prefix_take (p s : string) :
  String.prefix p s = true -> Js.take (String.length p) s = p.
Proof.
  revert s; induction p as [|c p IH]; intros s; [reflexivity|].
  destruct s as [|d s]; [discriminate|]. cbn [String.prefix].
  destruct (ascii_dec c d) as [<-|N]; [|discriminate].
  intros H. cbn [String.length Js.take]. now rewrite IH.
Qed.

Section KeyValidation.
Context {L : Secp256k1}.

(** What an accepted key is. *)
Lemma isValidPublicKey_inv (pubKey : string) :
  outcome (isValidPublicKey pubKey) = Ok true ->
  String.length (Js.drop 2 pubKey) = 66%nat /\
  exists b p, h2b (Js.drop 2 pubKey) = Ok b /\ fromHex b = Some p.
Proof.
  unfold isValidPublicKey.
  destruct (Nat.eqb_spec (String.length (Js.drop 2 pubKey)) 66) as [El|]; [|discriminate].
  cbn [negb]. destruct (_ && _)%bool; [discriminate|].
  unfold ProjectivePoint_fromHex, call.
  destruct (h2b (Js.drop 2 pubKey)) as [b|e]; cbn [rbind]; [|discriminate].
  destruct (fromHex b) as [p|] eqn:Ep; cbn [of_option]; [|discriminate].
  intros _. split; [exact El|]. now exists b, p.
Qed.

(** The function returns on every string. *)
Lemma isValidPublicKey_returns (pubKey : string) :
  exists b, outcome (isValidPublicKey pubKey) = Ok b.
Proof.
  unfold isValidPublicKey.
  destruct (negb _); [now exists false|].
  destruct (_ && _)%bool; [now exists false|].
  destruct (ProjectivePoint_fromHex _) as [t [p|e]]; [now exists true | now exists false].
Qed.

Lemma sendCommand_validate_inv (recipientMetaAddress : string) :
  sendCommand_validate recipientMetaAddress = true ->
  exists parsed,
    parseStealthMetaAddress recipientMetaAddress = Ok parsed /\
    outcome (isValidPublicKey (meta_spendingPublicKey parsed)) = Ok true /\
    outcome (isValidPublicKey (meta_viewingPublicKey parsed)) = Ok true.
Proof.
  unfold sendCommand_validate.
  destruct (parseStealthMetaAddress _) as [parsed|]; [|discriminate].
  destruct (outcome (isValidPublicKey (meta_spendingPublicKey parsed))) as [[]|] eqn:Es;
    try discriminate.
  destruct (outcome (isValidPublicKey (meta_viewingPublicKey parsed))) as [[]|] eqn:Ev;
    try discriminate.
  intros _. now exists parsed.
Qed.

(** The keys [parseStealthMetaAddress] returns start with [0x]. *)
Lemma parsed_keys_prefixed (metaAddress : string) (parsed : MetaAddressKeys) :
  parseStealthMetaAddress metaAddress = Ok parsed ->
  meta_spendingPublicKey parsed = "0x" ++ Js.drop 2 (meta_spendingPublicKey parsed) /\
  meta_viewingPublicKey parsed = "0x" ++ Js.drop 2 (meta_viewingPublicKey parsed).
Proof.
  unfold parseStealthMetaAddress.
  destruct (_ =? 66)%nat; [intros [= <-]; now split|].
  destruct (negb _); [discriminate|]. intros [= <-]. now split.
Qed.

(** X2.  Once the validation of [sendCommand] has accepted a meta-address,
    [generateStealthAddress] with a valid ephemeral key gets through the
    parsing and the decoding of both keys, and it fails in two places only:
    where [ProjectivePoint.fromPrivateKey] rejects the digest of the shared
    secret, and where [toRawBytes] meets the point at infinity, as the
    shared secret or as the sum of the spending point and the point of the
    digest.  Otherwise it returns the address of that sum, the public key
    of the ephemeral key and the first byte of the digest. *)
Theorem validated_meta_address_generates {LL : Secp256k1Laws L}
    (recipientMetaAddress : string) (e rnd : bytes) :
  sendCommand_validate recipientMetaAddress = true ->
  isValidPrivateKey e = true ->
  exists parsed sb spendingPoint vb,
    parseStealthMetaAddress recipientMetaAddress = Ok parsed /\
    h2b (Js.drop 2 (meta_spendingPublicKey parsed)) = Ok sb /\
    fromHex sb = Some spendingPoint /\
    hexToBytes (meta_viewingPublicKey parsed) = Ok vb /\
    outcome (generateStealthAddress recipientMetaAddress (Some e) rnd) =
    match outcome (getSharedSecret e vb) with
    | Err _ => Err PointAtInfinity
    | Ok ss =>
        if isValidPrivateKey (keccak_256 ss) then
          match toRawBytes false
                  (point_add spendingPoint (multiply BASE (b2n (keccak_256 ss)))) with
          | None => Err PointAtInfinity
          | Some stealthPublicKey =>
              Ok {| stealthAddress := address_of_publicKey (bytesToHex stealthPublicKey);
                    ephemeralPublicKey := bytesToHex (encoding true (multiply BASE (b2n e)));
                    viewTag := "0x" ++ Js.slice 2 4 (bytesToHex (keccak_256 ss)) |}
          end
        else Err InvalidPrivateKey
    end.
Proof.
  intros Hv He.
  apply sendCommand_validate_inv in Hv as (parsed & Hp & Hs & Hw).
  destruct (parsed_keys_prefixed _ _ Hp) as [Es Ew].
  apply isValidPublicKey_inv in Hs as (_ & sb & sp & Hsb & Hsp).
  apply isValidPublicKey_inv in Hw as (_ & vb & vp & Hvb & Hvp).
  assert (Hvh : hexToBytes (meta_viewingPublicKey parsed) = Ok vb).
  { rewrite Ew. now apply hexToBytes_of_h2b. }
  exists parsed, sb, sp, vb.
  split; [exact Hp|]. split; [exact Hsb|]. split; [exact Hsp|]. split; [exact Hvh|].
  destruct (outcome (getSharedSecret e vb)) as [ss|err] eqn:Hss.
  - rewrite (generateStealthAddress_run _ e rnd parsed vb ss Hp He Hvh Hss).
    rewrite Hsb. cbn [rbind]. rewrite Hsp. cbn [of_option].
    unfold toPriv. now destruct (isValidPrivateKey (keccak_256 ss)).
  - assert (Ee : err = PointAtInfinity).
    { revert Hss. unfold getSharedSecret, call, outcome. cbn [snd].
      rewrite Hvp. cbn [of_option rbind]. unfold toPriv. rewrite He. cbn [rbind].
      destruct (toRawBytes true _); cbn [of_option]; congruence. }
    subst err. unfold generateStealthAddress.
    rewrite Hp. run. rewrite (getPublicKey_valid _ _ He). run.
    rewrite Hvh. run.
    destruct (getSharedSecret e vb) as [t [ss|err]]; cbn [outcome snd] in Hss;
      [discriminate|].
    run. cbn [outcome snd]. congruence.
Qed.

End KeyValidation.

Lemma Cyclic_encoding : Secp256k1Encoding Cyclic.lib.
Proof.
  split. intros p b. cbn [toRawBytes Cyclic.lib]. unfold Cyclic.encode.
  destruct (Zmod.to_Z p =? 0)%Z; [discriminate|].
  intros H. exists (n2b 32 (Zmod.to_Z p)). left.
  change (x02 :: n2b 32 (Zmod.to_Z p)) with (Cyclic.sec1 true p). congruence.
Qed.

Lemma validated_meta_address_generates_witness :
  exists parsed sb spendingPoint vb,
    parseStealthMetaAddress (createStealthMetaAddress (Cyclic.keysOf 3 5)) = Ok parsed /\
    h2b (Js.drop 2 (meta_spendingPublicKey parsed)) = Ok sb /\
    fromHex (Secp256k1:=Cyclic.lib) sb = Some spendingPoint /\
    hexToBytes (meta_viewingPublicKey parsed) = Ok vb /\
    outcome (generateStealthAddress (L:=Cyclic.lib)
               (createStealthMetaAddress (Cyclic.keysOf 3 5)) (Some (n2b 32 7)) []) =
    match outcome (getSharedSecret (L:=Cyclic.lib) (n2b 32 7) vb) with
    | Err _ => Err PointAtInfinity
    | Ok ss =>
        if isValidPrivateKey (keccak_256 (Secp256k1:=Cyclic.lib) ss) then
          match toRawBytes (Secp256k1:=Cyclic.lib) false
                  (point_add spendingPoint
                     (multiply BASE (b2n (keccak_256 (Secp256k1:=Cyclic.lib) ss)))) with
          | None => Err PointAtInfinity
          | Some stealthPublicKey =>
              Ok {| stealthAddress :=
                      address_of_publicKey (Secp256k1:=Cyclic.lib)
                        (bytesToHex stealthPublicKey);
                    ephemeralPublicKey :=
                      bytesToHex (encoding (L:=Cyclic.lib) true (multiply BASE (b2n (n2b 32 7))));
                    viewTag := "0x" ++ Js.slice 2 4
                                 (bytesToHex (keccak_256 (Secp256k1:=Cyclic.lib) ss)) |}
          end
        else Err InvalidPrivateKey
    end.
Proof.
  apply (validated_meta_address_generates (L:=Cyclic.lib) (LL:=Cyclic_laws)
           (createStealthMetaAddress (Cyclic.keysOf 3 5)) (n2b 32 7) []).
  - vm_compute. reflexivity.
  - vm_compute. reflexivity.
Defined.

(** The meta-address of [cancellingKeys] passes the validation of
    [sendCommand], the digest of the shared secret with the ephemeral
    scalar 3 is a valid scalar, and [generateStealthAddress] throws at the
    point at infinity, on secp256k1 with Keccak-256. *)
Example validated_meta_address_at_infinity :
  sendCommand_validate (L:=Concrete.lib) (createStealthMetaAddress cancellingKeys) = true /\
  rbind (hexToBytes (viewingPublicKey cancellingKeys)) (fun vb =>
    rbind (outcome (getSharedSecret (L:=Concrete.lib) (n2b 32 3) vb)) (fun ss =>
      Ok (isValidPrivateKey (keccak_256 (Secp256k1:=Concrete.lib) ss)))) = Ok true /\
  outcome (generateStealthAddress (L:=Concrete.lib)
             (createStealthMetaAddress cancellingKeys) (Some (n2b 32 3)) []) =
    Err PointAtInfinity.
Proof. repeat (split; [vm_compute; reflexivity|]). vm_compute. reflexivity. Qed.

Section OwnKeys.
Context {L : Secp256k1} {LL : Secp256k1Laws L} {LE : Secp256k1Encoding L}.

(** The compressed public key of a valid private key passes the check. *)
Lemma isValidPublicKey_publicKey (k : bytes) :
  isValidPrivateKey k = true ->
  isValidPublicKey (bytesToHex (encoding true (multiply BASE (b2n k)))) =
  ([OpFromHex], Ok true).
Proof.
  intros Hk. unfold isValidPublicKey, bytesToHex.
  change (Js.drop 2 ("0x" ++ ?s)) with s.
  rewrite length_hex_of_bytes, (length_publicKey k Hk).
  cbn [Nat.mul Nat.add Nat.eqb negb].
  assert (Hp : (negb (Js.startsWith "02" (hex_of_bytes (encoding true (multiply BASE (b2n k)))))
                && negb (Js.startsWith "03"
                           (hex_of_bytes (encoding true (multiply BASE (b2n k))))))%bool
               = false).
  { destruct (toRawBytes_compressed_head _ _ (toRawBytes_publicKey true k Hk))
      as (t & [E|E]); rewrite E.
    - now rewrite startsWith_hex_of_bytes_02.
    - rewrite startsWith_hex_of_bytes_03. apply andb_false_r. }
  rewrite Hp. unfold ProjectivePoint_fromHex, call.
  rewrite h2b_hex_of_bytes. cbn [rbind]. now rewrite fromHex_publicKey.
Qed.

Lemma length_createStealthMetaAddress (keys : StealthKeys) :
  isPublicKeyHex (spendingPublicKey keys) ->
  isPublicKeyHex (viewingPublicKey keys) ->
  String.length (createStealthMetaAddress keys) = 134%nat.
Proof.
  intros [_ Hs] [_ Hv]. unfold createStealthMetaAddress.
  cbn [append String.length]. rewrite slength_app, !length_drop, Hs, Hv. reflexivity.
Qed.

(** X3.  The meta-address of a key pair made by key generation has 134
    characters, the length the prompt of [sendCommand] asks for, and
    passes the validation of [sendCommand]: it parses, and both keys are
    accepted by [isValidPublicKey]. *)
Theorem own_meta_address_validates (sk vk : bytes) (keys : StealthKeys) :
  outcome (generateRandomKeys sk vk) = Ok keys ->
  String.length (createStealthMetaAddress keys) = 134%nat /\
  outcome (isValidPublicKey (spendingPublicKey keys)) = Ok true /\
  outcome (isValidPublicKey (viewingPublicKey keys)) = Ok true /\
  sendCommand_validate (createStealthMetaAddress keys) = true.
Proof.
  intros Hk. pose proof (parse_meta_of_keys _ _ _ Hk) as Hp.
  apply generateRandomKeys_inv in Hk as (Hs & Hv & Ek).
  assert (Vs : outcome (isValidPublicKey (spendingPublicKey keys)) = Ok true).
  { rewrite Ek. cbn [spendingPublicKey]. now rewrite isValidPublicKey_publicKey. }
  assert (Vv : outcome (isValidPublicKey (viewingPublicKey keys)) = Ok true).
  { rewrite Ek. cbn [viewingPublicKey]. now rewrite isValidPublicKey_publicKey. }
  split; [|split; [exact Vs|split; [exact Vv|]]].
  - apply length_createStealthMetaAddress; rewrite Ek;
      cbn [spendingPublicKey viewingPublicKey];
      apply isPublicKeyHex_bytesToHex, length_publicKey; assumption.
  - unfold sendCommand_validate. rewrite Hp.
    cbn [meta_spendingPublicKey meta_viewingPublicKey]. now rewrite Vs, Vv.
Qed.

(** X4.  The main address of a wallet, which [saveWallet] derives from
    the spending public key, is the account address of the spending
    private key, the key [sendCommand] and [registerCommand] sign with. *)
Theorem main_address_is_spending_account (sk vk : bytes) (keys : StealthKeys) :
  outcome (generateRandomKeys sk vk) = Ok keys ->
  exists address,
    outcome (deriveMainAddress (spendingPublicKey keys)) = Ok address /\
    outcome (privateKeyToAddress (spendingPrivateKey keys)) = Ok address.
Proof.
  intros Hk. apply generateRandomKeys_inv in Hk as (Hs & Hv & ->).
  cbn [spendingPublicKey spendingPrivateKey].
  exists (address_of_publicKey (bytesToHex (encoding false (multiply BASE (b2n sk))))).
  split.
  - unfold deriveMainAddress, ProjectivePoint_fromHex.
    rewrite (spendingPoint_of_keys sk Hs). run.
    rewrite (toRawBytes_publicKey false sk Hs). reflexivity.
  - unfold privateKeyToAddress. rewrite hexToBytes_bytesToHex. run.
    rewrite (getPublicKey_valid _ _ Hs). reflexivity.
Qed.

End OwnKeys.

Lemma own_meta_address_validates_witness :
  String.length (createStealthMetaAddress (Cyclic.keysOf 3 5)) = 134%nat /\
  outcome (isValidPublicKey (L:=Cyclic.lib) (spendingPublicKey (Cyclic.keysOf 3 5))) = Ok true /\
  outcome (isValidPublicKey (L:=Cyclic.lib) (viewingPublicKey (Cyclic.keysOf 3 5))) = Ok true /\
  sendCommand_validate (L:=Cyclic.lib) (createStealthMetaAddress (Cyclic.keysOf 3 5)) = true.
Proof.
  apply (own_meta_address_validates (L:=Cyclic.lib) (LL:=Cyclic_laws) (LE:=Cyclic_encoding)
           (n2b 32 3) (n2b 32 5) (Cyclic.keysOf 3 5)).
  vm_compute. reflexivity.
Defined.

Lemma main_address_is_spending_account_witness :
  exists address,
    outcome (deriveMainAddress (L:=Cyclic.lib) (spendingPublicKey (Cyclic.keysOf 3 5))) =
      Ok address /\
    outcome (privateKeyToAddress (L:=Cyclic.lib) (spendingPrivateKey (Cyclic.keysOf 3 5))) =
      Ok address.
Proof.
  apply (main_address_is_spending_account (L:=Cyclic.lib) (LL:=Cyclic_laws)
           (n2b 32 3) (n2b 32 5) (Cyclic.keysOf 3 5)).
  vm_compute. reflexivity.
Defined.

Section SignatureKeys.
Context {L : Secp256k1}.

Lemma keccak256_of_string_hex (digits : string) (b : bytes) :
  h2b digits = Ok b ->
  keccak256_of_string ("0x" ++ digits) = ([OpKeccak256], Ok (bytesToHex (keccak_256 b))).
Proof.
  intros H. unfold keccak256_of_string.
  now rewrite (isHex_of_h2b _ _ H), (hexToBytes_of_h2b _ _ H).
Qed.

(** The two portions of the signature that are hashed, as slices of the
    signature itself. *)
Lemma signature_portions (signature : string) :
  Js.slice 0 64 (Js.drop 2 signature) = Js.slice 2 66 signature /\
  Js.slice 64 128 (Js.drop 2 signature) = Js.slice 66 130 signature.
Proof.
  unfold Js.slice. split.
  - reflexivity.
  - rewrite drop_drop. reflexivity.
Qed.

(** X5.  On a signature of 65 bytes in hex, [deriveKeysFromSignature]
    hashes the first 32 bytes [r] into the spending private key and the
    next 32 bytes [s] into the viewing private key.  It throws when the
    spending digest, or else the viewing digest, is no valid private key;
    otherwise it returns the key pair that key generation builds from the
    two digests. *)
Theorem deriveKeysFromSignature_keys (signature : string) (r s : bytes) :
  String.length signature = 132%nat ->
  h2b (Js.slice 2 66 signature) = Ok r ->
  h2b (Js.slice 66 130 signature) = Ok s ->
  snd (deriveKeysFromSignature signature) =
  if negb (isValidPrivateKey (keccak_256 r)) then Throws DerivedSpendingKeyInvalid
  else if negb (isValidPrivateKey (keccak_256 s)) then Throws DerivedViewingKeyInvalid
  else of_result (outcome (generateRandomKeys (keccak_256 r) (keccak_256 s))).
Proof.
  intros Hl Hr Hs. unfold deriveKeysFromSignature.
  rewrite Hl. cbn [Nat.eqb negb].
  destruct (signature_portions signature) as [-> ->].
  rewrite (keccak256_of_string_hex _ _ Hr), (keccak256_of_string_hex _ _ Hs).
  trun. rewrite !hexToBytes_bytesToHex. unfold lift. trun.
  destruct (isValidPrivateKey (keccak_256 r)) eqn:Vr; cbn [negb]; [|reflexivity].
  destruct (isValidPrivateKey (keccak_256 s)) eqn:Vs; cbn [negb]; [|reflexivity].
  unfold generateRandomKeys.
  destruct (getPublicKey (keccak_256 r) true) as [t1 [p1|e1]]; [|reflexivity].
  destruct (getPublicKey (keccak_256 s) true) as [t2 [p2|e2]]; reflexivity.
Qed.

(** X6.  [deriveKeysFromSignature] rejects every string whose length is
    not 132 without hashing anything, and of a string of that length it
    reads the characters 2 to 129 only: two signatures that differ in the
    last byte (the recovery value) or in the two prefix characters derive
    the same keys. *)
Theorem deriveKeysFromSignature_reads_r_and_s (signature signature' : string) :
  (String.length signature <> 132%nat ->
   deriveKeysFromSignature signature = ([], Throws InvalidSignatureLength)) /\
  (String.length signature = 132%nat -> String.length signature' = 132%nat ->
   Js.slice 2 130 signature = Js.slice 2 130 signature' ->
   deriveKeysFromSignature signature = deriveKeysFromSignature signature').
Proof.
  split.
  - intros Hl. unfold deriveKeysFromSignature.
    now destruct (Nat.eqb_spec (String.length signature) 132).
  - intros Hl Hl' He. unfold deriveKeysFromSignature. rewrite Hl, Hl'.
    cbn [Nat.eqb negb]. unfold Js.slice in *.
    change (130 - 2)%nat with 128%nat in He.
    change (64 - 0)%nat with 64%nat. change (128 - 64)%nat with 64%nat.
    change (Js.drop 0 (Js.drop 2 signature)) with (Js.drop 2 signature).
    change (Js.drop 0 (Js.drop 2 signature')) with (Js.drop 2 signature').
    assert (E1 : Js.take 64 (Js.drop 2 signature) = Js.take 64 (Js.drop 2 signature')).
    { rewrite <- (take_take 64 128 (Js.drop 2 signature)) by lia.
      rewrite <- (take_take 64 128 (Js.drop 2 signature')) by lia. now rewrite He. }
    assert (E2 : Js.take 64 (Js.drop 64 (Js.drop 2 signature)) =
                 Js.take 64 (Js.drop 64 (Js.drop 2 signature'))).
    { rewrite <- !(drop_take 64 64). change (64 + 64)%nat with 128%nat. now rewrite He. }
    now rewrite E1, E2.
Qed.

(** X7.  A meta-address that holds one key is read as the pair of that
    key with itself: [generateStealthAddress] and the validation of
    [sendCommand] treat [0x] followed by the 66 digits of a key like [0x]
    followed by the digits twice. *)
Theorem single_key_meta_address (key : string) (e : option bytes) (rnd : bytes) :
  String.length key = 66%nat ->
  generateStealthAddress ("0x" ++ key) e rnd =
    generateStealthAddress ("0x" ++ key ++ key) e rnd /\
  sendCommand_validate ("0x" ++ key) = sendCommand_validate ("0x" ++ key ++ key).
Proof.
  intros Hl.
  assert (P1 : parseStealthMetaAddress ("0x" ++ key) =
               Ok {| meta_spendingPublicKey := "0x" ++ key;
                     meta_viewingPublicKey := "0x" ++ key |}).
  { unfold parseStealthMetaAddress. change (Js.drop 2 ("0x" ++ key)) with key.
    now rewrite Hl. }
  assert (P2 : parseStealthMetaAddress ("0x" ++ key ++ key) =
               Ok {| meta_spendingPublicKey := "0x" ++ key;
                     meta_viewingPublicKey := "0x" ++ key |}).
  { unfold parseStealthMetaAddress.
    change (Js.drop 2 ("0x" ++ key ++ key)) with (key ++ key).
    rewrite slength_app, Hl. cbn [Nat.add Nat.eqb negb].
    unfold Js.slice. change (66 - 0)%nat with 66%nat.
    change (Js.drop 0 (key ++ key)) with (key ++ key).
    rewrite <- Hl. now rewrite take_app, drop_app. }
  unfold generateStealthAddress, sendCommand_validate. now rewrite P1, P2.
Qed.

End SignatureKeys.

Lemma deriveKeysFromSignature_keys_witness :
  snd (deriveKeysFromSignature (L:=Cyclic.lib)
         ("0x" ++ Js.repeat_char "0" 62 ++ "03" ++ Js.repeat_char "0" 62 ++ "05" ++ "1b")) =
  if negb (isValidPrivateKey (keccak_256 (Secp256k1:=Cyclic.lib) (n2b 32 3)))
  then Throws DerivedSpendingKeyInvalid
  else if negb (isValidPrivateKey (keccak_256 (Secp256k1:=Cyclic.lib) (n2b 32 5)))
  then Throws DerivedViewingKeyInvalid
  else of_result (outcome (generateRandomKeys (L:=Cyclic.lib)
                             (keccak_256 (Secp256k1:=Cyclic.lib) (n2b 32 3))
                             (keccak_256 (Secp256k1:=Cyclic.lib) (n2b 32 5)))).
Proof.
  apply (deriveKeysFromSignature_keys (L:=Cyclic.lib)
           ("0x" ++ Js.repeat_char "0" 62 ++ "03" ++ Js.repeat_char "0" 62 ++ "05" ++ "1b")
           (n2b 32 3) (n2b 32 5)).
  - vm_compute. reflexivity.
  - vm_compute. reflexivity.
  - vm_compute. reflexivity.
Defined.

Lemma single_key_meta_address_witness :
  generateStealthAddress (L:=Cyclic.lib)
    ("0x" ++ Js.drop 2 (spendingPublicKey (Cyclic.keysOf 3 5))) (Some (n2b 32 7)) [] =
  generateStealthAddress (L:=Cyclic.lib)
    ("0x" ++ Js.drop 2 (spendingPublicKey (Cyclic.keysOf 3 5))
          ++ Js.drop 2 (spendingPublicKey (Cyclic.keysOf 3 5))) (Some (n2b 32 7)) [] /\
  sendCommand_validate (L:=Cyclic.lib)
    ("0x" ++ Js.drop 2 (spendingPublicKey (Cyclic.keysOf 3 5))) =
  sendCommand_validate (L:=Cyclic.lib)
    ("0x" ++ Js.drop 2 (spendingPublicKey (Cyclic.keysOf 3 5))
          ++ Js.drop 2 (spendingPublicKey (Cyclic.keysOf 3 5))).
Proof.
  apply (single_key_meta_address (L:=Cyclic.lib)
           (Js.drop 2 (spendingPublicKey (Cyclic.keysOf 3 5))) (Some (n2b 32 7)) []).
  vm_compute. reflexivity.
Defined.

Lemma deriveKeysFromSignature_reads_r_and_s_witness :
  deriveKeysFromSignature (L:=Cyclic.lib)
    ("0x" ++ Js.repeat_char "0" 62 ++ "03" ++ Js.repeat_char "0" 62 ++ "05" ++ "1b") =
  deriveKeysFromSignature (L:=Cyclic.lib)
    ("0X" ++ Js.repeat_char "0" 62 ++ "03" ++ Js.repeat_char "0" 62 ++ "05" ++ "1c").
Proof.
  apply (proj2 (deriveKeysFromSignature_reads_r_and_s (L:=Cyclic.lib)
           ("0x" ++ Js.repeat_char "0" 62 ++ "03" ++ Js.repeat_char "0" 62 ++ "05" ++ "1b")
           ("0X" ++ Js.repeat_char "0" 62 ++ "03" ++ Js.repeat_char "0" 62 ++ "05" ++ "1c")));
    vm_compute; reflexivity.
Defined.

(* ================================================================== *)
(** * The scan: every entry can be spent *)

Section Spendable.
Context {L : Secp256k1} {LL : Secp256k1Laws L}.

(** A run of the loop that returns has got through every announcement. *)
Lemma scanStep_inv (keys : StealthKeys) (acc owned : list OwnedStealthAddress)
    (a : AnnouncementData) :
  outcome (scanStep keys acc a) = Ok owned -> scannable keys a.
Proof.
  unfold scanStep, scannable, recognized, recovered. intros H.
  apply outcome_bind_inv in H as ([] & Hc & H).
  - right. split; [exact Hc|].
    apply outcome_bind_inv in H as (k & Hk & _). now exists k.
  - now left.
Qed.

Lemma scanFrom_inv (keys : StealthKeys) (announcements : list AnnouncementData) :
  forall acc owned,
  outcome (scanFrom keys acc announcements) = Ok owned ->
  Forall (scannable keys) announcements.
Proof.
  induction announcements as [|a rest IH]; intros acc owned H; [constructor|].
  cbn [scanFrom] in H. apply outcome_bind_inv in H as (acc' & Ha & H).
  constructor; [now apply scanStep_inv in Ha | now apply IH in H].
Qed.

(** What [checkStealthAddress] has established when it returns [true] for
    the keys of a wallet. *)
Lemma recognized_inv (sk vk : bytes) (keys : StealthKeys) (a : AnnouncementData) :
  outcome (generateRandomKeys sk vk) = Ok keys ->
  recognized keys a = Ok true ->
  exists eb ss stealthPublicKey,
    hexToBytes (ann_ephemeralPubKey a) = Ok eb /\
    outcome (getSharedSecret vk eb) = Ok ss /\
    isValidPrivateKey (keccak_256 ss) = true /\
    toRawBytes false
      (point_add (multiply BASE (b2n sk)) (multiply BASE (b2n (keccak_256 ss)))) =
      Some stealthPublicKey /\
    Js.toLowerCase (address_of_publicKey (bytesToHex stealthPublicKey)) =
    Js.toLowerCase (ann_stealthAddress a).
Proof.
  intros Hk. apply generateRandomKeys_inv in Hk as (Hs & Hv & ->).
  unfold recognized. cbn [spendingPublicKey viewingPrivateKey].
  destruct (hexToBytes (ann_ephemeralPubKey a)) as [eb|e] eqn:He.
  2:{ unfold checkStealthAddress. rewrite hexToBytes_bytesToHex, He. discriminate. }
  destruct (outcome (getSharedSecret vk eb)) as [ss|e] eqn:Hss.
  2:{ unfold checkStealthAddress. rewrite hexToBytes_bytesToHex, He. run.
      rewrite (M_eta (getSharedSecret vk eb)), Hss. discriminate. }
  destruct (String.eqb
              (Js.toLowerCase ("0x" ++ Js.slice 2 4 (bytesToHex (keccak_256 ss))))
              (Js.toLowerCase (extractViewTag (ann_metadata a)))) eqn:Ht.
  2:{ unfold checkStealthAddress. rewrite hexToBytes_bytesToHex, He. run.
      rewrite (getSharedSecret_inv _ _ _ Hss). run. unfold keccak256. run.
      rewrite Ht. discriminate. }
  rewrite (checkStealthAddress_match _ _ _ _ _ vk eb ss
             (hexToBytes_bytesToHex vk) He Hss Ht).
  rewrite (spendingPoint_of_keys sk Hs).
  unfold toPriv. destruct (isValidPrivateKey (keccak_256 ss)) eqn:Vh; [|discriminate].
  destruct (toRawBytes false _) as [stealthPublicKey|] eqn:Ep; [|discriminate].
  intros [= E]. apply String.eqb_eq in E.
  exists eb, ss, stealthPublicKey. auto.
Qed.

(** X8.  Every entry of a scan with the keys of a wallet can be spent:
    unless the recovered key is the zero scalar, the account address of
    the private key stored in the entry is the stealth address stored in
    it, up to the case of the hex digits. *)
Theorem scan_entries_spendable (sk vk : bytes) (keys : StealthKeys)
    (announcements : list AnnouncementData) (owned : list OwnedStealthAddress) :
  outcome (generateRandomKeys sk vk) = Ok keys ->
  outcome (scanAnnouncements keys announcements) = Ok owned ->
  Forall (fun o =>
            owned_privateKey o <> "0x" ++ Js.repeat_char "0" 64 ->
            exists address,
              outcome (privateKeyToAddress (owned_privateKey o)) = Ok address /\
              Js.toLowerCase address = Js.toLowerCase (owned_address o)) owned.
Proof.
  intros Hk Hscan. unfold scanAnnouncements in Hscan.
  pose proof (scanFrom_inv _ _ _ _ Hscan) as Hall.
  rewrite (scanFrom_scannable keys announcements [] Hall) in Hscan.
  injection Hscan as <-. cbn [app].
  apply Forall_map, Forall_forall. intros a Ha.
  apply filter_In in Ha as [_ Ha]. unfold isOurs in Ha.
  destruct (recognized keys a) as [[]|] eqn:Hr; try discriminate. clear Ha.
  destruct (recognized_inv sk vk keys a Hk Hr)
    as (eb & ss & pub & He & Hss & Vh & Ep & Ea).
  unfold ownedOf, recovered. cbn [owned_privateKey owned_address].
  pose proof Hk as Hk'. apply generateRandomKeys_inv in Hk' as (Hs & Hv & ->).
  cbn [spendingPrivateKey viewingPrivateKey].
  rewrite (computeStealthPrivateKey_run _ _ _ vk eb ss (b2n sk)
             (hexToBytes_bytesToHex vk) He Hss).
  2:{ apply BigInt_bytesToHex. apply isValidPrivateKey_spec in Hs as [Hl _].
      now destruct sk. }
  2:{ apply b2n_range. }
  cbn [outcome snd]. intros Hnz.
  apply isValidPrivateKey_spec in Hs as [_ Hs], Vh as [_ Vh].
  pose proof (Z.mod_pos_bound (b2n sk + b2n (keccak_256 ss)) CURVE_ORDER
                ltac:(reflexivity)) as Hm.
  rewrite (toRawBytes_stealthPoint false _ _ Hs Vh) in Ep.
  destruct (Z.eqb_spec ((b2n sk + b2n (keccak_256 ss)) mod CURVE_ORDER) 0) as [|Hr0];
    [discriminate|].
  assert (Epub : pub = encoding false
                         (multiply BASE ((b2n sk + b2n (keccak_256 ss)) mod CURVE_ORDER)))
    by congruence.
  subst pub. eexists. split.
  - apply privateKeyToAddress_scalar. lia.
  - exact Ea.
Qed.

End Spendable.

Lemma scan_entries_spendable_witness :
  Forall (fun o =>
            owned_privateKey o <> "0x" ++ Js.repeat_char "0" 64 ->
            exists address,
              outcome (privateKeyToAddress (L:=Cyclic.lib) (owned_privateKey o)) = Ok address /\
              Js.toLowerCase address = Js.toLowerCase (owned_address o))
    [ {| owned_address := ann_stealthAddress cyclicOurs;
         owned_privateKey :=
           "0x2323232323232323232323232323232323232323232323232323232323232326";
         owned_balance := 0;
         owned_announcement := cyclicOurs |} ].
Proof.
  apply (scan_entries_spendable (L:=Cyclic.lib) (LL:=Cyclic_laws)
           (n2b 32 3) (n2b 32 5) (Cyclic.keysOf 3 5) [cyclicOther; cyclicOurs]).
  - vm_compute. reflexivity.
  - vm_compute. reflexivity.
Defined.

(* ================================================================== *)
(** * The reference instance of [JSON] satisfies the laws *)

Lemma Tagged_dec_nat (n : nat) (rest : string) :
  Tagged.dec_nat (Tagged.enc_nat n ++ rest) = Some (n, rest).
Proof.
  unfold Tagged.enc_nat. induction n as [|n IH]; [reflexivity|].
  cbn [Js.repeat_char append Tagged.dec_nat]. cbn [append] in IH. now rewrite IH.
Qed.

Lemma Tagged_dec_Z (z : Z) (rest : string) :
  Tagged.dec_Z (Tagged.enc_Z z ++ rest) = Some (z, rest).
Proof.
  unfold Tagged.enc_Z. destruct (Z.ltb_spec z 0) as [H|H];
    cbn [append Tagged.dec_Z]; rewrite Tagged_dec_nat; f_equal; f_equal;
    rewrite Zabs2Nat.id_abs; lia.
Qed.

Lemma length_list_byte_of_string (s : string) :
  List.length (list_byte_of_string s) = String.length s.
Proof.
  induction s as [|c s IH]; [reflexivity|].
  change (list_byte_of_string (String c s)) with (byte_of_ascii c :: list_byte_of_string s).
  cbn [List.length String.length]. now rewrite IH.
Qed.

Lemma Tagged_dec_string (s rest : string) :
  Tagged.dec_string (Tagged.enc_string s ++ rest) = Some (s, rest).
Proof.
  unfold Tagged.enc_string, Tagged.dec_string.
  rewrite app_assoc_s, Tagged_dec_nat.
  assert (El : String.length (hex_of_bytes (list_byte_of_string s)) =
               (2 * String.length s)%nat)
    by now rewrite length_hex_of_bytes, length_list_byte_of_string.
  rewrite <- El, slength_app.
  destruct (Nat.leb_spec (String.length (hex_of_bytes (list_byte_of_string s)))
              (String.length (hex_of_bytes (list_byte_of_string s)) + String.length rest));
    [|lia].
  rewrite take_app, drop_app, bytes_of_hex_of_bytes.
  now rewrite string_of_list_byte_of_string.
Qed.

Lemma Tagged_dec_enc (fuel : nat) :
  forall (v : value) (rest : string),
  (Tagged.value_size v <= fuel)%nat -> Tagged.dec fuel (Tagged.enc v ++ rest) = Some (v, rest).
Proof.
  induction fuel as [|fuel IH]; intros v rest Hs.
  - destruct v; cbn [Tagged.value_size] in Hs; lia.
  - destruct v as [| |[]|z|s|ps]; try reflexivity.
    + cbn [Tagged.enc append Tagged.dec]. now rewrite Tagged_dec_Z.
    + cbn [Tagged.enc append Tagged.dec]. now rewrite Tagged_dec_string.
    + cbn [Tagged.enc append Tagged.dec]. rewrite app_assoc_s, Tagged_dec_nat.
      cbn [Tagged.value_size] in Hs. apply le_S_n in Hs.
      match goal with
      | |- match ?f _ _ with _ => _ end = _ =>
          assert (G : f (List.length ps)
                        (((fix go (ps : list (string * value)) : string :=
                             match ps with
                             | [] => ""
                             | (k, x) :: rest => Tagged.enc_string k ++ Tagged.enc x ++ go rest
                             end) ps) ++ rest) = Some (ps, rest))
      end.
      { revert Hs. induction ps as [|[k x] ps IHps]; intros Hs; [reflexivity|].
        cbn [List.length]. rewrite !app_assoc_s, Tagged_dec_string.
        rewrite IH by lia. rewrite IHps by lia. reflexivity. }
      now rewrite G.
Qed.

Lemma Tagged_size_length (n : nat) :
  forall v : value, (Tagged.value_size v <= n)%nat ->
  (Tagged.value_size v <= String.length (Tagged.enc v))%nat.
Proof.
  induction n as [|n IH]; intros v Hs.
  - destruct v; cbn [Tagged.value_size] in Hs; lia.
  - destruct v as [| |[]|z|s|ps]; try (cbn; lia).
    cbn [Tagged.enc Tagged.value_size] in *. apply le_S_n in Hs.
    cbn [append String.length]. rewrite slength_app. apply le_n_S.
    match goal with
    | |- (?a <= _ + ?b)%nat => enough (a <= b)%nat by lia
    end.
    revert Hs. induction ps as [|[k x] ps IHps]; intros Hs; [cbn; lia|].
    rewrite !slength_app. specialize (IH x ltac:(lia)). specialize (IHps ltac:(lia)). lia.
Qed.

(** The serialisation is written in ASCII characters. *)
Lemma allAscii_enc_nat (n : nat) : allAscii (Tagged.enc_nat n) = true.
Proof.
  unfold Tagged.enc_nat. induction n as [|n IH]; [reflexivity|].
  cbn [Js.repeat_char append allAscii]. now rewrite IH.
Qed.

Lemma isAscii_hexchar (d : N) : isAscii (hexchar d) = true.
Proof.
  destruct d as [|p]; [reflexivity|].
  do 5 (try (destruct p as [p|p|]; try reflexivity)).
Qed.

Lemma allAscii_hex_of_bytes (bs : bytes) : allAscii (hex_of_bytes bs) = true.
Proof.
  induction bs as [|b bs IH]; [reflexivity|].
  cbn [hex_of_bytes hex_of_byte append allAscii].
  now rewrite !isAscii_hexchar, IH.
Qed.

Lemma allAscii_enc_string (s : string) : allAscii (Tagged.enc_string s) = true.
Proof.
  unfold Tagged.enc_string.
  now rewrite allAscii_app, allAscii_enc_nat, allAscii_hex_of_bytes.
Qed.

Lemma allAscii_enc_fuel (n : nat) :
  forall v : value, (Tagged.value_size v <= n)%nat -> allAscii (Tagged.enc v) = true.
Proof.
  induction n as [|n IH]; intros v Hs.
  - destruct v; cbn [Tagged.value_size] in Hs; lia.
  - destruct v as [| |[]|z|s|ps]; try reflexivity.
    + cbn [Tagged.enc append allAscii]. unfold Tagged.enc_Z.
      rewrite allAscii_app, allAscii_enc_nat. now destruct (z <? 0)%Z.
    + cbn [Tagged.enc append allAscii]. apply allAscii_enc_string.
    + cbn [Tagged.enc Tagged.value_size] in *. apply le_S_n in Hs.
      cbn [append allAscii]. rewrite allAscii_app, allAscii_enc_nat.
      cbn [isAscii andb]. change (isAscii "o") with true. cbn [andb].
      revert Hs. induction ps as [|[k x] ps IHps]; intros Hs; [reflexivity|].
      rewrite !allAscii_app, allAscii_enc_string, (IH x) by lia.
      cbn [andb]. apply IHps. lia.
Qed.

Lemma allAscii_enc (v : value) : allAscii (Tagged.enc v) = true.
Proof. now apply (allAscii_enc_fuel (Tagged.value_size v)). Qed.

Lemma Tagged_laws : JsonLaws Tagged.json.
Proof.
  split.
  - intros space v Hv. cbn [JSON_parse JSON_stringify Tagged.json].
    rewrite <- (app_empty_r (Tagged.enc v)) at 2.
    rewrite Tagged_dec_enc, Hv; [reflexivity|].
    apply le_S, (Tagged_size_length (Tagged.value_size v)). lia.
  - intros text v. cbn [JSON_parse Tagged.json].
    destruct (Tagged.dec _ text) as [[x [|]]|]; try discriminate.
    destruct (serializable x) eqn:E; [|discriminate]. now intros [= <-].
  - intros space v _. cbn [JSON_stringify Tagged.json]. split.
    + apply isWellFormed_ascii, allAscii_enc.
    + apply startsWithBOM_ascii, allAscii_enc.
Qed.

(* ================================================================== *)
(** * Files *)

Lemma fileContent_writeContent (path content : string) (fs : list (string * string)) :
  fileContent path (writeContent path content fs) = Some content.
Proof.
  induction fs as [|[p c] fs IH]; cbn [writeContent fileContent].
  - now rewrite String.eqb_refl.
  - destruct (String.eqb path p) eqn:E; cbn [fileContent]; now rewrite E.
Qed.

Lemma fileContent_writeContent_other (path other content : string)
    (fs : list (string * string)) :
  other <> path ->
  fileContent other (writeContent path content fs) = fileContent other fs.
Proof.
  intros Hne. induction fs as [|[p c] fs IH]; cbn [writeContent fileContent].
  - destruct (String.eqb_spec other path); [contradiction|reflexivity].
  - destruct (String.eqb_spec path p) as [<-|]; cbn [fileContent].
    + destruct (String.eqb_spec other path); [contradiction|reflexivity].
    + now rewrite IH.
Qed.

Lemma fileContent_eraseFile (path : string) (fs : list (string * string)) :
  fileContent path (eraseFile path fs) = None.
Proof.
  induction fs as [|[p c] fs IH]; [reflexivity|]. cbn [eraseFile].
  destruct (String.eqb path p) eqn:E; [exact IH|]. cbn [fileContent]. now rewrite E.
Qed.

Lemma fileContent_eraseFile_other (path other : string) (fs : list (string * string)) :
  other <> path -> fileContent other (eraseFile path fs) = fileContent other fs.
Proof.
  intros Hne. induction fs as [|[p c] fs IH]; [reflexivity|]. cbn [eraseFile fileContent].
  destruct (String.eqb_spec path p) as [<-|].
  - destruct (String.eqb_spec other path); [contradiction|exact IH].
  - cbn [fileContent]. now rewrite IH.
Qed.

Lemma append_inv_head (p a b : string) : p ++ a = p ++ b -> a = b.
Proof. induction p as [|c p IH]; cbn [append]; [auto|]. intros [= H]. auto. Qed.

Lemma WALLET_FILE_not_CONFIG_FILE (w : World) :
  String.eqb (WALLET_FILE w) (CONFIG_FILE w) = false.
Proof.
  apply String.eqb_neq. unfold WALLET_FILE, CONFIG_FILE. intros H.
  apply append_inv_head in H. discriminate.
Qed.

(* ================================================================== *)
(** * [lib/storage]: the wallet file *)

Section WalletFile.
Context {L : Secp256k1} {C : Cipher} {J : Json}.

Lemma ensureDir_run (w : World) : ensureDir w = (Returns tt, with_walletDir true w).
Proof.
  unfold ensureDir, try_catch, access_WALLET_DIR, mkdir_WALLET_DIR.
  destruct w as [h [] fs wr c r n]; reflexivity.
Qed.

Lemma walletExists_run (w : World) :
  walletExists w =
  (Returns (match fileContent (WALLET_FILE w) (files w) with
            | Some _ => true | None => false end), w).
Proof.
  unfold walletExists, try_catch, sbind, access, sret.
  now destruct (fileContent (WALLET_FILE w) (files w)).
Qed.

(** The object [saveWallet] writes for a key pair. *)
Lemma saveWallet_inv (keys : StealthKeys) (password : string) (w w' : World)
    (wd : WalletData) :
  saveWallet keys password w = (Returns wd, w') ->
  exists address,
    outcome (deriveMainAddress (spendingPublicKey keys)) = Ok address /\
    let r := encryptData (JSON_stringify 0 (object_of_keys keys)) password (random w) in
    wd = {| wallet_address := VStr address;
            wallet_stealthMetaAddress := VStr (createStealthMetaAddress keys);
            wallet_keys := object_of_keys keys;
            wallet_createdAt := VNum (clock w) |} /\
    w' = with_files
           (writeContent (WALLET_FILE w)
              (JSON_stringify 2
                 (encryptedWallet (VStr address) (VStr (createStealthMetaAddress keys))
                    (VNum (clock w)) (fst r)))
              (files w))
           (with_random (snd r) (with_walletDir true w)).
Proof.
  unfold saveWallet. unfold sbind at 1. rewrite ensureDir_run.
  unfold sbind at 1. unfold slift at 1.
  destruct (outcome (deriveMainAddress (spendingPublicKey keys))) as [address|e];
    cbn [of_result]; [|discriminate].
  unfold sbind at 1. unfold encryptData_on.
  cbn [random with_walletDir].
  destruct (encryptData (JSON_stringify 0 (object_of_keys keys)) password (random w))
    as [data e] eqn:Ed.
  unfold sbind at 1. unfold Date_now. cbn [clock with_random with_walletDir].
  unfold sbind, writeFile, sret.
  cbn [homedir walletDir files with_random with_walletDir WALLET_FILE WALLET_DIR CONFIG_FILE].
  change (homedir w ++ "/.stealth-wallet") with (WALLET_DIR w).
  change (WALLET_DIR w ++ "/wallet.json") with (WALLET_FILE w).
  rewrite String.eqb_refl. cbn [orb].
  intros [= <- <-]. exists address. split; [reflexivity|]. cbn [fst snd]. split; reflexivity.
Qed.

End WalletFile.

Section WalletFileLaws.
Context {L : Secp256k1} {C : Cipher} {CL : CipherLaws C} {J : Json} {JL : JsonLaws J}.

Lemma decryptData_of_strings (encryptedHex password saltHex ivHex : string) :
  decryptData_of (VStr encryptedHex) password (VStr saltHex) (VStr ivHex) =
  of_result (decryptData encryptedHex password saltHex ivHex).
Proof.
  unfold decryptData_of, decryptData, hexToBytes_of.
  destruct (hexToBytes saltHex) as [s|e]; cbn [of_result rbind]; [|reflexivity].
  destruct (hexToBytes ivHex) as [i|e]; cbn [of_result rbind]; [|reflexivity].
  destruct (hexToBytes encryptedHex) as [c|e]; cbn [of_result rbind]; [|reflexivity].
  now destruct (aes_gcm_decrypt _ _ _).
Qed.

Lemma serializable_object_of_keys (keys : StealthKeys) :
  serializable (object_of_keys keys) = true.
Proof. reflexivity. Qed.

Lemma serializable_encryptedWallet (address stealthMetaAddress createdAt : value)
    (data : EncryptedData) :
  serializable address = true -> serializable stealthMetaAddress = true ->
  serializable createdAt = true ->
  serializable (encryptedWallet address stealthMetaAddress createdAt data) = true.
Proof.
  intros Ha Hs Hc. unfold encryptedWallet. cbn. now rewrite Ha, Hs, Hc.
Qed.

(** [loadWallet] on a wallet file that holds the keys encrypted under the
    password. *)
Lemma loadWallet_file (password : string) (w : World) (space : nat)
    (address stealthMetaAddress createdAt : value) (keys : StealthKeys) (e : entropy) :
  serializable address = true -> serializable stealthMetaAddress = true ->
  serializable createdAt = true ->
  fileContent (WALLET_FILE w) (files w) =
    Some (JSON_stringify space
            (encryptedWallet address stealthMetaAddress createdAt
               (fst (encryptData (JSON_stringify 0 (object_of_keys keys)) password e)))) ->
  loadWallet password w =
  if strictEquals (VStr (createStealthMetaAddress keys)) stealthMetaAddress
  then (Returns {| wallet_address := address;
                   wallet_stealthMetaAddress := stealthMetaAddress;
                   wallet_keys := object_of_keys keys;
                   wallet_createdAt := createdAt |}, w)
  else (Throws WalletIntegrityCheckFailed, w).
Proof.
  intros Ha Hs Hc Hf. unfold loadWallet.
  unfold sbind at 1. rewrite walletExists_run, Hf. cbn [negb].
  unfold sbind at 1. unfold readFile. rewrite Hf.
  unfold sbind at 1. unfold slift at 1. unfold parseJson at 1.
  rewrite parse_stringify by now apply serializable_encryptedWallet.
  unfold encryptedWallet at 1 2 3 4 5 6 7.
  cbn [sbind slift getProperty lookupProperty String.eqb Ascii.eqb Bool.eqb strictEquals
       Z.eqb Pos.eqb negb].
  rewrite decryptData_of_strings.
  destruct (stringify_text 0 (object_of_keys keys) (serializable_object_of_keys keys))
    as [Hw Hb].
  rewrite (decrypt_encrypt_same_key _ password password e Hw Hb eq_refl). cbn [of_result].
  unfold parseJson. rewrite parse_stringify by apply serializable_object_of_keys.
  unfold createStealthMetaAddress_of, object_of_keys at 1 2.
  cbn [getProperty lookupProperty String.eqb Ascii.eqb Bool.eqb slice2_of].
  change ("0x" ++ Js.drop 2 (spendingPublicKey keys) ++ Js.drop 2 (viewingPublicKey keys))
    with (createStealthMetaAddress keys).
  cbn [strictEquals].
  destruct (match stealthMetaAddress with VStr y => _ | _ => false end); reflexivity.
Qed.

(** X9.  A wallet that [saveWallet] has written is opened by [loadWallet]
    with the same password: it returns the address, meta-address, keys and
    time stamp that [saveWallet] returned, and leaves the files as they
    are. *)
Theorem save_then_load (keys : StealthKeys) (password : string) (w w' : World)
    (wd : WalletData) :
  saveWallet keys password w = (Returns wd, w') ->
  loadWallet password w' = (Returns wd, w').
Proof.
  intros H. apply saveWallet_inv in H as (address & _ & H). cbv zeta in H.
  destruct H as [-> Hw].
  rewrite (loadWallet_file password w' 2 (VStr address)
             (VStr (createStealthMetaAddress keys)) (VNum (clock w)) keys (random w));
    try reflexivity.
  - cbn [strictEquals]. now rewrite String.eqb_refl.
  - rewrite Hw. cbn [files with_files]. apply fileContent_writeContent.
Qed.

(** X10.  [loadWallet] compares the meta-address stored in the file with
    the one it computes from the decrypted keys and fails when they
    differ; it does not check the stored address or time stamp: whatever
    the file holds in these two properties is returned as the wallet's
    address and creation time. *)
Theorem loadWallet_checks_meta_address_only (password : string) (w : World) (space : nat)
    (address stealthMetaAddress createdAt : value) (keys : StealthKeys) (e : entropy) :
  serializable address = true -> serializable stealthMetaAddress = true ->
  serializable createdAt = true ->
  fileContent (WALLET_FILE w) (files w) =
    Some (JSON_stringify space
            (encryptedWallet address stealthMetaAddress createdAt
               (fst (encryptData (JSON_stringify 0 (object_of_keys keys)) password e)))) ->
  (stealthMetaAddress <> VStr (createStealthMetaAddress keys) ->
   loadWallet password w = (Throws WalletIntegrityCheckFailed, w)) /\
  (stealthMetaAddress = VStr (createStealthMetaAddress keys) ->
   loadWallet password w =
   (Returns {| wallet_address := address;
               wallet_stealthMetaAddress := stealthMetaAddress;
               wallet_keys := object_of_keys keys;
               wallet_createdAt := createdAt |}, w)).
Proof.
  intros Ha Hs Hc Hf.
  rewrite (loadWallet_file password w space address stealthMetaAddress createdAt keys e
             Ha Hs Hc Hf).
  split.
  - intros Hne. destruct stealthMetaAddress as [| | | |s|]; try reflexivity.
    cbn [strictEquals]. destruct (String.eqb_spec (createStealthMetaAddress keys) s);
      [subst; contradiction|reflexivity].
  - intros ->. cbn [strictEquals]. now rewrite String.eqb_refl.
Qed.

End WalletFileLaws.

Lemma save_then_load_witness :
  match saveWallet (L:=Cyclic.lib) (C:=Cyclic.cipher) (J:=Tagged.json)
          (Cyclic.keysOf 3 5) "password" freshWorld with
  | (Returns wd, w') =>
      loadWallet (C:=Cyclic.cipher) (J:=Tagged.json) "password" w' = (Returns wd, w')
  | (Throws _, _) => False
  end.
Proof.
  destruct (saveWallet (L:=Cyclic.lib) (C:=Cyclic.cipher) (J:=Tagged.json)
              (Cyclic.keysOf 3 5) "password" freshWorld) as [[wd|e] w'] eqn:E.
  - exact (save_then_load (L:=Cyclic.lib) (CL:=Cyclic_cipher_laws) (JL:=Tagged_laws)
             (Cyclic.keysOf 3 5) "password" freshWorld w' wd E).
  - vm_compute in E. discriminate E.
Defined.

Lemma loadWallet_checks_meta_address_only_witness :
  let data := fst (encryptData (C:=Cyclic.cipher)
                     (JSON_stringify (Json:=Tagged.json) 0 (object_of_keys (Cyclic.keysOf 3 5)))
                     "password" (random freshWorld)) in
  let forged := VStr "0x00000000000000000000000000000000000000ff" in
  let stored := VStr (createStealthMetaAddress (Cyclic.keysOf 3 5)) in
  let w := with_files
             [(WALLET_FILE freshWorld,
               JSON_stringify (Json:=Tagged.json) 2
                 (encryptedWallet forged stored (VNum 7) data))] freshWorld in
  (stored <> VStr (createStealthMetaAddress (Cyclic.keysOf 3 5)) ->
   loadWallet (C:=Cyclic.cipher) (J:=Tagged.json) "password" w =
   (Throws WalletIntegrityCheckFailed, w)) /\
  (stored = VStr (createStealthMetaAddress (Cyclic.keysOf 3 5)) ->
   loadWallet (C:=Cyclic.cipher) (J:=Tagged.json) "password" w =
   (Returns {| wallet_address := forged;
               wallet_stealthMetaAddress := stored;
               wallet_keys := object_of_keys (Cyclic.keysOf 3 5);
               wallet_createdAt := VNum 7 |}, w)).
Proof.
  cbv zeta.
  apply (loadWallet_checks_meta_address_only (C:=Cyclic.cipher) (CL:=Cyclic_cipher_laws)
           (J:=Tagged.json) (JL:=Tagged_laws) "password" _ 2
           (VStr "0x00000000000000000000000000000000000000ff")
           (VStr (createStealthMetaAddress (Cyclic.keysOf 3 5))) (VNum 7)
           (Cyclic.keysOf 3 5) (random freshWorld)); vm_compute; reflexivity.
Defined.

(* ================================================================== *)
(** * Decimal numerals *)

Lemma hexval_hexchar_digit (d : Z) :
  0 <= d < 10 -> hexval (hexchar (Z.to_N d)) = Some (Z.to_N d).
Proof. intros H. apply hexval_hexchar. lia. Qed.

Lemma parse_radix_decimal_digits (fuel : nat) :
  forall (z : Z) (acc : string),
  0 <= z < 10 ^ Z.of_nat fuel ->
  parse_radix 10 (decimal_digits fuel z acc) 0 = parse_radix 10 acc z.
Proof.
  induction fuel as [|fuel IH]; intros z acc Hz.
  - change (10 ^ Z.of_nat 0) with 1 in Hz. assert (z = 0) by lia. now subst.
  - cbn [decimal_digits].
    assert (Hd : 0 <= z mod 10 < 10) by (apply Z.mod_pos_bound; lia).
    destruct (Z.ltb_spec z 10) as [Hlt|Hge].
    + cbn [parse_radix]. rewrite hexval_hexchar_digit by exact Hd.
      rewrite Z2N.id by lia. destruct (Z.ltb_spec (z mod 10) 10); [|lia].
      rewrite Z.mod_small by lia. f_equal; lia.
    + rewrite IH.
      * cbn [parse_radix]. rewrite hexval_hexchar_digit by exact Hd.
        rewrite Z2N.id by lia. destruct (Z.ltb_spec (z mod 10) 10); [|lia].
        f_equal. symmetry. apply Z.div_mod. lia.
      * rewrite Nat2Z.inj_succ, Z.pow_succ_r in Hz by lia.
        split; [apply Z.div_pos; lia|]. apply Z.div_lt_upper_bound; lia.
Qed.

Lemma decimal_digits_nonempty (fuel : nat) (z : Z) (acc : string) :
  decimal_digits (Datatypes.S fuel) z acc <> "".
Proof.
  revert z acc. induction fuel as [|fuel IH]; intros z acc; cbn [decimal_digits].
  - destruct (z <? 10)%Z; discriminate.
  - destruct (z <? 10)%Z; [discriminate|]. apply IH.
Qed.

Lemma log2_fuel (z : Z) : 0 <= z -> z < 10 ^ Z.of_nat (Datatypes.S (Z.to_nat (Z.log2 z))).
Proof.
  intros Hz. rewrite Nat2Z.inj_succ, Z2Nat.id by apply Z.log2_nonneg.
  destruct (Z.eq_dec z 0) as [->|Hnz]; [reflexivity|].
  pose proof (Z.log2_spec z ltac:(lia)) as [_ Hu].
  eapply Z.lt_le_trans; [exact Hu|].
  apply Z.pow_le_mono_l. lia.
Qed.

Lemma parse_digits_toString10 (z : Z) :
  0 <= z -> parse_digits 10 (toString10 z) = Some z.
Proof.
  intros Hz. unfold toString10, parse_digits.
  destruct (Z.ltb_spec z 0); [lia|].
  destruct (String.eqb_spec (decimal_digits (Datatypes.S (Z.to_nat (Z.log2 z))) z "") "")
    as [E|_].
  - now apply decimal_digits_nonempty in E.
  - rewrite parse_radix_decimal_digits; [reflexivity|].
    split; [exact Hz | now apply log2_fuel].
Qed.

Lemma decimal_digits_head (fuel : nat) :
  forall (z : Z) (acc : string), 0 <= z ->
  exists c rest, decimal_digits (Datatypes.S fuel) z acc = String c rest /\
                 isDecimalDigit c = true.
Proof.
  induction fuel as [|fuel IH]; intros z acc Hz.
  - cbn [decimal_digits].
    assert (Hd : 0 <= z mod 10 < 10) by (apply Z.mod_pos_bound; lia).
    exists (hexchar (Z.to_N (z mod 10))), acc. split; [now destruct (z <? 10)%Z|].
    unfold isDecimalDigit. rewrite hexval_hexchar_digit by exact Hd.
    apply N.ltb_lt. lia.
  - cbn [decimal_digits]. destruct (Z.ltb_spec z 10).
    + assert (Hd : 0 <= z mod 10 < 10) by (apply Z.mod_pos_bound; lia).
      exists (hexchar (Z.to_N (z mod 10))), acc. split; [reflexivity|].
      unfold isDecimalDigit. rewrite hexval_hexchar_digit by exact Hd.
      apply N.ltb_lt. lia.
    + apply IH. apply Z.div_pos; lia.
Qed.

Lemma isDecimalDigit_plain (c : ascii) :
  isDecimalDigit c = true -> (isAscii c && negb (isWhiteSpace c))%bool = true.
Proof. destruct c as [[] [] [] [] [] [] [] []]; vm_compute; congruence. Qed.

Lemma noWhiteSpace_digits (s : string) : allDecimalDigits s = true -> noWhiteSpace s = true.
Proof.
  induction s as [|c s IH]; [reflexivity|]. cbn [allDecimalDigits noWhiteSpace].
  intros H. apply andb_true_iff in H as [Hc Hs].
  now rewrite (isDecimalDigit_plain c Hc), (IH Hs).
Qed.

Lemma allDecimalDigits_decimal_digits (fuel : nat) :
  forall (z : Z) (acc : string), 0 <= z ->
  allDecimalDigits acc = true -> allDecimalDigits (decimal_digits fuel z acc) = true.
Proof.
  induction fuel as [|fuel IH]; intros z acc Hz Ha; [exact Ha|].
  cbn [decimal_digits].
  assert (Hd : 0 <= z mod 10 < 10) by (apply Z.mod_pos_bound; lia).
  assert (Hc : allDecimalDigits (String (hexchar (Z.to_N (z mod 10))) acc) = true).
  { cbn [allDecimalDigits]. rewrite Ha, andb_true_r. unfold isDecimalDigit.
    rewrite hexval_hexchar_digit by exact Hd. apply N.ltb_lt. lia. }
  destruct (z <? 10)%Z; [exact Hc|]. apply IH; [apply Z.div_pos; lia | exact Hc].
Qed.

Lemma StringToBigInt_digits (s : string) :
  allDecimalDigits s = true -> s <> "" -> StringToBigInt s = parse_digits 10 s.
Proof.
  intros Ha Hne. unfold StringToBigInt.
  rewrite (trim_noWhiteSpace s (noWhiteSpace_digits s Ha)).
  destruct s as [|c rest]; [contradiction|].
  cbn [allDecimalDigits] in Ha. apply andb_true_iff in Ha as [Hc Hr].
  destruct c as [[] [] [] [] [] [] [] []]; try discriminate Hc; try reflexivity.
  destruct rest as [|x digits]; [reflexivity|].
  cbn [allDecimalDigits] in Hr. apply andb_true_iff in Hr as [Hx _].
  destruct x as [[] [] [] [] [] [] [] []]; try discriminate Hx; reflexivity.
Qed.

Lemma StringToBigInt_toString10 (z : Z) : StringToBigInt (toString10 z) = Some z.
Proof.
  destruct (Z.ltb_spec z 0) as [Hneg|Hpos].
  - pose proof (parse_digits_toString10 (- z) ltac:(lia)) as Hp.
    unfold toString10 in *. destruct (Z.ltb_spec z 0); [|lia].
    destruct (Z.ltb_spec (- z) 0); [lia|].
    set (ds := decimal_digits (Datatypes.S (Z.to_nat (Z.log2 (- z)))) (- z) "") in *.
    assert (Ha : allDecimalDigits ds = true)
      by (apply allDecimalDigits_decimal_digits; [lia|reflexivity]).
    unfold StringToBigInt.
    rewrite (trim_noWhiteSpace (String "-" ds))
      by (cbn [noWhiteSpace]; now rewrite (noWhiteSpace_digits ds Ha)).
    destruct ds as [|c ds'] eqn:Eds.
    { exfalso. now apply (decimal_digits_nonempty _ _ _ Eds). }
    rewrite Hp. cbn [option_map]. f_equal. lia.
  - rewrite StringToBigInt_digits.
    + now apply parse_digits_toString10.
    + unfold toString10. destruct (Z.ltb_spec z 0); [lia|].
      now apply allDecimalDigits_decimal_digits.
    + unfold toString10. destruct (Z.ltb_spec z 0); [lia|].
      apply decimal_digits_nonempty.
Qed.

Lemma toString10_nonempty (z : Z) : String.eqb (toString10 z) "" = false.
Proof.
  apply String.eqb_neq. unfold toString10.
  destruct (z <? 0)%Z; [discriminate | apply decimal_digits_nonempty].
Qed.

(* ================================================================== *)
(** * Objects *)

Lemma arrayIndex_inv (key : string) (n : Z) : arrayIndex key = Some n -> key = toString10 n.
Proof.
  unfold arrayIndex. destruct (parse_digits 10 key) as [m|]; [|discriminate].
  destruct (String.eqb_spec (toString10 m) key) as [E|]; cbn [andb]; [|discriminate].
  destruct (m <? 4294967295)%Z; [|discriminate]. now intros [= <-].
Qed.

Lemma mayPrecede_false_index (k key : string) :
  mayPrecede k key = false -> exists m, arrayIndex key = Some m.
Proof.
  unfold mayPrecede. destruct (arrayIndex key) as [m|]; [|discriminate]. now exists m.
Qed.

Lemma mayPrecede_irrefl (key : string) (m : Z) :
  arrayIndex key = Some m -> mayPrecede key key = false.
Proof. intros H. unfold mayPrecede. rewrite H. apply Z.ltb_irrefl. Qed.

Lemma mayPrecede_insert (k key k' : string) :
  mayPrecede k key = false -> mayPrecede k k' = true -> mayPrecede key k' = true.
Proof.
  unfold mayPrecede. destruct (arrayIndex key) as [m|]; [|discriminate].
  destruct (arrayIndex k') as [p|]; [|reflexivity].
  destruct (arrayIndex k) as [n|]; [|discriminate].
  intros H1 H2. apply Z.ltb_ge in H1. apply Z.ltb_lt in H2. apply Z.ltb_lt. lia.
Qed.

Lemma mayPrecede_total (k key : string) :
  key <> k -> mayPrecede k key = false -> mayPrecede key k = true.
Proof.
  unfold mayPrecede. destruct (arrayIndex key) as [m|] eqn:Em; [|discriminate].
  destruct (arrayIndex k) as [n|] eqn:En; [|reflexivity].
  intros Hne H. apply Z.ltb_ge in H. apply Z.ltb_lt.
  enough (m <> n) by lia. intros ->. apply Hne.
  apply arrayIndex_inv in Em, En. congruence.
Qed.

Lemma lookupProperty_assignProperty (key : string) (v : value)
    (ps : list (string * value)) :
  lookupProperty key (assignProperty key v ps) = v.
Proof.
  induction ps as [|[k x] ps IH]; cbn [assignProperty lookupProperty].
  - now rewrite String.eqb_refl.
  - destruct (String.eqb key k) eqn:E; cbn [lookupProperty]; [now rewrite E|].
    destruct (mayPrecede k key); cbn [lookupProperty];
      [now rewrite E | now rewrite String.eqb_refl].
Qed.

Lemma lookupProperty_assignProperty_other (key other : string) (v : value)
    (ps : list (string * value)) :
  other <> key ->
  lookupProperty other (assignProperty key v ps) = lookupProperty other ps.
Proof.
  intros Hne. induction ps as [|[k x] ps IH]; cbn [assignProperty lookupProperty].
  - destruct (String.eqb_spec other key); [contradiction|reflexivity].
  - destruct (String.eqb_spec key k) as [<-|]; cbn [lookupProperty].
    + destruct (String.eqb_spec other key); [contradiction|reflexivity].
    + destruct (mayPrecede k key); cbn [lookupProperty].
      * now rewrite IH.
      * destruct (String.eqb_spec other key); [contradiction|reflexivity].
Qed.

Lemma lookupProperty_removeProperty_other (key other : string)
    (ps : list (string * value)) :
  other <> key ->
  lookupProperty other (removeProperty key ps) = lookupProperty other ps.
Proof.
  intros Hne. induction ps as [|[k x] ps IH]; [reflexivity|].
  cbn [removeProperty lookupProperty].
  destruct (String.eqb_spec key k) as [<-|]; cbn [lookupProperty].
  - destruct (String.eqb_spec other key); [contradiction|reflexivity].
  - now rewrite IH.
Qed.

Lemma serializable_VObj (ps : list (string * value)) :
  serializable (VObj ps) =
  (distinct (List.map fst ps) && ordered (List.map fst ps) &&
   forallb (fun p => serializable (snd p)) ps)%bool.
Proof.
  cbn [serializable]. f_equal.
  induction ps as [|[k x] ps IH]; [reflexivity|]. cbn [forallb snd]. now rewrite IH.
Qed.

Lemma existsb_keys_assignProperty (key k : string) (v : value)
    (ps : list (string * value)) :
  key <> k ->
  existsb (String.eqb k) (List.map fst (assignProperty key v ps)) =
  existsb (String.eqb k) (List.map fst ps).
Proof.
  intros Hne. induction ps as [|[k' x] ps IH]; cbn [assignProperty List.map fst existsb].
  - destruct (String.eqb_spec k key); [subst; contradiction|reflexivity].
  - destruct (String.eqb key k'); cbn [List.map fst existsb]; [reflexivity|].
    destruct (mayPrecede k' key); cbn [List.map fst existsb].
    + now rewrite IH.
    + destruct (String.eqb_spec k key); [subst; contradiction|reflexivity].
Qed.

Lemma forallb_keys_assignProperty (P : string -> bool) (key : string) (v : value)
    (ps : list (string * value)) :
  P key = true -> forallb P (List.map fst ps) = true ->
  forallb P (List.map fst (assignProperty key v ps)) = true.
Proof.
  intros Hk. induction ps as [|[k x] ps IH]; cbn [assignProperty List.map fst forallb].
  - now rewrite Hk.
  - intros H. apply andb_true_iff in H as [H1 H2].
    destruct (String.eqb key k); cbn [List.map fst forallb]; [now rewrite H1, H2|].
    destruct (mayPrecede k key); cbn [List.map fst forallb].
    + now rewrite H1, IH.
    + now rewrite Hk, H1, H2.
Qed.

(** An assignment keeps the properties of an object under different names
    and in order. *)
Lemma keys_assignProperty (key : string) (v : value) (ps : list (string * value)) :
  distinct (List.map fst ps) = true -> ordered (List.map fst ps) = true ->
  distinct (List.map fst (assignProperty key v ps)) = true /\
  ordered (List.map fst (assignProperty key v ps)) = true.
Proof.
  induction ps as [|[k x] ps IH]; [now split|].
  cbn [assignProperty List.map fst distinct ordered]. intros Hd Ho.
  apply andb_true_iff in Hd as [Hk Hd]. apply andb_true_iff in Ho as [Hp Ho].
  destruct (String.eqb_spec key k) as [<-|Hne].
  - cbn [List.map fst distinct ordered]. now rewrite Hk, Hd, Hp, Ho.
  - destruct (mayPrecede k key) eqn:Em; cbn [List.map fst distinct ordered existsb forallb].
    + destruct (IH Hd Ho) as [Hd' Ho'].
      rewrite existsb_keys_assignProperty by exact Hne.
      rewrite Hk, Hd', Ho'. rewrite forallb_keys_assignProperty by assumption.
      now split.
    + destruct (mayPrecede_false_index _ _ Em) as [m Hm].
      rewrite (mayPrecede_total k key Hne Em), Hk, Hd, Hp, Ho.
      destruct (String.eqb_spec key k) as [|_]; [contradiction|]. cbn [orb negb andb].
      assert (Hall : forall k', In k' (List.map fst ps) ->
                mayPrecede key k' = true /\ String.eqb key k' = false).
      { intros k' Hin. rewrite forallb_forall in Hp. specialize (Hp k' Hin).
        pose proof (mayPrecede_insert k key k' Em Hp) as Hi. split; [exact Hi|].
        destruct (String.eqb_spec key k') as [<-|]; [|reflexivity].
        rewrite (mayPrecede_irrefl key m Hm) in Hi. discriminate. }
      assert (He : existsb (String.eqb key) (List.map fst ps) = false).
      { destruct (existsb (String.eqb key) (List.map fst ps)) eqn:E; [|reflexivity].
        apply existsb_exists in E as (k' & Hin & E). destruct (Hall k' Hin). congruence. }
      assert (Hf : forallb (mayPrecede key) (List.map fst ps) = true).
      { apply forallb_forall. intros k' Hin. now destruct (Hall k' Hin). }
      rewrite He, Hf. now split.
Qed.

Lemma serializable_assignProperty (key : string) (v : value)
    (ps : list (string * value)) :
  serializable (VObj ps) = true -> serializable v = true ->
  serializable (VObj (assignProperty key v ps)) = true.
Proof.
  rewrite !serializable_VObj. intros H Hv. apply andb_true_iff in H as [H Ha].
  apply andb_true_iff in H as [Hd Ho].
  destruct (keys_assignProperty key v ps Hd Ho) as [-> ->]. cbn [andb].
  clear Hd Ho. induction ps as [|[k x] ps IH]; cbn [assignProperty forallb snd].
  - now rewrite Hv.
  - cbn [forallb snd] in Ha. apply andb_true_iff in Ha as [Hx Ha].
    destruct (String.eqb key k); cbn [forallb snd]; [now rewrite Hv, Ha|].
    destruct (mayPrecede k key); cbn [forallb snd].
    + now rewrite Hx, IH.
    + now rewrite Hv, Hx, Ha.
Qed.

Lemma existsb_keys_removeProperty (key k : string) (ps : list (string * value)) :
  existsb (String.eqb k) (List.map fst ps) = false ->
  existsb (String.eqb k) (List.map fst (removeProperty key ps)) = false.
Proof.
  induction ps as [|[k' x'] ps IH]; [reflexivity|].
  cbn [List.map fst existsb]. intros H. apply orb_false_iff in H as [H1 H2].
  cbn [removeProperty]. destruct (String.eqb key k'); [exact H2|].
  cbn [List.map fst existsb]. now rewrite H1, IH.
Qed.

Lemma forallb_keys_removeProperty (P : string -> bool) (key : string)
    (ps : list (string * value)) :
  forallb P (List.map fst ps) = true ->
  forallb P (List.map fst (removeProperty key ps)) = true.
Proof.
  induction ps as [|[k' x'] ps IH]; [reflexivity|].
  cbn [List.map fst forallb]. intros H. apply andb_true_iff in H as [H1 H2].
  cbn [removeProperty]. destruct (String.eqb key k'); [exact H2|].
  cbn [List.map fst forallb]. now rewrite H1, IH.
Qed.

Lemma keys_removeProperty (key : string) (ps : list (string * value)) :
  distinct (List.map fst ps) = true -> ordered (List.map fst ps) = true ->
  distinct (List.map fst (removeProperty key ps)) = true /\
  ordered (List.map fst (removeProperty key ps)) = true.
Proof.
  induction ps as [|[k x] ps IH]; [now split|].
  cbn [removeProperty List.map fst distinct ordered]. intros Hd Ho.
  apply andb_true_iff in Hd as [Hk Hd]. apply andb_true_iff in Ho as [Hp Ho].
  destruct (String.eqb key k); [now split|]. cbn [List.map fst distinct ordered].
  destruct (IH Hd Ho) as [-> ->].
  apply negb_true_iff in Hk.
  rewrite existsb_keys_removeProperty by exact Hk.
  rewrite forallb_keys_removeProperty by exact Hp. now split.
Qed.

Lemma serializable_removeProperty (key : string) (ps : list (string * value)) :
  serializable (VObj ps) = true -> serializable (VObj (removeProperty key ps)) = true.
Proof.
  rewrite !serializable_VObj. intros H. apply andb_true_iff in H as [H Ha].
  apply andb_true_iff in H as [Hd Ho].
  destruct (keys_removeProperty key ps Hd Ho) as [-> ->]. cbn [andb].
  clear Hd Ho. induction ps as [|[k x] ps IH]; [reflexivity|].
  cbn [forallb snd] in Ha. apply andb_true_iff in Ha as [Hx Ha].
  cbn [removeProperty]. destruct (String.eqb key k); [exact Ha|].
  cbn [forallb snd]. now rewrite Hx, IH.
Qed.

Lemma lookupProperty_removeProperty (key : string) (ps : list (string * value)) :
  distinct (List.map fst ps) = true ->
  lookupProperty key (removeProperty key ps) = VUndefined.
Proof.
  induction ps as [|[k x] ps IH]; [reflexivity|].
  cbn [List.map fst distinct removeProperty]. intros H.
  apply andb_true_iff in H as [Hk Hd].
  destruct (String.eqb_spec key k) as [<-|Hne].
  - apply negb_true_iff in Hk. clear IH Hd.
    induction ps as [|[k' x'] ps IH]; [reflexivity|].
    cbn [List.map fst existsb] in Hk. apply orb_false_iff in Hk as [H1 H2].
    cbn [lookupProperty]. rewrite H1. now apply IH.
  - cbn [lookupProperty]. destruct (String.eqb_spec key k); [contradiction|]. now apply IH.
Qed.

Lemma serializable_lookupProperty (key : string) (ps : list (string * value)) :
  serializable (VObj ps) = true ->
  lookupProperty key ps = VUndefined \/ serializable (lookupProperty key ps) = true.
Proof.
  rewrite serializable_VObj. intros H. apply andb_true_iff in H as [_ Ha].
  induction ps as [|[k x] ps IH]; [now left|].
  cbn [forallb snd] in Ha. apply andb_true_iff in Ha as [Hx Ha].
  cbn [lookupProperty]. destruct (String.eqb key k); [now right | now apply IH].
Qed.

Lemma truthy_serializable (key : string) (ps : list (string * value)) :
  serializable (VObj ps) = true -> truthy (lookupProperty key ps) = true ->
  serializable (lookupProperty key ps) = true.
Proof.
  intros H Ht. destruct (serializable_lookupProperty key ps H) as [E|E]; [|exact E].
  rewrite E in Ht. discriminate.
Qed.

Lemma chainKey_inj (a b : option Z) : chainKey a = chainKey b -> a = b.
Proof.
  destruct a as [x|], b as [y|]; cbn [chainKey]; intros H; [| | |reflexivity].
  - pose proof (StringToBigInt_toString10 x) as Hx. rewrite H in Hx.
    rewrite StringToBigInt_toString10 in Hx. congruence.
  - pose proof (StringToBigInt_toString10 x) as Hx. rewrite H in Hx. discriminate.
  - pose proof (StringToBigInt_toString10 y) as Hy. rewrite <- H in Hy. discriminate.
Qed.

(* ================================================================== *)
(** * [lib/storage]: the configuration file *)

Section ConfigFile.
Context {L : Secp256k1} {C : Cipher} {J : Json} {JL : JsonLaws J}.

Lemma loadConfig_run (w : World) : loadConfig w = (Returns (storedConfig w), w).
Proof.
  unfold loadConfig, storedConfig, try_catch, sbind, readFile, slift, parseJson, sret,
    defaultConfig.
  destruct (fileContent (CONFIG_FILE w) (files w)) as [content|]; [|reflexivity].
  now destruct (JSON_parse content).
Qed.

Lemma saveConfig_run (config : value) (w : World) :
  saveConfig config w =
  (Returns tt,
   with_files (writeContent (CONFIG_FILE w) (JSON_stringify 2 config) (files w))
     (with_walletDir true w)).
Proof.
  unfold saveConfig, sbind. rewrite ensureDir_run. unfold writeFile.
  cbn [homedir walletDir files with_walletDir WALLET_FILE WALLET_DIR CONFIG_FILE].
  change (homedir w ++ "/.stealth-wallet") with (WALLET_DIR w).
  change (WALLET_DIR w ++ "/config.json") with (CONFIG_FILE w).
  rewrite String.eqb_refl, orb_true_r. reflexivity.
Qed.

Lemma serializable_storedConfig (w : World) : serializable (storedConfig w) = true.
Proof.
  unfold storedConfig.
  destruct (fileContent _ _) as [content|]; [|reflexivity].
  destruct (JSON_parse content) as [v|] eqn:E; [|reflexivity].
  now apply parse_serializable in E.
Qed.

(** The configuration a machine holds after [saveConfig]. *)
Lemma storedConfig_saved (config : value) (content : string) (w : World) :
  JSON_parse content = Some config ->
  storedConfig
    (with_files (writeContent (CONFIG_FILE w) content (files w))
       (with_walletDir true w)) = config.
Proof.
  intros Hs. unfold storedConfig.
  cbn [homedir walletDir files with_files with_walletDir WALLET_DIR CONFIG_FILE].
  change (homedir w ++ "/.stealth-wallet") with (WALLET_DIR w).
  change (WALLET_DIR w ++ "/config.json") with (CONFIG_FILE w).
  now rewrite fileContent_writeContent, Hs.
Qed.

Lemma getLastScanBlock_run (chainId : option Z) (w : World) :
  getLastScanBlock chainId w =
  (match getProperty (storedConfig w) "lastScanBlock" with
   | Throws e => Throws e
   | Returns lastScanBlock =>
       match (match lastScanBlock with
              | VUndefined | VNull => Returns VUndefined
              | _ => getProperty lastScanBlock (chainKey chainId)
              end) with
       | Throws e => Throws e
       | Returns block =>
           if truthy block
           then match BigInt_of block with
                | Returns z => Returns (Some z)
                | Throws e => Throws e
                end
           else Returns None
       end
   end, w).
Proof.
  unfold getLastScanBlock. unfold sbind at 1. rewrite loadConfig_run.
  unfold sbind, slift, sret.
  destruct (getProperty (storedConfig w) "lastScanBlock") as [lsb|e]; [|reflexivity].
  destruct (match lsb with VUndefined | VNull => _ | _ => _ end) as [block|e];
    [|reflexivity].
  destruct (truthy block); [|reflexivity]. now destruct (BigInt_of block).
Qed.

(** A run of [updateLastScanBlock] on a configuration in which a block can
    be recorded. *)
Lemma updateLastScanBlock_run (chainId : option Z) (blockNumber : Z) (w : World) :
  updatable (storedConfig w) = true ->
  exists content,
    let w' := with_files (writeContent (CONFIG_FILE w) content (files w))
                (with_walletDir true w) in
    updateLastScanBlock chainId blockNumber w = (Returns tt, w') /\
    updatable (storedConfig w') = true /\
    getLastScanBlock chainId w' = (Returns (Some blockNumber), w') /\
    (forall other, other <> chainId ->
       fst (getLastScanBlock other w') = fst (getLastScanBlock other w)) /\
    (forall key, key <> "lastScanBlock" ->
       getProperty (storedConfig w') key = getProperty (storedConfig w) key).
Proof.
  intros Hu. pose proof (serializable_storedConfig w) as Hser.
  destruct (storedConfig w) as [| | | | |ps] eqn:Ec; try discriminate Hu.
  cbn [updatable] in Hu.
  set (old := lookupProperty "lastScanBlock" ps) in *.
  set (new := if truthy old then old else VObj []).
  assert (Hnew : exists qs, new = VObj qs /\ serializable (VObj qs) = true /\
            forall k,
              let result (c : completion value) :=
                match c with
                | Throws e => Throws e
                | Returns block =>
                    if truthy block
                    then match BigInt_of block with
                         | Returns z => Returns (Some z)
                         | Throws e => Throws e
                         end
                    else Returns None
                end in
              result (match old with
                      | VUndefined | VNull => Returns VUndefined
                      | _ => getProperty old k
                      end) = result (Returns (lookupProperty k qs))).
  { unfold new. destruct old as [| |b|n|s|qs] eqn:Eo; cbn [truthy] in Hu |- *.
    - exists []. now repeat split.
    - exists []. now repeat split.
    - apply negb_true_iff in Hu. subst b. exists []. now repeat split.
    - apply negb_true_iff in Hu. rewrite Hu. exists []. now repeat split.
    - apply negb_true_iff in Hu. rewrite Hu. apply negb_false_iff, String.eqb_eq in Hu.
      subst s. exists []. repeat split. intros k. cbn [getProperty lookupProperty].
      destruct (String.eqb k "length"); [reflexivity|].
      destruct (indexOfKey k); reflexivity.
    - exists qs. repeat split.
      assert (Ht : truthy (lookupProperty "lastScanBlock" ps) = true)
        by (fold old; now rewrite Eo).
      pose proof (truthy_serializable "lastScanBlock" ps Hser Ht) as Hs.
      fold old in Hs. now rewrite Eo in Hs. }
  destruct Hnew as (qs & Hnew & Hqs & Hold).
  set (blocks := VObj (assignProperty (chainKey chainId) (VStr (toString10 blockNumber)) qs)).
  set (config := VObj (assignProperty "lastScanBlock" blocks
                         (assignProperty "lastScanBlock" (VObj qs) ps))).
  assert (Hb : serializable blocks = true) by now apply serializable_assignProperty.
  assert (Hc : serializable config = true).
  { apply serializable_assignProperty; [|exact Hb].
    now apply serializable_assignProperty. }
  exists (JSON_stringify 2 config). cbv zeta.
  assert (Es : storedConfig
                 (with_files (writeContent (CONFIG_FILE w) (JSON_stringify 2 config) (files w))
                    (with_walletDir true w)) = config).
  { apply storedConfig_saved. now apply parse_stringify. }
  split; [|split; [|split; [|split]]].
  - unfold updateLastScanBlock. unfold sbind at 1. rewrite loadConfig_run, Ec.
    cbn [sbind slift getProperty setProperty]. fold old. fold new. rewrite Hnew.
    rewrite lookupProperty_assignProperty.
    cbn [sbind slift getProperty setProperty]. now rewrite saveConfig_run.
  - rewrite Es. unfold config. cbn [updatable].
    now rewrite lookupProperty_assignProperty.
  - rewrite getLastScanBlock_run, Es. unfold config. cbn [getProperty].
    rewrite lookupProperty_assignProperty. unfold blocks. cbn [getProperty].
    rewrite lookupProperty_assignProperty. cbn [truthy BigInt_of].
    now rewrite toString10_nonempty, StringToBigInt_toString10.
  - intros other Hne. rewrite !getLastScanBlock_run, Es, Ec. unfold config.
    cbn [fst getProperty]. rewrite lookupProperty_assignProperty. fold old.
    unfold blocks. cbn [getProperty].
    rewrite lookupProperty_assignProperty_other
      by (intros E; apply Hne; now apply chainKey_inj).
    symmetry. apply (Hold (chainKey other)).
  - intros key Hk. rewrite Es. unfold config. cbn [getProperty].
    now rewrite !lookupProperty_assignProperty_other by exact Hk.
Qed.

(** X11.  On a configuration that is an object whose [lastScanBlock] is
    an object or is missing, [updateLastScanBlock] returns, and the block it
    has stored for a chain is the one [getLastScanBlock] returns for it,
    whatever the block number; the blocks stored for other chains, the
    other properties of the configuration and the other files are as
    before. *)
Theorem lastScanBlock_roundtrip (chainId : option Z) (blockNumber : Z) (w : World) :
  updatable (storedConfig w) = true ->
  exists w',
    updateLastScanBlock chainId blockNumber w = (Returns tt, w') /\
    getLastScanBlock chainId w' = (Returns (Some blockNumber), w') /\
    (forall other, other <> chainId ->
       fst (getLastScanBlock other w') = fst (getLastScanBlock other w)) /\
    (forall key, key <> "lastScanBlock" ->
       getProperty (storedConfig w') key = getProperty (storedConfig w) key) /\
    (forall path, path <> CONFIG_FILE w ->
       fileContent path (files w') = fileContent path (files w)).
Proof.
  intros Hu.
  destruct (updateLastScanBlock_run chainId blockNumber w Hu)
    as (content & Hrun & _ & Hget & Hother & Hkeys).
  cbv zeta in *. eexists. split; [exact Hrun|]. split; [exact Hget|].
  split; [exact Hother|]. split; [exact Hkeys|].
  intros path Hp. cbn [files with_files]. now apply fileContent_writeContent_other.
Qed.

End ConfigFile.

Lemma lastScanBlock_roundtrip_witness :
  exists w',
    updateLastScanBlock (J:=Tagged.json) (Some 11155111) 5486700 freshWorld =
      (Returns tt, w') /\
    getLastScanBlock (J:=Tagged.json) (Some 11155111) w' = (Returns (Some 5486700), w') /\
    (forall other, other <> Some 11155111 ->
       fst (getLastScanBlock (J:=Tagged.json) other w') =
       fst (getLastScanBlock (J:=Tagged.json) other freshWorld)) /\
    (forall key, key <> "lastScanBlock" ->
       getProperty (storedConfig (J:=Tagged.json) w') key =
       getProperty (storedConfig (J:=Tagged.json) freshWorld) key) /\
    (forall path, path <> CONFIG_FILE freshWorld ->
       fileContent path (files w') = fileContent path (files freshWorld)).
Proof.
  apply (lastScanBlock_roundtrip (J:=Tagged.json) (JL:=Tagged_laws)
           (Some 11155111) 5486700 freshWorld).
  reflexivity.
Defined.

(* ================================================================== *)
(** * [lib/storage]: reading, deleting, exporting and importing *)

Lemma readOnly_sret {A} (a : A) : readOnly (sret a).
Proof. now intros w. Qed.

Lemma readOnly_sthrow {A} (e : exn) : readOnly (sthrow (A:=A) e).
Proof. now intros w. Qed.

Lemma readOnly_slift {A} (c : completion A) : readOnly (slift c).
Proof. now intros w. Qed.

Lemma readOnly_sbind {A B} (m : IO A) (f : A -> IO B) :
  readOnly m -> (forall a, readOnly (f a)) -> readOnly (sbind m f).
Proof.
  intros Hm Hf w. unfold sbind. specialize (Hm w).
  destruct (m w) as [[a|e] w1]; cbn [snd] in Hm; subst w1; [apply Hf | reflexivity].
Qed.

Lemma readOnly_try_catch {A} (m handler : IO A) :
  readOnly m -> readOnly handler -> readOnly (try_catch m handler).
Proof.
  intros Hm Hh w. unfold try_catch. specialize (Hm w).
  destruct (m w) as [[a|e] w1]; cbn [snd] in Hm; subst w1; [reflexivity | apply Hh].
Qed.

Lemma readOnly_readFile (path : string) : readOnly (readFile path).
Proof. intros w. unfold readFile. now destruct (fileContent path (files w)). Qed.

Lemma readOnly_if {A} (b : bool) (m n : IO A) :
  readOnly m -> readOnly n -> readOnly (if b then m else n).
Proof. now destruct b. Qed.

Section ReadingAndDeleting.
Context {L : Secp256k1} {C : Cipher} {J : Json}.

Lemma readOnly_walletExists : readOnly walletExists.
Proof. intros w. now rewrite walletExists_run. Qed.

Lemma readOnly_loadConfig : readOnly loadConfig.
Proof.
  intros w. unfold loadConfig. apply readOnly_try_catch; [|apply readOnly_sret].
  apply readOnly_sbind; [apply readOnly_readFile | intros; apply readOnly_slift].
Qed.

(** X12.  Opening the wallet, reading its public data, loading the
    configuration and looking up the last scanned block change nothing on
    the machine, whether they return or throw. *)
Theorem reading_changes_nothing :
  (forall password, readOnly (loadWallet password)) /\
  readOnly getWalletInfo /\
  readOnly loadConfig /\
  (forall chainId, readOnly (getLastScanBlock chainId)).
Proof.
  split; [|split; [|split]].
  - intros password w. unfold loadWallet.
    refine (readOnly_sbind _ _ _ _ w); [apply readOnly_walletExists|]. intros ?.
    repeat first
      [ apply readOnly_sret | apply readOnly_sthrow | apply readOnly_slift
      | apply readOnly_readFile | apply readOnly_if | apply readOnly_sbind; [|intros ?] ].
  - intros w. unfold getWalletInfo.
    refine (readOnly_sbind _ _ _ _ w); [apply readOnly_walletExists|]. intros ?.
    repeat first
      [ apply readOnly_sret | apply readOnly_sthrow | apply readOnly_slift
      | apply readOnly_readFile | apply readOnly_if | apply readOnly_sbind; [|intros ?] ].
  - apply readOnly_loadConfig.
  - intros chainId. unfold getLastScanBlock.
    repeat first
      [ apply readOnly_sret | apply readOnly_slift | apply readOnly_loadConfig
      | apply readOnly_if | apply readOnly_sbind; [|intros ?] ].
Qed.

(** X13.  [loadWallet] fails before any decryption when there is no
    wallet file, and when the version stored in the file is not the number
    1: the password is not looked at, and nothing is changed. *)
Theorem loadWallet_fails_early (password : string) (w : World) :
  (fileContent (WALLET_FILE w) (files w) = None ->
   loadWallet password w = (Throws NoWalletFound, w)) /\
  (forall content wallet version,
     fileContent (WALLET_FILE w) (files w) = Some content ->
     JSON_parse content = Some wallet ->
     getProperty wallet "version" = Returns version ->
     version <> VNum 1 ->
     loadWallet password w = (Throws UnsupportedWalletVersion, w)).
Proof.
  split.
  - intros Hf. unfold loadWallet, sbind. now rewrite walletExists_run, Hf.
  - intros content wallet version Hf Hp Hv Hne. unfold loadWallet.
    unfold sbind at 1. rewrite walletExists_run, Hf. cbn [negb].
    unfold sbind at 1. unfold readFile. rewrite Hf.
    unfold sbind at 1. unfold slift at 1. unfold parseJson. rewrite Hp.
    unfold sbind at 1. unfold slift at 1. rewrite Hv.
    assert (E : strictEquals version (VNum 1) = false).
    { destruct version as [| | |n| |]; try reflexivity. cbn [strictEquals].
      apply Z.eqb_neq. congruence. }
    now rewrite E.
Qed.

(** X14.  [deleteWallet] throws when there is no wallet; otherwise it
    removes the wallet file and nothing else: afterwards [loadWallet]
    finds no wallet, and every other file is as before. *)
Theorem deleteWallet_removes_the_wallet (w : World) :
  walletDir w = true ->
  match fileContent (WALLET_FILE w) (files w) with
  | None => deleteWallet w = (Throws NoWalletToDelete, w)
  | Some _ =>
      exists w',
        deleteWallet w = (Returns tt, w') /\
        fileContent (WALLET_FILE w') (files w') = None /\
        (forall password, loadWallet password w' = (Throws NoWalletFound, w')) /\
        (forall path, path <> WALLET_FILE w ->
           fileContent path (files w') = fileContent path (files w))
  end.
Proof.
  intros Hd. destruct (fileContent (WALLET_FILE w) (files w)) as [content|] eqn:Hf.
  - eexists. split; [|split; [|split]].
    + unfold deleteWallet. unfold sbind at 1. rewrite walletExists_run, Hf. cbn [negb].
      unfold sbind at 1. unfold readFile. rewrite Hf.
      unfold sbind at 1. unfold writeFile. rewrite String.eqb_refl, Hd. cbn [orb].
      unfold unlink. cbn [files with_files].
      rewrite fileContent_writeContent. reflexivity.
    + cbn [files with_files]. apply fileContent_eraseFile.
    + intros password. unfold loadWallet, sbind. rewrite walletExists_run.
      cbn [files with_files homedir WALLET_FILE WALLET_DIR].
      change (homedir w ++ "/.stealth-wallet") with (WALLET_DIR w).
      change (WALLET_DIR w ++ "/wallet.json") with (WALLET_FILE w).
      now rewrite fileContent_eraseFile.
    + intros path Hp. cbn [files with_files].
      rewrite fileContent_eraseFile_other by exact Hp.
      now apply fileContent_writeContent_other.
  - unfold deleteWallet, sbind. now rewrite walletExists_run, Hf.
Qed.

End ReadingAndDeleting.

Lemma deleteWallet_removes_the_wallet_witness :
  let w := with_files [(WALLET_FILE freshWorld, "{}"); (backupPath, "{}")]
             (with_walletDir true freshWorld) in
  exists w',
    deleteWallet w = (Returns tt, w') /\
    fileContent (WALLET_FILE w') (files w') = None /\
    (forall password,
       loadWallet (C:=Cyclic.cipher) (J:=Tagged.json) password w' =
       (Throws NoWalletFound, w')) /\
    (forall path, path <> WALLET_FILE w ->
       fileContent path (files w') = fileContent path (files w)).
Proof.
  cbv zeta.
  apply (deleteWallet_removes_the_wallet (C:=Cyclic.cipher) (J:=Tagged.json)
           (with_files [(WALLET_FILE freshWorld, "{}"); (backupPath, "{}")]
              (with_walletDir true freshWorld))).
  reflexivity.
Defined.

Section BackupAndRestore.
Context {L : Secp256k1} {C : Cipher} {CL : CipherLaws C} {J : Json} {JL : JsonLaws J}.

Lemma exportWallet_inv (targetPath : string) (w w' : World) :
  exportWallet targetPath w = (Returns tt, w') ->
  exists content,
    fileContent (WALLET_FILE w) (files w) = Some content /\
    w' = with_files (writeContent targetPath content (files w)) w.
Proof.
  unfold exportWallet. unfold sbind at 1. rewrite walletExists_run.
  destruct (fileContent (WALLET_FILE w) (files w)) as [content|] eqn:Hf;
    cbn [negb]; [|discriminate].
  unfold sbind, readFile. rewrite Hf. unfold writeFile.
  destruct (if (_ || _)%bool then _ else _); [|discriminate].
  intros [= <-]. now exists content.
Qed.

Lemma deleteWallet_inv (w w' : World) :
  deleteWallet w = (Returns tt, w') ->
  homedir w' = homedir w /\
  (forall path, path <> WALLET_FILE w ->
     fileContent path (files w') = fileContent path (files w)).
Proof.
  unfold deleteWallet. unfold sbind at 1. rewrite walletExists_run.
  destruct (fileContent (WALLET_FILE w) (files w)) as [content|] eqn:Hf;
    cbn [negb]; [|discriminate].
  unfold sbind at 1. unfold readFile. rewrite Hf.
  unfold sbind at 1. unfold writeFile. rewrite String.eqb_refl. cbn [orb].
  destruct (walletDir w); [|discriminate].
  unfold unlink. cbn [files with_files]. rewrite fileContent_writeContent.
  intros [= <-]. split; [reflexivity|]. intros path Hp. cbn [files with_files].
  rewrite fileContent_eraseFile_other by exact Hp.
  now apply fileContent_writeContent_other.
Qed.

(** [importWallet] on a backup that holds a version 1 wallet with the
    three properties it asks for. *)
Lemma importWallet_file (sourcePath content : string) (wallet : value) (w : World) :
  fileContent sourcePath (files w) = Some content ->
  JSON_parse content = Some wallet ->
  getProperty wallet "version" = Returns (VNum 1) ->
  (forall key, exists v, getProperty wallet key = Returns v) ->
  (forall v, getProperty wallet "address" = Returns v -> truthy v = true) ->
  (forall v, getProperty wallet "stealthMetaAddress" = Returns v -> truthy v = true) ->
  (forall v, getProperty wallet "encryptedKeys" = Returns v -> truthy v = true) ->
  importWallet sourcePath w =
  (Returns tt,
   with_files (writeContent (WALLET_FILE w) content (files w)) (with_walletDir true w)).
Proof.
  intros Hf Hp Hv Hg Ha Hs He. unfold importWallet.
  unfold sbind at 1. unfold readFile. rewrite Hf.
  unfold sbind at 1. unfold slift at 1. unfold parseJson. rewrite Hp.
  unfold sbind at 1. unfold slift at 1. rewrite Hv. cbn [strictEquals Z.eqb Pos.eqb negb].
  destruct (Hg "address") as (a & Ea). destruct (Hg "stealthMetaAddress") as (s & Es).
  destruct (Hg "encryptedKeys") as (k & Ek).
  unfold sbind at 1. unfold slift at 1. rewrite Ea.
  unfold sbind at 1. unfold slift at 1. rewrite Es.
  unfold sbind at 1. unfold slift at 1. rewrite Ek.
  rewrite (Ha a Ea), (Hs s Es), (He k Ek). cbn [negb orb].
  unfold sbind. rewrite ensureDir_run. unfold writeFile.
  cbn [homedir walletDir files with_walletDir WALLET_FILE WALLET_DIR CONFIG_FILE].
  change (homedir w ++ "/.stealth-wallet") with (WALLET_DIR w).
  change (WALLET_DIR w ++ "/wallet.json") with (WALLET_FILE w).
  rewrite String.eqb_refl. reflexivity.
Qed.

Lemma truthy_bytesToHex (b : bytes) : truthy (VStr (bytesToHex b)) = true.
Proof. reflexivity. Qed.

(** X15.  A wallet that was saved and exported is restored from the
    backup: after the wallet has been deleted, [importWallet] on the
    backup file writes the wallet file again, and [loadWallet] with the
    password returns the wallet that [saveWallet] returned. *)
Theorem backup_then_restore (keys : StealthKeys) (password targetPath : string)
    (w w1 w2 w3 : World) (wd : WalletData) :
  targetPath <> WALLET_FILE w ->
  saveWallet keys password w = (Returns wd, w1) ->
  wallet_address wd <> VStr "" ->
  exportWallet targetPath w1 = (Returns tt, w2) ->
  deleteWallet w2 = (Returns tt, w3) ->
  exists w4,
    importWallet targetPath w3 = (Returns tt, w4) /\
    loadWallet password w4 = (Returns wd, w4).
Proof.
  intros Ht Hsave Haddr Hexp Hdel.
  apply saveWallet_inv in Hsave as (address & _ & Hsave). cbv zeta in Hsave.
  destruct Hsave as [-> Hw1]. cbn [wallet_address] in Haddr.
  set (data := fst (encryptData (JSON_stringify 0 (object_of_keys keys)) password
                      (random w))) in *.
  set (wallet := encryptedWallet (VStr address) (VStr (createStealthMetaAddress keys))
                   (VNum (clock w)) data) in *.
  assert (Hser : serializable wallet = true) by reflexivity.
  assert (H1 : WALLET_FILE w1 = WALLET_FILE w) by now rewrite Hw1.
  assert (F1 : fileContent (WALLET_FILE w1) (files w1) = Some (JSON_stringify 2 wallet)).
  { rewrite H1, Hw1. cbn [files with_files]. apply fileContent_writeContent. }
  apply exportWallet_inv in Hexp as (content & Hc & Hw2).
  rewrite F1 in Hc. injection Hc as <-.
  assert (H2 : WALLET_FILE w2 = WALLET_FILE w) by now rewrite Hw2.
  assert (F2 : fileContent targetPath (files w2) = Some (JSON_stringify 2 wallet)).
  { rewrite Hw2. cbn [files with_files]. apply fileContent_writeContent. }
  apply deleteWallet_inv in Hdel as [Hh Hother].
  assert (H3 : WALLET_FILE w3 = WALLET_FILE w).
  { unfold WALLET_FILE, WALLET_DIR in *. rewrite Hh. exact H2. }
  assert (F3 : fileContent targetPath (files w3) = Some (JSON_stringify 2 wallet)).
  { rewrite Hother; [exact F2|]. now rewrite H2. }
  eexists. split.
  - apply (importWallet_file targetPath _ wallet w3 F3).
    + now apply parse_stringify.
    + reflexivity.
    + intros key. eexists. reflexivity.
    + intros v [= <-]. cbn [truthy]. apply negb_true_iff, String.eqb_neq. congruence.
    + intros v [= <-]. reflexivity.
    + intros v [= <-]. unfold data, encryptData.
      destruct (randomBytes SALT_LENGTH (random w)) as [s0 e1].
      destruct (randomBytes IV_LENGTH e1) as [i0 e2]. reflexivity.
  - rewrite (loadWallet_file password _ 2 (VStr address)
               (VStr (createStealthMetaAddress keys)) (VNum (clock w)) keys (random w));
      try reflexivity.
    + cbn [strictEquals]. now rewrite String.eqb_refl.
    + cbn [files with_files homedir with_walletDir WALLET_FILE WALLET_DIR].
      change (homedir w3 ++ "/.stealth-wallet") with (WALLET_DIR w3).
      change (WALLET_DIR w3 ++ "/wallet.json") with (WALLET_FILE w3).
      apply fileContent_writeContent.
Qed.

(** X16.  [importWallet] asks a backup for the version 1 and for an
    address, a meta-address and encrypted keys, not for the salt and the
    nonce: a backup without them is written as the wallet file, and
    [loadWallet] then fails on it with a [TypeError], whatever the
    password. *)
Theorem importWallet_accepts_backup_without_salt (sourcePath : string) (w : World)
    (space : nat) (address stealthMetaAddress encryptedKeys : string) :
  address <> "" -> stealthMetaAddress <> "" -> encryptedKeys <> "" ->
  fileContent sourcePath (files w) =
    Some (JSON_stringify space
            (VObj [("version", VNum 1);
                   ("address", VStr address);
                   ("stealthMetaAddress", VStr stealthMetaAddress);
                   ("encryptedKeys", VStr encryptedKeys)])) ->
  exists w',
    importWallet sourcePath w = (Returns tt, w') /\
    forall password, loadWallet password w' = (Throws TypeError, w').
Proof.
  intros Ha Hs He Hf.
  set (backup := VObj [("version", VNum 1);
                       ("address", VStr address);
                       ("stealthMetaAddress", VStr stealthMetaAddress);
                       ("encryptedKeys", VStr encryptedKeys)]) in *.
  assert (Hp : JSON_parse (JSON_stringify space backup) = Some backup)
    by now apply parse_stringify.
  eexists. split.
  - apply (importWallet_file sourcePath _ backup w Hf Hp).
    + reflexivity.
    + intros key. eexists. reflexivity.
    + intros v [= <-]. cbn [truthy]. now apply negb_true_iff, String.eqb_neq.
    + intros v [= <-]. cbn [truthy]. now apply negb_true_iff, String.eqb_neq.
    + intros v [= <-]. cbn [truthy]. now apply negb_true_iff, String.eqb_neq.
  - intros password. unfold loadWallet.
    unfold sbind at 1. rewrite walletExists_run.
    cbn [files with_files homedir with_walletDir WALLET_FILE WALLET_DIR].
    change (homedir w ++ "/.stealth-wallet") with (WALLET_DIR w).
    change (WALLET_DIR w ++ "/wallet.json") with (WALLET_FILE w).
    rewrite fileContent_writeContent. cbn [negb].
    unfold sbind at 1. unfold readFile. cbn [files with_files].
    rewrite fileContent_writeContent.
    unfold sbind at 1. unfold slift at 1. unfold parseJson. rewrite Hp.
    reflexivity.
Qed.

End BackupAndRestore.

Lemma backup_then_restore_witness :
  match saveWallet (L:=Cyclic.lib) (C:=Cyclic.cipher) (J:=Tagged.json)
          (Cyclic.keysOf 3 5) "password" freshWorld with
  | (Returns wd, w1) =>
      match exportWallet backupPath w1 with
      | (Returns _, w2) =>
          match deleteWallet w2 with
          | (Returns _, w3) =>
              exists w4,
                importWallet (J:=Tagged.json) backupPath w3 = (Returns tt, w4) /\
                loadWallet (C:=Cyclic.cipher) (J:=Tagged.json) "password" w4 =
                  (Returns wd, w4)
          | (Throws _, _) => False
          end
      | (Throws _, _) => False
      end
  | (Throws _, _) => False
  end.
Proof.
  destruct (saveWallet (L:=Cyclic.lib) (C:=Cyclic.cipher) (J:=Tagged.json)
              (Cyclic.keysOf 3 5) "password" freshWorld) as [[wd|e] w1] eqn:E1;
    [|vm_compute in E1; discriminate E1].
  destruct (exportWallet backupPath w1) as [[[]|e] w2] eqn:E2.
  - destruct (deleteWallet w2) as [[[]|e] w3] eqn:E3.
    + apply (backup_then_restore (L:=Cyclic.lib) (CL:=Cyclic_cipher_laws) (JL:=Tagged_laws)
               (Cyclic.keysOf 3 5) "password" backupPath freshWorld w1 w2 w3 wd).
      * vm_compute. discriminate.
      * exact E1.
      * vm_compute in E1. injection E1 as <- _. discriminate.
      * exact E2.
      * exact E3.
    + vm_compute in E1. injection E1 as _ <-. vm_compute in E2. injection E2 as <-.
      vm_compute in E3. discriminate E3.
  - vm_compute in E1. injection E1 as _ <-. vm_compute in E2. discriminate E2.
Defined.

Lemma importWallet_accepts_backup_without_salt_witness :
  let w := with_files
             [(backupPath,
               JSON_stringify (Json:=Tagged.json) 2
                 (VObj [("version", VNum 1);
                        ("address", VStr "0x00000000000000000000000000000000000000ff");
                        ("stealthMetaAddress", VStr "0x02");
                        ("encryptedKeys", VStr "0x00")]))] freshWorld in
  exists w',
    importWallet (J:=Tagged.json) backupPath w = (Returns tt, w') /\
    forall password,
      loadWallet (C:=Cyclic.cipher) (J:=Tagged.json) password w' = (Throws TypeError, w').
Proof.
  cbv zeta.
  apply (importWallet_accepts_backup_without_salt (C:=Cyclic.cipher) (J:=Tagged.json)
           (JL:=Tagged_laws) backupPath _ 2
           "0x00000000000000000000000000000000000000ff" "0x02" "0x00");
    first [discriminate | reflexivity].
Defined.

(* ================================================================== *)
(** * [lib/network]: the active network and the custom RPC URL *)

Section NetworkConfiguration.
Context {J : Json} {JL : JsonLaws J}.

Lemma getCurrentNetwork_run (w : World) :
  getCurrentNetwork w =
  (match getProperty (storedConfig w) "customRpcUrl" with
   | Throws e => Throws e
   | Returns customRpcUrl =>
       if truthy customRpcUrl
       then match activeNetwork_of (storedConfig w) with
            | Returns n => Returns (with_rpcUrl n customRpcUrl)
            | Throws e => Throws e
            end
       else activeNetwork_of (storedConfig w)
   end, w).
Proof.
  unfold getCurrentNetwork. unfold sbind at 1. rewrite loadConfig_run.
  unfold sbind, slift, sret.
  destruct (getProperty (storedConfig w) "customRpcUrl") as [u|e]; [|reflexivity].
  destruct (truthy u); [|reflexivity]. now destruct (activeNetwork_of (storedConfig w)).
Qed.

(** The network depends on two properties of the configuration. *)
Lemma getCurrentNetwork_same (w w' : World) :
  (forall key, key <> "lastScanBlock" ->
     getProperty (storedConfig w') key = getProperty (storedConfig w) key) ->
  fst (getCurrentNetwork w') = fst (getCurrentNetwork w).
Proof.
  intros H. rewrite !getCurrentNetwork_run. cbn [fst]. unfold activeNetwork_of.
  now rewrite !H by discriminate.
Qed.

(** A configuration object after the assignment of a property and
    [saveConfig]. *)
Lemma assigned_config_saved (key : string) (v : value) (ps : list (string * value))
    (w : World) :
  storedConfig w = VObj ps -> serializable v = true ->
  let w' := with_files
              (writeContent (CONFIG_FILE w)
                 (JSON_stringify 2 (VObj (assignProperty key v ps))) (files w))
              (with_walletDir true w) in
  (config <== loadConfig ;;
   config <== slift (setProperty config key v) ;;
   saveConfig config)%s w = (Returns tt, w') /\
  storedConfig w' = VObj (assignProperty key v ps).
Proof.
  intros Ec Hv. cbv zeta. split.
  - unfold sbind at 1. rewrite loadConfig_run, Ec.
    cbn [sbind slift setProperty]. now rewrite saveConfig_run.
  - apply storedConfig_saved, parse_stringify, serializable_assignProperty; [|exact Hv].
    rewrite <- Ec. apply serializable_storedConfig.
Qed.

Lemma SUPPORTED_NETWORKS_at_truthy_key (key : string) (n : network) :
  SUPPORTED_NETWORKS_at key = Some n ->
  activeNetwork_of (VObj [("activeNetwork", VStr key)]) = Returns n.
Proof. intros H. unfold activeNetwork_of. cbn. now rewrite H. Qed.

(** X17.  [setNetwork] with a name that [SUPPORTED_NETWORKS] has stores
    the name, and [getCurrentNetwork] then returns that network, with the
    custom RPC URL in the place of its own when the configuration holds
    one; the blocks recorded by earlier scans are kept. *)
Theorem setNetwork_selects (networkName : string) (n : network) (w : World)
    (ps : list (string * value)) :
  SUPPORTED_NETWORKS_at networkName = Some n ->
  storedConfig w = VObj ps ->
  exists w',
    setNetwork networkName w = (Returns n, w') /\
    getCurrentNetwork w' =
      (Returns (let customRpcUrl := lookupProperty "customRpcUrl" ps in
                if truthy customRpcUrl then with_rpcUrl n customRpcUrl else n), w') /\
    (forall chainId,
       fst (getLastScanBlock chainId w') = fst (getLastScanBlock chainId w)).
Proof.
  intros Hn Ec.
  destruct (assigned_config_saved "activeNetwork" (VStr networkName) ps w Ec eq_refl)
    as [Hrun Es]. cbv zeta in Hrun, Es.
  eexists. split; [|split].
  - unfold setNetwork. rewrite Hn. unfold sbind at 1. rewrite loadConfig_run, Ec.
    unfold sbind, slift, sret. cbn [setProperty]. now rewrite saveConfig_run.
  - rewrite getCurrentNetwork_run, Es. cbn [getProperty].
    rewrite lookupProperty_assignProperty_other by discriminate.
    unfold activeNetwork_of. cbn [getProperty].
    rewrite lookupProperty_assignProperty. cbn [toPropertyKey]. rewrite Hn.
    cbv zeta. now destruct (truthy (lookupProperty "customRpcUrl" ps)).
  - intros chainId. rewrite !getLastScanBlock_run, Es, Ec. cbn [fst getProperty].
    now rewrite lookupProperty_assignProperty_other by discriminate.
Qed.

(** X18.  [setNetwork] accepts the names of the members that
    [SUPPORTED_NETWORKS] inherits, [constructor] or [toString] for
    instance, like the names of networks: the name is stored, and what
    [getCurrentNetwork] returns afterwards has no chain id, and no RPC URL
    but the custom one.  Every other name that is not among the seven
    networks is rejected, and nothing is written. *)
Theorem setNetwork_accepts_inherited_names (networkName : string) (w : World)
    (ps : list (string * value)) :
  ownNetwork networkName SUPPORTED_NETWORKS = None ->
  storedConfig w = VObj ps ->
  if existsb (String.eqb networkName) Object_prototype
  then exists w' n,
         setNetwork networkName w = (Returns (Inherited networkName), w') /\
         getCurrentNetwork w' = (Returns n, w') /\
         network_chainId n = None /\
         network_rpcUrl n = (let customRpcUrl := lookupProperty "customRpcUrl" ps in
                             if truthy customRpcUrl then customRpcUrl else VUndefined)
  else setNetwork networkName w = (Throws UnknownNetwork, w).
Proof.
  intros Hown Ec.
  assert (Hat : SUPPORTED_NETWORKS_at networkName =
                if existsb (String.eqb networkName) Object_prototype
                then Some (Inherited networkName) else None)
    by (unfold SUPPORTED_NETWORKS_at; now rewrite Hown).
  destruct (existsb (String.eqb networkName) Object_prototype) eqn:Em.
  - destruct (assigned_config_saved "activeNetwork" (VStr networkName) ps w Ec eq_refl)
      as [Hrun Es]. cbv zeta in Hrun, Es.
    eexists.
    exists (if truthy (lookupProperty "customRpcUrl" ps)
            then RpcOnly (lookupProperty "customRpcUrl" ps) else Inherited networkName).
    split; [|split; [|split]].
    + unfold setNetwork. rewrite Hat. unfold sbind at 1. rewrite loadConfig_run, Ec.
      unfold sbind, slift, sret. cbn [setProperty]. now rewrite saveConfig_run.
    + rewrite getCurrentNetwork_run, Es. cbn [getProperty].
      rewrite lookupProperty_assignProperty_other by discriminate.
      unfold activeNetwork_of. cbn [getProperty].
      rewrite lookupProperty_assignProperty. cbn [toPropertyKey]. rewrite Hat.
      destruct (truthy (lookupProperty "customRpcUrl" ps)) eqn:Et; reflexivity.
    + cbv zeta. now destruct (truthy (lookupProperty "customRpcUrl" ps)).
    + cbv zeta. now destruct (truthy (lookupProperty "customRpcUrl" ps)).
  - unfold setNetwork. now rewrite Hat.
Qed.

(** X19.  [setCustomRpc] makes [getCurrentNetwork] return the active
    network with the URL given, unless the URL is the empty string, which
    counts as none; [clearCustomRpc] afterwards makes it return the
    active network with its own URL again. *)
Theorem custom_rpc_set_and_cleared (rpcUrl : string) (w : World)
    (ps : list (string * value)) (active : network) :
  storedConfig w = VObj ps ->
  activeNetwork_of (VObj ps) = Returns active ->
  exists w1 w2,
    setCustomRpc rpcUrl w = (Returns tt, w1) /\
    getCurrentNetwork w1 =
      (Returns (if String.eqb rpcUrl "" then active else with_rpcUrl active (VStr rpcUrl)),
       w1) /\
    clearCustomRpc w1 = (Returns tt, w2) /\
    getCurrentNetwork w2 = (Returns active, w2).
Proof.
  intros Ec Ha.
  destruct (assigned_config_saved "customRpcUrl" (VStr rpcUrl) ps w Ec eq_refl)
    as [Hrun Es]. cbv zeta in Hrun, Es.
  set (w1 := with_files
               (writeContent (CONFIG_FILE w)
                  (JSON_stringify 2 (VObj (assignProperty "customRpcUrl" (VStr rpcUrl) ps)))
                  (files w)) (with_walletDir true w)) in *.
  assert (Hs1 : serializable (VObj (assignProperty "customRpcUrl" (VStr rpcUrl) ps)) = true)
    by (rewrite <- Es; apply serializable_storedConfig).
  assert (Hactive : forall qs,
            lookupProperty "activeNetwork" qs = lookupProperty "activeNetwork" ps ->
            activeNetwork_of (VObj qs) = Returns active).
  { intros qs Hq. unfold activeNetwork_of in *. cbn [getProperty] in *. now rewrite Hq. }
  set (cleared := VObj (removeProperty "customRpcUrl"
                          (assignProperty "customRpcUrl" (VStr rpcUrl) ps))).
  assert (Hs2 : serializable cleared = true) by now apply serializable_removeProperty.
  exists w1.
  exists (with_files (writeContent (CONFIG_FILE w1) (JSON_stringify 2 cleared) (files w1))
            (with_walletDir true w1)).
  split; [exact Hrun|]. split; [|split].
  - rewrite getCurrentNetwork_run, Es. cbn [getProperty].
    rewrite lookupProperty_assignProperty. cbn [truthy].
    rewrite (Hactive (assignProperty "customRpcUrl" (VStr rpcUrl) ps))
      by (apply lookupProperty_assignProperty_other; discriminate).
    now destruct (String.eqb rpcUrl "").
  - unfold clearCustomRpc. unfold sbind at 1. rewrite loadConfig_run, Es.
    cbn [sbind slift deleteProperty]. now rewrite saveConfig_run.
  - rewrite getCurrentNetwork_run.
    rewrite (storedConfig_saved cleared) by now apply parse_stringify.
    unfold cleared. cbn [getProperty].
    rewrite lookupProperty_removeProperty.
    + cbn [truthy]. f_equal. apply Hactive.
      rewrite lookupProperty_removeProperty_other by discriminate.
      now rewrite lookupProperty_assignProperty_other by discriminate.
    + rewrite serializable_VObj in Hs1. apply andb_true_iff in Hs1 as [Hs1 _].
      now apply andb_true_iff in Hs1 as [Hs1 _].
Qed.

End NetworkConfiguration.

(* ================================================================== *)
(** * [lib/network]: fetching the announcements *)

Lemma logsBetween_cons (a : AnnouncementData) (chain : list AnnouncementData)
    (fromBlock toBlock : Z) :
  logsBetween (a :: chain) fromBlock toBlock =
  if ((fromBlock <=? ann_blockNumber a)%Z && (ann_blockNumber a <=? toBlock)%Z)%bool
  then a :: logsBetween chain fromBlock toBlock
  else logsBetween chain fromBlock toBlock.
Proof. reflexivity. Qed.

Lemma logsBetween_empty (chain : list AnnouncementData) (fromBlock toBlock : Z) :
  toBlock < fromBlock -> logsBetween chain fromBlock toBlock = [].
Proof.
  intros H. induction chain as [|a chain IH]; [reflexivity|]. rewrite logsBetween_cons, IH.
  destruct (Z.leb_spec fromBlock (ann_blockNumber a)); [|reflexivity].
  destruct (Z.leb_spec (ann_blockNumber a) toBlock); [lia|reflexivity].
Qed.

Lemma logsBetween_above (chain : list AnnouncementData) (n fromBlock toBlock : Z) :
  forallb (fun b => (n <=? ann_blockNumber b)%Z) chain = true -> toBlock < n ->
  logsBetween chain fromBlock toBlock = [].
Proof.
  intros H Hn. induction chain as [|a chain IH]; [reflexivity|].
  cbn [forallb] in H. apply andb_true_iff in H as [Ha H]. apply Z.leb_le in Ha.
  rewrite logsBetween_cons, (IH H).
  destruct (Z.leb_spec (ann_blockNumber a) toBlock); [lia|]. now rewrite andb_false_r.
Qed.

(** The announcements of two adjacent ranges of blocks are those of the
    whole range. *)
Lemma logsBetween_split (chain : list AnnouncementData) (a b c : Z) :
  sortedByBlock chain = true -> a <= b + 1 -> b <= c ->
  (logsBetween chain a b ++ logsBetween chain (b + 1) c)%list = logsBetween chain a c.
Proof.
  intros Hs Hab Hbc. induction chain as [|x chain IH]; [reflexivity|].
  cbn [sortedByBlock] in Hs. apply andb_true_iff in Hs as [Hx Hs]. specialize (IH Hs).
  rewrite !logsBetween_cons.
  destruct (Z.leb_spec a (ann_blockNumber x)) as [H1|H1];
    destruct (Z.leb_spec (ann_blockNumber x) b) as [H2|H2];
    destruct (Z.leb_spec (b + 1) (ann_blockNumber x)) as [H3|H3];
    destruct (Z.leb_spec (ann_blockNumber x) c) as [H4|H4];
    cbn [andb]; try lia; try exact IH.
  - cbn [app]. now rewrite IH.
  - rewrite (logsBetween_above chain (ann_blockNumber x) a b Hx H2) in *.
    cbn [app] in *. now rewrite IH.
Qed.

Section Fetching.
Context {J : Json} {JL : JsonLaws J}.

(** The loop on a node that answers requests for at most [CHUNK_SIZE]
    blocks: it requests no more, and collects the announcements of all the
    blocks from [start] to [endBlock]. *)
Lemma fetchChunks_run (chain : list AnnouncementData) (current : Z) (client : Client)
    (w : World) (endBlock : Z) :
  node w (transport_url client) = limitedNode chain current ->
  sortedByBlock chain = true ->
  forall (rounds : nat) (start : Z) (announcements : list AnnouncementData),
  0 <= start ->
  (Z.to_nat ((endBlock - start) / CHUNK_SIZE + 1) <= rounds)%nat ->
  fetchChunks rounds client start endBlock announcements w =
  (Returns (announcements ++ logsBetween chain start endBlock)%list, w).
Proof.
  intros Hnode Hs. unfold CHUNK_SIZE.
  induction rounds as [|rounds IH]; intros start acc H0 Hr.
  - cbn [fetchChunks sret]. rewrite logsBetween_empty, app_nil_r; [reflexivity|].
    destruct (Z.lt_ge_cases endBlock start) as [|Hge]; [assumption|].
    pose proof (Z.div_pos (endBlock - start) 10000 ltac:(lia) ltac:(lia)). lia.
  - cbn [fetchChunks]. unfold CHUNK_SIZE.
    destruct (Z.leb_spec start endBlock) as [Hle|Hgt].
    + unfold sbind, getLogs_of.
      destruct (Z.ltb_spec start 0); [lia|].
      destruct (Z.ltb_spec
                  (if (start + 10000 - 1 >? endBlock)%Z then endBlock
                   else start + 10000 - 1) 0) as [Hneg|_];
        [destruct (start + 10000 - 1 >? endBlock)%Z; lia|].
      cbn [orb]. rewrite Hnode. cbn [eth_getLogs limitedNode].
      unfold CHUNK_SIZE.
      assert (Hq : (endBlock - (start + 10000)) / 10000 = (endBlock - start) / 10000 - 1).
      { replace (endBlock - (start + 10000)) with (endBlock - start + (-1) * 10000) by lia.
        rewrite Z.div_add by lia. lia. }
      pose proof (Z.div_pos (endBlock - start) 10000 ltac:(lia) ltac:(lia)) as Hpos.
      destruct (Z.gtb_spec (start + 10000 - 1) endBlock) as [Hlast|Hmore].
      * destruct (Z.ltb_spec (endBlock - start) 10000); [|lia].
        rewrite IH by lia. rewrite <- app_assoc.
        rewrite (logsBetween_empty chain (start + 10000) endBlock) by lia.
        now rewrite app_nil_r.
      * destruct (Z.ltb_spec (start + 10000 - 1 - start) 10000); [|lia].
        rewrite IH by lia. rewrite <- app_assoc.
        rewrite <- (logsBetween_split chain start (start + 10000 - 1) endBlock Hs)
          by lia.
        now replace (start + 10000 - 1 + 1) with (start + 10000) by lia.
    + cbn [sret]. rewrite logsBetween_empty, app_nil_r by lia. reflexivity.
Qed.

(** A run of [fetchAnnouncements] on a machine whose node answers with
    the announcements of a chain. *)
Lemma fetchAnnouncements_run (fromBlock toBlock : option Z) (w : World) (n : network)
    (chain : list AnnouncementData) (current : Z) (lastScanned : option Z) :
  getCurrentNetwork w = (Returns n, w) ->
  truthy (network_rpcUrl n) = true ->
  node w (network_rpcUrl n) = limitedNode chain current ->
  sortedByBlock chain = true ->
  getLastScanBlock (network_chainId n) w = (Returns lastScanned, w) ->
  updatable (storedConfig w) = true ->
  0 <= scanStart fromBlock lastScanned (network_chainId n) ->
  let start := scanStart fromBlock lastScanned (network_chainId n) in
  let endBlock := scanEnd toBlock current in
  exists w',
    fetchAnnouncements fromBlock toBlock w =
      (Returns (logsBetween chain start endBlock), w') /\
    if (endBlock >? start)%Z
    then (exists content,
            w' = with_files (writeContent (CONFIG_FILE w) content (files w))
                   (with_walletDir true w)) /\
         getLastScanBlock (network_chainId n) w' = (Returns (Some endBlock), w') /\
         updatable (storedConfig w') = true /\
         fst (getCurrentNetwork w') = Returns n
    else w' = w.
Proof.
  intros Hnet Hurl Hnode Hs Hlast Hu H0 start endBlock.
  assert (Hfetch : forall w',
            (if (endBlock >? start)%Z
             then updateLastScanBlock (network_chainId n) endBlock w = (Returns tt, w')
             else w' = w) ->
            fetchAnnouncements fromBlock toBlock w =
              (Returns (logsBetween chain start endBlock), w')).
  { intros w' Hw'. unfold fetchAnnouncements.
    unfold sbind at 1. unfold createPublicClientForNetwork. unfold sbind at 1.
    rewrite Hnet, Hurl. cbn [sret].
    unfold sbind at 1. rewrite Hnet.
    assert (Hfrom : (match truthyBlock fromBlock with
                     | Some b => sret b
                     | None =>
                         (lastScanned0 <== getLastScanBlock (network_chainId n) ;;
                          match truthyBlock lastScanned0 with
                          | Some l => sret (l + 1)
                          | None => sret (START_BLOCKS_at (network_chainId n))
                          end)%s
                     end) w = (Returns start, w)).
    { unfold start, scanStart. destruct (truthyBlock fromBlock); [reflexivity|].
      unfold sbind. rewrite Hlast. now destruct (truthyBlock lastScanned). }
    unfold sbind at 1. rewrite Hfrom.
    unfold sbind at 1. unfold getBlockNumber_of. cbn [transport_url]. rewrite Hnode.
    cbn [eth_blockNumber limitedNode].
    fold (scanEnd toBlock current). fold endBlock.
    unfold sbind at 1.
    rewrite (fetchChunks_run chain current {| transport_url := network_rpcUrl n |}
               w endBlock Hnode Hs) by first [exact H0 | reflexivity].
    cbn [app]. unfold sbind.
    destruct (endBlock >? start)%Z; [now rewrite Hw' | now subst w']. }
  destruct (endBlock >? start)%Z eqn:Egt.
  - destruct (updateLastScanBlock_run (network_chainId n) endBlock w Hu)
      as (content & Hrun & Hu' & Hget & _ & Hkeys). cbv zeta in *.
    eexists. split; [exact (Hfetch _ Hrun)|]. split; [now exists content|].
    split; [exact Hget|]. split; [exact Hu'|].
    now rewrite (getCurrentNetwork_same _ _ Hkeys), Hnet.
  - exists w. split; [exact (Hfetch w eq_refl) | reflexivity].
Qed.

Lemma storedConfig_with_node (nd : value -> Node) (w : World) :
  storedConfig (with_node nd w) = storedConfig w.
Proof. reflexivity. Qed.

(** X20.  On a machine whose node answers requests for at most 10000
    blocks with the announcements of a chain, [fetchAnnouncements] returns
    the announcements of all the blocks from the start of the scan to its
    end, each once and in the order of the chain: the requests of the
    loop stay within the limit of the node, and leave no block out.  The
    scan starts from the block given, when it is not 0, else from the
    block after the last one recorded, else from the block of the
    deployment.  No file but the configuration file changes. *)
Theorem fetchAnnouncements_complete (fromBlock toBlock : option Z) (w : World)
    (n : network) (chain : list AnnouncementData) (current : Z)
    (lastScanned : option Z) :
  getCurrentNetwork w = (Returns n, w) ->
  truthy (network_rpcUrl n) = true ->
  node w (network_rpcUrl n) = limitedNode chain current ->
  sortedByBlock chain = true ->
  getLastScanBlock (network_chainId n) w = (Returns lastScanned, w) ->
  updatable (storedConfig w) = true ->
  0 <= scanStart fromBlock lastScanned (network_chainId n) ->
  exists w',
    fetchAnnouncements fromBlock toBlock w =
      (Returns (logsBetween chain
                  (scanStart fromBlock lastScanned (network_chainId n))
                  (scanEnd toBlock current)), w') /\
    (forall path, path <> CONFIG_FILE w ->
       fileContent path (files w') = fileContent path (files w)).
Proof.
  intros Hnet Hurl Hnode Hs Hlast Hu H0.
  destruct (fetchAnnouncements_run fromBlock toBlock w n chain current lastScanned
              Hnet Hurl Hnode Hs Hlast Hu H0) as (w' & Hrun & Hw'). cbv zeta in *.
  exists w'. split; [exact Hrun|]. intros path Hp.
  destruct (_ >? _)%Z; [|now subst w'].
  destruct Hw' as [[content ->] _]. cbn [files with_files].
  now apply fileContent_writeContent_other.
Qed.

(** X21.  Two scans in a row leave no gap and no overlap.  When a scan
    without parameters has covered more than one block, up to the block
    the node was at, the next one, run when the node is at a later block,
    returns the announcements of the blocks after that block; the two
    results together are the announcements from the start of the first
    scan to the end of the second. *)
Theorem consecutive_scans_leave_no_gap (w : World) (n : network)
    (chain : list AnnouncementData) (current later : Z) (lastScanned : option Z) :
  getCurrentNetwork w = (Returns n, w) ->
  truthy (network_rpcUrl n) = true ->
  node w (network_rpcUrl n) = limitedNode chain current ->
  sortedByBlock chain = true ->
  getLastScanBlock (network_chainId n) w = (Returns lastScanned, w) ->
  updatable (storedConfig w) = true ->
  0 <= scanStart None lastScanned (network_chainId n) < current ->
  current <= later ->
  exists found w1 found' w2,
    fetchAnnouncements None None w = (Returns found, w1) /\
    fetchAnnouncements None None (with_node (fun _ => limitedNode chain later) w1) =
      (Returns found', w2) /\
    found' = logsBetween chain (current + 1) later /\
    (found ++ found')%list =
      logsBetween chain (scanStart None lastScanned (network_chainId n)) later.
Proof.
  intros Hnet Hurl Hnode Hs Hlast Hu [H0 Hstart] Hlater.
  destruct (fetchAnnouncements_run None None w n chain current lastScanned
              Hnet Hurl Hnode Hs Hlast Hu H0) as (w1 & Hrun & Hw1). cbv zeta in *.
  change (scanEnd None current) with current in *.
  destruct (Z.gtb_spec current (scanStart None lastScanned (network_chainId n)));
    [|lia].
  destruct Hw1 as (_ & Hget & Hu1 & Hnet1).
  set (w1' := with_node (fun _ => limitedNode chain later) w1).
  assert (Hnet1' : getCurrentNetwork w1' = (Returns n, w1')).
  { rewrite getCurrentNetwork_run in *. unfold w1'. rewrite storedConfig_with_node.
    cbn [fst] in Hnet1. now rewrite Hnet1. }
  assert (Hget' : getLastScanBlock (network_chainId n) w1' = (Returns (Some current), w1')).
  { rewrite getLastScanBlock_run in *. unfold w1'. rewrite storedConfig_with_node.
    injection Hget as Hget. now rewrite Hget. }
  assert (Es : scanStart None (Some current) (network_chainId n) = current + 1).
  { unfold scanStart. cbn [truthyBlock]. destruct (Z.eqb_spec current 0); [lia|reflexivity]. }
  destruct (fetchAnnouncements_run None None w1' n chain later (Some current)
              Hnet1' Hurl eq_refl Hs Hget' Hu1 ltac:(lia)) as (w2 & Hrun2 & _).
  cbv zeta in *. change (scanEnd None later) with later in *.
  rewrite Es in Hrun2.
  exists (logsBetween chain (scanStart None lastScanned (network_chainId n)) current), w1,
    (logsBetween chain (current + 1) later), w2.
  split; [exact Hrun|]. split; [exact Hrun2|]. split; [reflexivity|].
  apply logsBetween_split; [exact Hs | lia | exact Hlater].
Qed.

(** X22.  A scan of one block only is not recorded: [fetchAnnouncements]
    returns the announcements of the block and leaves the machine as it
    was, the configuration file included, so that the next scan starts
    from this block again. *)
Theorem single_block_scan_not_recorded (fromBlock toBlock : option Z) (w : World)
    (n : network) (chain : list AnnouncementData) (current : Z)
    (lastScanned : option Z) :
  getCurrentNetwork w = (Returns n, w) ->
  truthy (network_rpcUrl n) = true ->
  node w (network_rpcUrl n) = limitedNode chain current ->
  sortedByBlock chain = true ->
  getLastScanBlock (network_chainId n) w = (Returns lastScanned, w) ->
  updatable (storedConfig w) = true ->
  scanStart fromBlock lastScanned (network_chainId n) = scanEnd toBlock current ->
  0 <= scanEnd toBlock current ->
  fetchAnnouncements fromBlock toBlock w =
    (Returns (logsBetween chain (scanEnd toBlock current) (scanEnd toBlock current)), w).
Proof.
  intros Hnet Hurl Hnode Hs Hlast Hu Heq H0.
  destruct (fetchAnnouncements_run fromBlock toBlock w n chain current lastScanned
              Hnet Hurl Hnode Hs Hlast Hu ltac:(now rewrite Heq))
    as (w' & Hrun & Hw'). cbv zeta in *.
  rewrite Heq in *. rewrite Z.gtb_ltb, Z.ltb_irrefl in Hw'. now subst w'.
Qed.

End Fetching.

Lemma setNetwork_selects_witness :
  exists w',
    setNetwork (J:=Tagged.json) "sepolia" freshWorld =
      (Returns (Supported {| net_chainId := 11155111;
                             net_name := "Sepolia Testnet";
                             net_rpcUrl := VStr "https://rpc.sepolia.org";
                             net_blockExplorer := "https://sepolia.etherscan.io" |}), w') /\
    getCurrentNetwork (J:=Tagged.json) w' =
      (Returns (Supported {| net_chainId := 11155111;
                             net_name := "Sepolia Testnet";
                             net_rpcUrl := VStr "https://rpc.sepolia.org";
                             net_blockExplorer := "https://sepolia.etherscan.io" |}), w') /\
    (forall chainId,
       fst (getLastScanBlock (J:=Tagged.json) chainId w') =
       fst (getLastScanBlock (J:=Tagged.json) chainId freshWorld)).
Proof.
  apply (setNetwork_selects (J:=Tagged.json) (JL:=Tagged_laws) "sepolia" _ freshWorld
           [("activeNetwork", VStr "mainnet")]); reflexivity.
Defined.

Lemma setNetwork_accepts_inherited_names_witness :
  exists w' n,
    setNetwork (J:=Tagged.json) "constructor" freshWorld =
      (Returns (Inherited "constructor"), w') /\
    getCurrentNetwork (J:=Tagged.json) w' = (Returns n, w') /\
    network_chainId n = None /\
    network_rpcUrl n = VUndefined.
Proof.
  apply (setNetwork_accepts_inherited_names (J:=Tagged.json) (JL:=Tagged_laws)
           "constructor" freshWorld [("activeNetwork", VStr "mainnet")]); reflexivity.
Defined.

Lemma custom_rpc_set_and_cleared_witness :
  exists w1 w2,
    setCustomRpc (J:=Tagged.json) "http://localhost:8545" freshWorld = (Returns tt, w1) /\
    getCurrentNetwork (J:=Tagged.json) w1 =
      (Returns (with_rpcUrl (Supported mainnet) (VStr "http://localhost:8545")), w1) /\
    clearCustomRpc (J:=Tagged.json) w1 = (Returns tt, w2) /\
    getCurrentNetwork (J:=Tagged.json) w2 = (Returns (Supported mainnet), w2).
Proof.
  apply (custom_rpc_set_and_cleared (J:=Tagged.json) (JL:=Tagged_laws)
           "http://localhost:8545" freshWorld [("activeNetwork", VStr "mainnet")]
           (Supported mainnet)); reflexivity.
Defined.

Lemma fetchAnnouncements_complete_witness :
  exists w',
    fetchAnnouncements (J:=Tagged.json) (Some 20040000) None scanningWorld =
      (Returns [announcedAt 20042300; announcedAt 20055000], w') /\
    (forall path, path <> CONFIG_FILE scanningWorld ->
       fileContent path (files w') = fileContent path (files scanningWorld)).
Proof.
  apply (fetchAnnouncements_complete (J:=Tagged.json) (JL:=Tagged_laws)
           (Some 20040000) None scanningWorld (Supported mainnet) threeAnnouncements
           20060000 None); first [reflexivity | discriminate].
Defined.

Lemma consecutive_scans_leave_no_gap_witness :
  exists found w1 found' w2,
    fetchAnnouncements (J:=Tagged.json) None None scanningWorld = (Returns found, w1) /\
    fetchAnnouncements (J:=Tagged.json) None None
      (with_node (fun _ => limitedNode threeAnnouncements 20062000) w1) =
      (Returns found', w2) /\
    found' = [announcedAt 20061000] /\
    (found ++ found')%list = threeAnnouncements.
Proof.
  apply (consecutive_scans_leave_no_gap (J:=Tagged.json) (JL:=Tagged_laws)
           scanningWorld (Supported mainnet) threeAnnouncements 20060000 20062000 None);
    first [reflexivity | lia | (vm_compute; split; [discriminate | reflexivity])].
Defined.

Lemma single_block_scan_not_recorded_witness :
  fetchAnnouncements (J:=Tagged.json) (Some 20055000) (Some 20055000) scanningWorld =
    (Returns [announcedAt 20055000], scanningWorld).
Proof.
  apply (single_block_scan_not_recorded (J:=Tagged.json) (JL:=Tagged_laws)
           (Some 20055000) (Some 20055000) scanningWorld (Supported mainnet)
           threeAnnouncements 20060000 None); first [reflexivity | discriminate].
Defined.
